(** * systems-trader: the market-structure analyzer, the condition algebra,
      the strategy loader and the backtest driver, embedded in Rocq.

    Prices, balances and percentages are Python floats in the source.  They
    are modelled as rationals ([Q]): every finite double is one.  Comparisons
    are the boolean comparisons of [Q], which are exact on doubles.  Where
    the code computes a Fibonacci level, a midpoint or the zone around a
    level, and where pandas converts an integer stamp to a double, the
    operations are those of [Float64]: the exact operation followed by
    rounding to the nearest double.  The touch and retest tolerances and the
    profit arithmetic of the backtest driver are written with the
    operations of [Q]; what is stated about them is stated on the same
    expressions, and no statement regroups a sum of doubles.  Infinities
    and NaN are outside the model.  Bar indices are natural
    numbers, timestamps are integers. *)

From Stdlib Require Import QArith Qabs Qround Lqa ZArith List Bool Lia Sorted Permutation.
From stdpp Require Import base list option strings gmap.

(* ===================================================================== *)
(** * Part I: the model                                                    *)
(* ===================================================================== *)

(** ** Float comparisons *)

Module Num.

(** [a < b], [a <= b], [a > b], [a >= b] on Python floats. *)
Definition ltb (a b : Q) : bool := negb (Qle_bool b a).
Definition leb (a b : Q) : bool := Qle_bool a b.
Definition gtb (a b : Q) : bool := ltb b a.
Definition geb (a b : Q) : bool := leb b a.

(** [abs(x)] *)
Definition abs (x : Q) : Q := Qabs x.

End Num.

(** ** Doubles *)

Module Float64.

(** The nearest integer, the even one of two equally near. *)
Definition rne (q : Q) : Z :=
  let f := Qfloor q in
  match (q - inject_Z f ?= 1 # 2)%Q with
  | Lt => f
  | Gt => (f + 1)%Z
  | Eq => if Z.even f then f else (f + 1)%Z
  end.

(** The exponent of the unit in the last place of a number with integer
    part [a]: 53 significant bits, and no unit finer than 1. *)
Definition unit_exp (a : Z) : Z := Z.max 0 (Z.log2 a - 52).

Definition round_pos (q : Q) : Z :=
  let u := (2 ^ unit_exp (Qfloor q))%Z in
  (rne (q / inject_Z u) * u)%Z.

(** Rounding to 53 significant bits on the grid of the integers, to the
    nearest, ties to even. *)
Definition round53 (q : Q) : Z :=
  if Qle_bool 0 q then round_pos q else (- round_pos (- q))%Z.

(** An int64 converted to float64 (what pandas does to an integer column
    when it hands out a row of a table whose other columns are floats),
    as the integer the double is. *)
Definition float64_of_int (t : Z) : Z := round53 (inject_Z t).

(** Every finite double is an integer multiple of 2^-1074. *)
Definition scale : Z := 2 ^ 1074.

(** The largest finite double, (2^53 - 1) * 2^971. *)
Definition max_double : Q := inject_Z ((2 ^ 53 - 1) * 2 ^ 971).

(** The double nearest to a real number.  A result beyond [max_double]
    is [inf] in Python; the model has no such value, and the statements
    about these operations are made within the range. *)
Definition round64 (x : Q) : Q :=
  inject_Z (round53 (x * inject_Z scale)) / inject_Z scale.

(** [x + y], [x - y], [x * y], [x / y] on doubles ([y] is a non-zero
    constant wherever [div] is used). *)
Definition add (x y : Q) : Q := round64 (x + y).
Definition sub (x y : Q) : Q := round64 (x - y).
Definition mul (x y : Q) : Q := round64 (x * y).
Definition div (x y : Q) : Q := round64 (x / y).

End Float64.

(** ** Candle tables (pandas DataFrames with OHLCV columns) *)

Module Candles.

Definition Time := Z.

(** One row.  [timestamp] and [datetime] hold the row's value in the
    column of that name; a value is meaningful only if the table has the
    column. *)
Record Bar := mkBar {
  timestamp : Time;
  datetime : Time;
  open : Q;
  high : Q;
  low : Q;
  close : Q;
  volume : Q
}.

(** The table: its rows and which of the two optional time columns it
    has (['timestamp' in candles.columns], ['datetime' in candles.columns]). *)
Record Table := mkTable {
  bars : list Bar;
  has_timestamp : bool;
  has_datetime : bool
}.

(** [len(candles)] *)
Definition len (c : Table) : nat := length (bars c).

(** [candles.iloc[:n]] *)
Definition iloc_prefix (c : Table) (n : nat) : Table :=
  {| bars := take n (bars c);
     has_timestamp := has_timestamp c;
     has_datetime := has_datetime c |}.

(** The table with one more row appended. *)
Definition append (c : Table) (b : Bar) : Table :=
  {| bars := bars c ++ [b];
     has_timestamp := has_timestamp c;
     has_datetime := has_datetime c |}.

(** [pd.to_datetime] on an integer stamp. *)
Definition to_datetime (t : Time) : Time := t.

End Candles.

(** ** A stable sort by an integer key ([list.sort(key=...)]) *)

Module Sorting.

Section ByKey.
Context {A : Type} (key : A -> nat).

(** Insertion after the last element whose key is not larger: elements
    with equal keys keep their original order. *)
Fixpoint insert_by (s : A) (l : list A) : list A :=
  match l with
  | [] => [s]
  | x :: l' => if key s <? key x then s :: x :: l'
               else x :: insert_by s l'
  end.

Definition sort_by (l : list A) : list A :=
  fold_left (fun acc s => insert_by s acc) l [].
End ByKey.

End Sorting.

(** ** swings.py *)

Module Swings.
Import Candles.

Inductive SwingType := SWING_HIGH | SWING_LOW.

Inductive StructureType := HIGHER_HIGH | HIGHER_LOW | LOWER_HIGH | LOWER_LOW.

#[global] Instance SwingType_eq_dec : EqDecision SwingType.
Proof. solve_decision. Defined.

#[global] Instance StructureType_eq_dec : EqDecision StructureType.
Proof. solve_decision. Defined.

Record SwingPoint := mkSwing {
  index : nat;
  price : Q;
  swing_type : SwingType;
  confirmed_at_index : nat;
  sp_timestamp : option Time;
  confirmed_at_timestamp : option Time;
  structure : option StructureType
}.

Definition is_high (s : SwingPoint) : bool := bool_decide (swing_type s = SWING_HIGH).
Definition is_low (s : SwingPoint) : bool := bool_decide (swing_type s = SWING_LOW).

(** The dictionaries [{'index': .., 'price': ..}] used as cursors. *)
Record Cursor := mkCursor { c_index : nat; c_price : Q }.

(** The local variables of [detect_swings] that live across iterations. *)
Record State := mkState {
  current_swing_high : Cursor;
  current_swing_low : Cursor;
  highest_since_low : Cursor;
  lowest_since_high : Cursor;
  swings : list SwingPoint
}.

(** [has_timestamps] and [ts_col] of [detect_swings]. *)
Definition has_timestamps (c : Table) : bool := has_timestamp c || has_datetime c.

Definition ts_col (c : Table) (b : Bar) : Time :=
  if has_datetime c then datetime b else timestamp b.

(** [pd.to_datetime(candles[ts_col].iloc[k]) if has_timestamps else None].
    The loop only reads rows [k <= i], which exist. *)
Definition ts_at (c : Table) (k : nat) : option Time :=
  if has_timestamps c then (fun b => to_datetime (ts_col c b)) <$> bars c !! k
  else None.

(** [xs[-1] if xs else None] *)
Definition last_of {A} (l : list A) : option A := last l.

(** Structure of a new swing low against the previous lows (HL or LL). *)
Definition low_structure (sw : list SwingPoint) (p : Q) : option StructureType :=
  match last_of (filter (fun s => is_low s = true) sw) with
  | Some prev => if Num.gtb p (price prev) then Some HIGHER_LOW else Some LOWER_LOW
  | None => None
  end.

(** Structure of a new swing high against the previous highs (HH or LH). *)
Definition high_structure (sw : list SwingPoint) (p : Q) : option StructureType :=
  match last_of (filter (fun s => is_high s = true) sw) with
  | Some prev => if Num.gtb p (price prev) then Some HIGHER_HIGH else Some LOWER_HIGH
  | None => None
  end.

Section Detector.
(** [SwingDetector.use_close] *)
Variable use_close : bool.
Variable c : Table.

(** One iteration of the [for i in range(1, len(candles))] loop. *)
Definition step (st : State) (i : nat) (b : Bar) : State :=
  let break_price_up := if use_close then close b else high b in
  let break_price_down := if use_close then close b else low b in
  let hsl := if Num.gtb (high b) (c_price (highest_since_low st))
             then mkCursor i (high b) else highest_since_low st in
  let lsh := if Num.ltb (low b) (c_price (lowest_since_high st))
             then mkCursor i (low b) else lowest_since_high st in
  if Num.gtb break_price_up (c_price (current_swing_high st)) then
    let '(sw, csl) :=
      if c_index lsh <? i then
        let swing_low :=
          {| index := c_index lsh;
             price := c_price lsh;
             swing_type := SWING_LOW;
             confirmed_at_index := i;
             sp_timestamp := ts_at c (c_index lsh);
             confirmed_at_timestamp := ts_at c i;
             structure := low_structure (swings st) (c_price lsh) |} in
        (swings st ++ [swing_low], mkCursor (c_index lsh) (c_price lsh))
      else (swings st, current_swing_low st) in
    {| current_swing_high := mkCursor i (high b);
       current_swing_low := csl;
       highest_since_low := mkCursor i (high b);
       lowest_since_high := mkCursor i (low b);
       swings := sw |}
  else if Num.ltb break_price_down (c_price (current_swing_low st)) then
    let '(sw, csh) :=
      if c_index hsl <? i then
        let swing_high :=
          {| index := c_index hsl;
             price := c_price hsl;
             swing_type := SWING_HIGH;
             confirmed_at_index := i;
             sp_timestamp := ts_at c (c_index hsl);
             confirmed_at_timestamp := ts_at c i;
             structure := high_structure (swings st) (c_price hsl) |} in
        (swings st ++ [swing_high], mkCursor (c_index hsl) (c_price hsl))
      else (swings st, current_swing_high st) in
    {| current_swing_high := csh;
       current_swing_low := mkCursor i (low b);
       highest_since_low := mkCursor i (high b);
       lowest_since_high := mkCursor i (low b);
       swings := sw |}
  else
    {| current_swing_high := current_swing_high st;
       current_swing_low := current_swing_low st;
       highest_since_low := hsl;
       lowest_since_high := lsh;
       swings := swings st |}.

(** The loop over the rows [i, i+1, ...]. *)
Fixpoint loop (i : nat) (bs : list Bar) (st : State) : State :=
  match bs with
  | [] => st
  | b :: bs' => loop (S i) bs' (step st i b)
  end.

(** The state before the loop: every cursor on bar 0. *)
Definition init (b0 : Bar) : State :=
  {| current_swing_high := mkCursor 0 (high b0);
     current_swing_low := mkCursor 0 (low b0);
     highest_since_low := mkCursor 0 (high b0);
     lowest_since_high := mkCursor 0 (low b0);
     swings := [] |}.
End Detector.

(** [swings.sort(key=lambda x: x.index)] *)
Definition sort_by_index (l : list SwingPoint) : list SwingPoint :=
  Sorting.sort_by index l.

(** [SwingDetector.detect_swings] *)
Definition detect_swings (use_close : bool) (c : Table) : list SwingPoint :=
  if len c <? 3 then []
  else match bars c with
       | [] => []
       | b0 :: rest => sort_by_index (swings (loop use_close c 1 rest (init b0)))
       end.

(** [SwingDetector.detect_major_swings]: an alias. *)
Definition detect_major_swings (use_close : bool) (c : Table) : list SwingPoint :=
  detect_swings use_close c.

(** *** StructureAnalyzer *)

Inductive Trend := unknown | uptrend | downtrend | ranging.

#[global] Instance Trend_eq_dec : EqDecision Trend.
Proof. solve_decision. Defined.

(** [swings[-n:]] *)
Definition last_n {A} (n : nat) (l : list A) : list A := drop (length l - n) l.

(** [sum(1 for s in recent if s.structure == t)] *)
Definition count_structure (t : StructureType) (l : list SwingPoint) : nat :=
  length (filter (fun s => structure s = Some t) l).

(** [xs[-2] if len(xs) > 1 else None] *)
Definition second_last {A} (l : list A) : option A :=
  if 1 <? length l then l !! (length l - 2) else None.

Record KeyLevels := mkKeyLevels {
  last_swing_high : option Q;
  last_swing_low : option Q;
  prev_swing_high : option Q;
  prev_swing_low : option Q
}.

(** The dictionary returned by [analyze]; [key_levels] is [None] for the
    empty dictionary of the early return, and the counts are absent there. *)
Record Analysis := mkAnalysis {
  trend : Trend;
  a_swings : list SwingPoint;
  key_levels : option KeyLevels;
  counts : option (nat * nat * nat * nat)
}.

(** [StructureAnalyzer.analyze] *)
Definition analyze (use_close : bool) (c : Table) : Analysis :=
  let sw := detect_swings use_close c in
  if length sw <? 4 then
    {| trend := unknown; a_swings := sw; key_levels := None; counts := None |}
  else
    let recent := if 6 <=? length sw then last_n 6 sw else sw in
    let hh_count := count_structure HIGHER_HIGH recent in
    let hl_count := count_structure HIGHER_LOW recent in
    let lh_count := count_structure LOWER_HIGH recent in
    let ll_count := count_structure LOWER_LOW recent in
    let t := if (1 <=? hh_count) && (1 <=? hl_count) then uptrend
             else if (1 <=? lh_count) && (1 <=? ll_count) then downtrend
             else ranging in
    let highs := filter (fun s => is_high s = true) sw in
    let lows := filter (fun s => is_low s = true) sw in
    {| trend := t;
       a_swings := sw;
       key_levels := Some {| last_swing_high := price <$> last_of highs;
                             last_swing_low := price <$> last_of lows;
                             prev_swing_high := price <$> second_last highs;
                             prev_swing_low := price <$> second_last lows |};
       counts := Some (hh_count, hl_count, lh_count, ll_count) |}.

End Swings.

(** ** range_detector.py *)

Module Ranges.
Import Candles Swings.

Inductive RangeStatus := FORMING | CONFIRMED | BROKEN_UP | BROKEN_DOWN.

#[global] Instance RangeStatus_eq_dec : EqDecision RangeStatus.
Proof. solve_decision. Defined.

Record FibLevels := mkFib { range_low : Q; range_high : Q }.

(** The levels are computed on doubles; 0.25, 0.50 and 0.75 are doubles. *)
Definition fib_0 (f : FibLevels) : Q := range_low f.
Definition fib_25 (f : FibLevels) : Q :=
  Float64.add (range_low f) (Float64.mul (Float64.sub (range_high f) (range_low f)) (1 # 4)).
Definition fib_50 (f : FibLevels) : Q :=
  Float64.add (range_low f) (Float64.mul (Float64.sub (range_high f) (range_low f)) (1 # 2)).
Definition fib_75 (f : FibLevels) : Q :=
  Float64.add (range_low f) (Float64.mul (Float64.sub (range_high f) (range_low f)) (3 # 4)).
Definition fib_100 (f : FibLevels) : Q := range_high f.
Definition get_level (f : FibLevels) (pct : Q) : Q :=
  Float64.add (range_low f)
    (Float64.mul (Float64.sub (range_high f) (range_low f)) (Float64.div pct 100)).

Record Range := mkRange {
  r_high : Q;
  r_low : Q;
  start_index : nat;
  end_index : option nat;
  high_touches : nat;
  low_touches : nat;
  status : RangeStatus;
  high_swing : option SwingPoint;
  low_swing : option SwingPoint
}.

Definition fib (r : Range) : FibLevels := mkFib (r_low r) (r_high r).
Definition height (r : Range) : Q := Float64.sub (r_high r) (r_low r).
Definition midpoint (r : Range) : Q := Float64.div (Float64.add (r_high r) (r_low r)) 2.
Definition total_touches (r : Range) : nat := high_touches r + low_touches r.
Definition is_valid (r : Range) (min_touches : nat) : bool :=
  min_touches <=? total_touches r.
Definition is_active (r : Range) : bool :=
  bool_decide (status r = FORMING) || bool_decide (status r = CONFIRMED).
Definition price_in_range (r : Range) (p : Q) : bool :=
  Num.leb (r_low r) p && Num.leb p (r_high r).
Definition at_75_level (r : Range) (p tolerance_pct : Q) : bool :=
  let target := fib_75 (fib r) in
  let tolerance := Float64.mul (height r) (Float64.div tolerance_pct 100) in
  Num.leb (Num.abs (Float64.sub p target)) tolerance.
Definition at_25_level (r : Range) (p tolerance_pct : Q) : bool :=
  let target := fib_25 (fib r) in
  let tolerance := Float64.mul (height r) (Float64.div tolerance_pct 100) in
  Num.leb (Num.abs (Float64.sub p target)) tolerance.

(** The fields of a [RangeDetector]; [use_close] is its swing detector's. *)
Record RangeDetector := mkRangeDetector {
  touch_tolerance_pct : Q;
  min_touches : nat;
  min_range_bars : nat;
  max_range_bars : nat;
  use_close : bool
}.

(** [RangeDetector()] *)
Definition RANGE_DETECTOR_DEFAULT : RangeDetector :=
  {| touch_tolerance_pct := 3 # 10; min_touches := 3; min_range_bars := 10;
     max_range_bars := 100; use_close := true |}.

Section Detector.
Variable self : RangeDetector.
Variable c : Table.

Section CreateRange.
Variables hs ls : SwingPoint.

Let start_idx := Nat.min (index hs) (index ls).
Let rhigh := price hs.
Let rlow := price ls.
Let tolerance := ((rhigh - rlow) * (touch_tolerance_pct self / 100))%Q.

(** The forward scan of [_create_range] over the rows [i, i+1, ...];
    it returns at the first row that breaks out of the range. *)
Fixpoint scan (i : nat) (bs : list Bar) (ht lt : nat) : Range :=
  match bs with
  | [] =>
      {| r_high := rhigh; r_low := rlow; start_index := start_idx;
         end_index := Some (len c - 1);
         high_touches := ht; low_touches := lt;
         status := if min_touches self <=? ht + lt then CONFIRMED else FORMING;
         high_swing := Some hs; low_swing := Some ls |}
  | b :: bs' =>
      let ht' := if Num.geb (high b) (rhigh - tolerance) then S ht else ht in
      let lt' := if Num.leb (low b) (rlow + tolerance) then S lt else lt in
      if Num.gtb (high b) (rhigh + tolerance) then
        {| r_high := rhigh; r_low := rlow; start_index := start_idx;
           end_index := Some i;
           high_touches := ht'; low_touches := lt';
           status := BROKEN_UP;
           high_swing := Some hs; low_swing := Some ls |}
      else if Num.ltb (low b) (rlow - tolerance) then
        {| r_high := rhigh; r_low := rlow; start_index := start_idx;
           end_index := Some i;
           high_touches := ht'; low_touches := lt';
           status := BROKEN_DOWN;
           high_swing := Some hs; low_swing := Some ls |}
      else scan (S i) bs' ht' lt'
  end.

(** [RangeDetector._create_range]; the rows visited are
    [range(end_idx, min(len(candles), end_idx + max_range_bars))]. *)
Definition _create_range : option Range :=
  let end_idx := Nat.max (index hs) (index ls) in
  if end_idx - start_idx <? min_range_bars self then None
  else Some (scan end_idx
               (take (max_range_bars self) (drop end_idx (bars c))) 0 0).
End CreateRange.

(** The body of the loop of [detect_ranges] for one swing of
    [swings[:-1]]: the range appended, if any. *)
Definition candidate (low_swings : list SwingPoint) (swing : SwingPoint)
  : option Range :=
  if is_high swing then
    match filter (fun s => index swing < index s) low_swings with
    | [] => None
    | low_swing :: _ =>
        match _create_range swing low_swing with
        | Some range_obj =>
            if is_valid range_obj (min_touches self) then Some range_obj
            else None
        | None => None
        end
    end
  else None.

(** [RangeDetector.detect_ranges] *)
Definition detect_ranges : list Range :=
  let swings := detect_major_swings (use_close self) c in
  if length swings <? 2 then []
  else
    let low_swings := filter (fun s => is_low s = true) swings in
    omap (candidate low_swings) (take (length swings - 1) swings).

(** [RangeDetector.detect_current_range] *)
Definition detect_current_range : option Range :=
  let active_ranges := filter (fun r => is_active r = true) detect_ranges in
  last_of active_ranges.
End Detector.

End Ranges.

(** ** structure_breaks.py *)

Module Breaks.
Import Candles Swings.

Inductive BreakType := BOS_BULLISH | BOS_BEARISH | MSB_BULLISH | MSB_BEARISH.

#[global] Instance BreakType_eq_dec : EqDecision BreakType.
Proof. solve_decision. Defined.

Record StructureBreak := mkBreak {
  break_type : BreakType;
  break_index : nat;
  break_price : Q;
  break_candle_close : Q;
  swing_broken : SwingPoint;
  b_timestamp : option Time;
  retest_index : option nat;
  retest_price : option Q
}.

(** The fields of a [BOSDetector] or [MSBDetector]; [swing_use_close] is
    the [use_close] of its swing detector. *)
Record Detector := mkDetector {
  swing_use_close : bool;
  confirmation_bars : nat;
  use_close : bool
}.

(** [BOSDetector()], [MSBDetector()] *)
Definition DETECTOR_DEFAULT : Detector :=
  {| swing_use_close := true; confirmation_bars := 1; use_close := true |}.

(** [s.structure in [a, b]] *)
Definition structure_in (s : SwingPoint) (a b : StructureType) : bool :=
  bool_decide (structure s = Some a) || bool_decide (structure s = Some b).

Section Detector.
Variable self : Detector.
Variable c : Table.

Definition mk (t : BreakType) (i : nat) (b : Bar) (swing : SwingPoint)
  : StructureBreak :=
  {| break_type := t;
     break_index := i;
     break_price := price swing;
     break_candle_close := close b;
     swing_broken := swing;
     b_timestamp := if has_timestamp c then Some (to_datetime (timestamp b))
                    else None;
     retest_index := None;
     retest_price := None |}.

(** The price compared with the level: the close, or the bar's extreme
    on the side of the break. *)
Definition check_price_above (b : Bar) : Q := if use_close self then close b else high b.
Definition check_price_below (b : Bar) : Q := if use_close self then close b else low b.

(** A [for i in range(start, len(candles))] loop whose body returns or
    breaks at the first row satisfying [hit]: [decide i b] is what the
    body yields there. *)
Fixpoint first_hit (hit : Bar -> bool) (decide_at : nat -> Bar -> option StructureBreak)
    (i : nat) (bs : list Bar) : option StructureBreak :=
  match bs with
  | [] => None
  | b :: bs' => if hit b then decide_at i b
                else first_hit hit decide_at (S i) bs'
  end.

(** The rows [range(swing.index + confirmation_bars, len(candles))]. *)
Definition rows_from (swing : SwingPoint) : list Bar :=
  drop (index swing + confirmation_bars self) (bars c).

(** [BOSDetector._detect_break_above] *)
Definition _detect_break_above (swing : SwingPoint) (all_swings : list SwingPoint)
  : option StructureBreak :=
  let level := price swing in
  first_hit
    (fun b => Num.gtb (check_price_above b) level)
    (fun i b =>
       let prior_swings := filter (fun s => index s < i) all_swings in
       match last_of prior_swings with
       | Some last_swing =>
           if structure_in last_swing HIGHER_HIGH HIGHER_LOW
           then Some (mk BOS_BULLISH i b swing) else None
       | None => None
       end)
    (index swing + confirmation_bars self) (rows_from swing).

(** [BOSDetector._detect_break_below] *)
Definition _detect_break_below (swing : SwingPoint) (all_swings : list SwingPoint)
  : option StructureBreak :=
  let level := price swing in
  first_hit
    (fun b => Num.ltb (check_price_below b) level)
    (fun i b =>
       let prior_swings := filter (fun s => index s < i) all_swings in
       match last_of prior_swings with
       | Some last_swing =>
           if structure_in last_swing LOWER_HIGH LOWER_LOW
           then Some (mk BOS_BEARISH i b swing) else None
       | None => None
       end)
    (index swing + confirmation_bars self) (rows_from swing).

(** [s.index < i and s.index > swing.index - 20] *)
Definition in_msb_window (swing : SwingPoint) (i : nat) (s : SwingPoint) : bool :=
  (index s <? i) && (Z.of_nat (index swing) - 20 <? Z.of_nat (index s))%Z.

(** [sum(1 for s in prior_swings if s.structure in [a, b])] over the
    window of the break at [i]. *)
Definition regime_count (a b : StructureType) (swing : SwingPoint) (i : nat)
    (all_swings : list SwingPoint) : nat :=
  let prior_swings := filter (fun s => in_msb_window swing i s = true) all_swings in
  length (filter (fun s => structure_in s a b = true) prior_swings).

(** [MSBDetector._detect_bullish_msb] *)
Definition _detect_bullish_msb (swing : SwingPoint) (all_swings : list SwingPoint)
  : option StructureBreak :=
  let level := price swing in
  first_hit
    (fun b => Num.gtb (check_price_above b) level)
    (fun i b =>
       if 2 <=? regime_count LOWER_HIGH LOWER_LOW swing i all_swings
       then Some (mk MSB_BULLISH i b swing) else None)
    (index swing + confirmation_bars self) (rows_from swing).

(** [MSBDetector._detect_bearish_msb] *)
Definition _detect_bearish_msb (swing : SwingPoint) (all_swings : list SwingPoint)
  : option StructureBreak :=
  let level := price swing in
  first_hit
    (fun b => Num.ltb (check_price_below b) level)
    (fun i b =>
       if 2 <=? regime_count HIGHER_HIGH HIGHER_LOW swing i all_swings
       then Some (mk MSB_BEARISH i b swing) else None)
    (index swing + confirmation_bars self) (rows_from swing).

(** The common shape of [detect_bos] and [detect_msb]: the highs, then
    the lows, then a stable sort by break index. *)
Definition detect_with (min_swings : nat)
    (above below : SwingPoint -> list SwingPoint -> option StructureBreak)
  : list StructureBreak :=
  let swings := detect_major_swings (swing_use_close self) c in
  if length swings <? min_swings then []
  else
    let highs := filter (fun s => is_high s = true) swings in
    let lows := filter (fun s => is_low s = true) swings in
    let breaks := omap (fun swing => above swing swings) highs
                  ++ omap (fun swing => below swing swings) lows in
    Sorting.sort_by break_index breaks.

(** [BOSDetector.detect_bos] *)
Definition detect_bos : list StructureBreak :=
  detect_with 2 _detect_break_above _detect_break_below.

(** [MSBDetector.detect_msb] *)
Definition detect_msb : list StructureBreak :=
  detect_with 3 _detect_bullish_msb _detect_bearish_msb.
End Detector.

End Breaks.

(** ** Python exceptions *)

Module Py.

Inductive PyError :=
  TypeError | AttributeError | ValueError | IndexError | ZeroDivisionError.

(** The outcome of a call: a value, or an exception that propagates. *)
Inductive PyResult (A : Type) :=
| Ok (a : A)
| Raise (e : PyError).
Arguments Ok {A} a.
Arguments Raise {A} e.

Definition bind {A B} (m : PyResult A) (k : A -> PyResult B) : PyResult B :=
  match m with
  | Ok a => k a
  | Raise e => Raise e
  end.

Module Notations.
Notation "x <- m ;; k" := (bind m (fun x => k))
  (at level 100, m at next level, right associativity).
End Notations.

(** [a / b] on floats.  A zero divisor has no rational quotient: Python
    floats raise ZeroDivisionError there, numpy doubles give inf or nan,
    which the model does not have; the model stops with the exception in
    both cases, and what is proved of a quotient is proved for a non-zero
    divisor. *)
Definition div (a b : Q) : PyResult Q :=
  if Qeq_bool b 0 then Raise ZeroDivisionError else Ok (a / b)%Q.

End Py.

(** ** conditions/base.py *)

Module Conditions.
Import Candles.

Inductive ConditionResult := TRUE | FALSE | NEUTRAL.

#[global] Instance ConditionResult_eq_dec : EqDecision ConditionResult.
Proof. solve_decision. Defined.

(** [ConditionResult.value] *)
Definition value (r : ConditionResult) : string :=
  match r with TRUE => "true" | FALSE => "false" | NEUTRAL => "neutral" end.

(** What a [values] dictionary may hold. *)
#[local] Unset Elimination Schemes.
Inductive Value :=
| VStr (s : string)
| VNum (q : Q)
| VDict (d : list (string * Value)).
#[local] Set Elimination Schemes.

Record EvaluationResult := mkResult {
  result : ConditionResult;
  condition_name : string;
  details : string;
  values : list (string * Value)
}.

Definition is_true (r : EvaluationResult) : bool := bool_decide (result r = TRUE).
Definition is_false (r : EvaluationResult) : bool := bool_decide (result r = FALSE).
Definition is_neutral (r : EvaluationResult) : bool := bool_decide (result r = NEUTRAL).

(** [EvaluationResult.__bool__] *)
Definition to_bool (r : EvaluationResult) : bool := bool_decide (result r = TRUE).

Section Algebra.
(** The keyword arguments [**context]. *)
Context {Ctx : Type}.

(** A [BaseCondition]: a concrete condition (its name and what its
    [evaluate] returns) or one of the three combinators.  The leaves are
    the evaluations that return; the price and pattern conditions that can
    raise are modelled apart, with [PyResult]. *)
Inductive Condition :=
| Concrete (name : string) (eval : Table -> Ctx -> EvaluationResult)
| AndCondition (cond1 cond2 : Condition)
| OrCondition (cond1 cond2 : Condition)
| NotCondition (condition : Condition).

Fixpoint name (c : Condition) : string :=
  match c with
  | Concrete n _ => n
  | AndCondition c1 c2 => "(" +:+ name c1 +:+ " AND " +:+ name c2 +:+ ")"
  | OrCondition c1 c2 => "(" +:+ name c1 +:+ " OR " +:+ name c2 +:+ ")"
  | NotCondition c1 => "NOT(" +:+ name c1 +:+ ")"
  end.

Fixpoint evaluate (c : Condition) (candles : Table) (context : Ctx)
  : EvaluationResult :=
  match c with
  | Concrete _ eval => eval candles context
  | AndCondition cond1 cond2 =>
      let result1 := evaluate cond1 candles context in
      let result2 := evaluate cond2 candles context in
      if is_false result1 || is_false result2 then
        {| result := FALSE;
           condition_name := name c;
           details := "Failed: " +:+
             (if is_false result1 then details result1 else details result2);
           values := [("cond1", VStr (value (result result1)));
                      ("cond2", VStr (value (result result2)))] |}
      else if is_true result1 && is_true result2 then
        {| result := TRUE;
           condition_name := name c;
           details := "Both conditions met";
           values := [("cond1", VDict (values result1));
                      ("cond2", VDict (values result2))] |}
      else
        {| result := NEUTRAL;
           condition_name := name c;
           details := "One or more conditions neutral";
           values := [] |}
  | OrCondition cond1 cond2 =>
      let result1 := evaluate cond1 candles context in
      let result2 := evaluate cond2 candles context in
      if is_true result1 || is_true result2 then
        {| result := TRUE;
           condition_name := name c;
           details := "Passed: " +:+
             (if is_true result1 then details result1 else details result2);
           values := [("cond1", VDict (values result1));
                      ("cond2", VDict (values result2))] |}
      else if is_false result1 && is_false result2 then
        {| result := FALSE;
           condition_name := name c;
           details := "Both conditions failed";
           values := [] |}
      else
        {| result := NEUTRAL;
           condition_name := name c;
           details := "Neither condition met, one neutral";
           values := [] |}
  | NotCondition condition =>
      let r := evaluate condition candles context in
      if is_true r then
        {| result := FALSE;
           condition_name := name c;
           details := "Inverted from TRUE";
           values := values r |}
      else if is_false r then
        {| result := TRUE;
           condition_name := name c;
           details := "Inverted from FALSE";
           values := values r |}
      else
        {| result := NEUTRAL;
           condition_name := name c;
           details := "NEUTRAL unchanged";
           values := [] |}
  end.
End Algebra.
Arguments Condition Ctx : clear implicits.

End Conditions.

(** ** engine/system_parser.py *)

Module Parser.
Import Py.

(** A document as [yaml.safe_load] returns it. *)
#[local] Unset Elimination Schemes.
Inductive Yaml :=
| YNull
| YBool (b : bool)
| YNum (q : Q)
| YStr (s : string)
| YList (l : list Yaml)
| YDict (d : list (string * Yaml)).
#[local] Set Elimination Schemes.

(** Truth value of an object ([if x], [not x], [x or y]). *)
Definition truthy (y : Yaml) : bool :=
  match y with
  | YNull => false
  | YBool b => b
  | YNum q => negb (Qeq_bool q 0)
  | YStr s => negb (bool_decide (s = ""))
  | YList l => negb (bool_decide (length l = 0))
  | YDict d => negb (bool_decide (length d = 0))
  end.

(** Lookup in a dictionary given as its items. *)
Fixpoint lookup_item (k : string) (d : list (string * Yaml)) : option Yaml :=
  match d with
  | [] => None
  | (k', v) :: d' => if bool_decide (k = k') then Some v else lookup_item k d'
  end.

(** [data.get(k, default)]; only a dictionary has [get]. *)
Definition get (data : Yaml) (k : string) (default : Yaml) : PyResult Yaml :=
  match data with
  | YDict d => Ok (match lookup_item k d with Some v => v | None => default end)
  | _ => Raise AttributeError
  end.

Definition get_opt (data : Yaml) (k : string) : PyResult Yaml := get data k YNull.

Inductive StopLossType := SL_ATR | SL_PERCENT | SL_FIXED | SL_SWING | SL_LEVEL.
Inductive TakeProfitType := TP_RISK_REWARD | TP_ATR | TP_PERCENT | TP_FIXED | TP_LEVEL.

(** [StopLossType(v)]: the member whose value is [v], else [ValueError]. *)
Definition StopLossType_of (v : Yaml) : PyResult StopLossType :=
  match v with
  | YStr "atr" => Ok SL_ATR
  | YStr "percent" => Ok SL_PERCENT
  | YStr "fixed" => Ok SL_FIXED
  | YStr "swing" => Ok SL_SWING
  | YStr "level" => Ok SL_LEVEL
  | _ => Raise ValueError
  end.

Definition TakeProfitType_of (v : Yaml) : PyResult TakeProfitType :=
  match v with
  | YStr "risk_reward" => Ok TP_RISK_REWARD
  | YStr "atr" => Ok TP_ATR
  | YStr "percent" => Ok TP_PERCENT
  | YStr "fixed" => Ok TP_FIXED
  | YStr "level" => Ok TP_LEVEL
  | _ => Raise ValueError
  end.

Record StopLossConfig := mkSL {
  sl_type : StopLossType;
  sl_value : Yaml;
  trailing : Yaml;
  trailing_activation : Yaml
}.

Record TakeProfitConfig := mkTP {
  tp_type : TakeProfitType;
  tp_value : Yaml;
  partial_exits : Yaml
}.

Import Py.Notations.

(** [StopLossConfig.from_dict] *)
Definition StopLossConfig_from_dict (data : Yaml) : PyResult StopLossConfig :=
  ty <- get data "type" (YStr "atr") ;;
  t <- StopLossType_of ty ;;
  d3 <- get data "percent" (YNum (15 # 10)) ;;
  d2 <- get data "value" d3 ;;
  v <- get data "multiplier" d2 ;;
  tr <- get data "trailing" (YBool false) ;;
  ta <- get_opt data "trailing_activation" ;;
  Ok {| sl_type := t; sl_value := v; trailing := tr; trailing_activation := ta |}.

(** [TakeProfitConfig.from_dict] *)
Definition TakeProfitConfig_from_dict (data : Yaml) : PyResult TakeProfitConfig :=
  ty <- get data "type" (YStr "risk_reward") ;;
  t <- TakeProfitType_of ty ;;
  d3 <- get data "multiplier" (YNum 3) ;;
  d2 <- get data "value" d3 ;;
  v <- get data "ratio" d2 ;;
  pe <- get_opt data "partial_exits" ;;
  Ok {| tp_type := t; tp_value := v; partial_exits := pe |}.

(** The condition classes of the registry. *)
Inductive CondClass :=
| BOSOccurred | MSBOccurred | InRange | At75FibLevel | At25FibLevel
| FalseBreakoutOccurred | InUptrend | InDowntrend | IsRanging | RetestOccurred
| PriceAbove | PriceBelow | PriceNear | PriceCrossedAbove | PriceCrossedBelow
| PriceInRange | CandleDirection | ConsecutiveCandles
| EMAAlignment | PriceAboveEMA | PriceBelowEMA | RSILevel | VWAPSlope
| PriceAboveVWAP | PriceBelowVWAP | VolumeSpikeCondition | ADXTrending
| MACDCrossover.

(** [SystemParser.CONDITION_TYPES] *)
Definition CONDITION_TYPES : gmap string CondClass :=
  list_to_map
    [ ("bos_occurred", BOSOccurred); ("msb_occurred", MSBOccurred);
      ("in_range", InRange); ("at_75_fib", At75FibLevel);
      ("at_25_fib", At25FibLevel); ("false_breakout", FalseBreakoutOccurred);
      ("in_uptrend", InUptrend); ("in_downtrend", InDowntrend);
      ("is_ranging", IsRanging); ("retest_occurred", RetestOccurred);
      ("price_above", PriceAbove); ("price_below", PriceBelow);
      ("price_near", PriceNear); ("price_crossed_above", PriceCrossedAbove);
      ("price_crossed_below", PriceCrossedBelow); ("price_in_range", PriceInRange);
      ("candle_direction", CandleDirection);
      ("consecutive_candles", ConsecutiveCandles);
      ("ema_alignment", EMAAlignment); ("price_above_ema", PriceAboveEMA);
      ("price_below_ema", PriceBelowEMA); ("rsi_level", RSILevel);
      ("vwap_slope", VWAPSlope); ("price_above_vwap", PriceAboveVWAP);
      ("price_below_vwap", PriceBelowVWAP); ("volume_spike", VolumeSpikeCondition);
      ("adx_trending", ADXTrending); ("macd_crossover", MACDCrossover) ].

(** The parameters of each class's [__init__] besides [self]: all of
    them, and those without a default. *)
Definition params (k : CondClass) : list string :=
  match k with
  | BOSOccurred | MSBOccurred | FalseBreakoutOccurred => ["direction"; "lookback"; "name"]
  | InRange => ["min_touches"; "name"]
  | At75FibLevel | At25FibLevel => ["tolerance_pct"; "name"]
  | InUptrend | InDowntrend | IsRanging => ["name"]
  | RetestOccurred => ["lookback"; "tolerance_pct"; "name"]
  | PriceAbove | PriceBelow | PriceCrossedAbove | PriceCrossedBelow =>
      ["level"; "source"; "name"]
  | PriceNear => ["level"; "tolerance_pct"; "source"; "name"]
  | PriceInRange => ["low"; "high"; "source"; "name"]
  | CandleDirection => ["direction"; "name"]
  | ConsecutiveCandles => ["direction"; "count"; "name"]
  | EMAAlignment => ["direction"; "periods"; "name"]
  | PriceAboveEMA | PriceBelowEMA => ["period"; "source"; "name"]
  | RSILevel => ["zone"; "period"; "oversold"; "overbought"; "name"]
  | VWAPSlope => ["direction"; "slope_period"; "name"]
  | PriceAboveVWAP | PriceBelowVWAP => ["source"; "name"]
  | VolumeSpikeCondition => ["threshold"; "period"; "name"]
  | ADXTrending => ["threshold"; "period"; "name"]
  | MACDCrossover => ["direction"; "fast"; "slow"; "signal"; "name"]
  end.

Definition required (k : CondClass) : list string :=
  match k with
  | PriceAbove | PriceBelow | PriceNear | PriceCrossedAbove | PriceCrossedBelow =>
      ["level"]
  | PriceInRange => ["low"; "high"]
  | _ => []
  end.

(** The parameter on which the body calls [.lower()], if any. *)
Definition lowered (k : CondClass) : option string :=
  match k with
  | CandleDirection | ConsecutiveCandles | EMAAlignment | VWAPSlope | MACDCrossover =>
      Some "direction"
  | RSILevel => Some "zone"
  | _ => None
  end.

(** A condition object: its class and the arguments it was built with. *)
Record ConditionObj := mkCond { cls : CondClass; kwargs : list (string * Yaml) }.

Definition is_str (y : Yaml) : bool := match y with YStr _ => true | _ => false end.
Definition iterable (y : Yaml) : bool :=
  match y with YStr _ | YList _ | YDict _ => true | _ => false end.

(** Calling the class with the keyword arguments: binding the arguments raises [TypeError] for
    an unexpected keyword or a missing required one; then the body runs:
    [.lower()] on a value that is not a string raises [AttributeError],
    and [EMAAlignment] iterates over a true [periods]. *)
Definition construct (k : CondClass) (kw : list (string * Yaml)) : PyResult ConditionObj :=
  if negb (forallb (fun '(key, _) => bool_decide (key ∈ params k)) kw) then Raise TypeError
  else if negb (forallb (fun r => bool_decide (is_Some (lookup_item r kw))) (required k))
  then Raise TypeError
  else
    _ <- match lowered k with
         | Some p =>
             match lookup_item p kw with
             | Some v => if is_str v then Ok tt else Raise AttributeError
             | None => Ok tt
             end
         | None => Ok tt
         end ;;
    _ <- match k, lookup_item "periods" kw with
         | EMAAlignment, Some v =>
             if truthy v && negb (iterable v) then Raise TypeError else Ok tt
         | _, _ => Ok tt
         end ;;
    Ok {| cls := k; kwargs := kw |}.

(** What [print] wrote. *)
Inductive Warning :=
| UnknownConditionType (cond_type : Yaml)
| ErrorCreatingCondition (cond_type : Yaml).

(** A call that prints: the lines printed, and the outcome. *)
Definition Printing (A : Type) : Type := list Warning * PyResult A.

(** [SystemParser._parse_condition] *)
Definition _parse_condition (data : Yaml) : Printing (option ConditionObj) :=
  match get_opt data "type" with
  | Raise e => ([], Raise e)
  | Ok cond_type =>
      if negb (truthy cond_type) then ([], Ok None)
      else
        match cond_type with
        | YList _ | YDict _ => ([], Raise TypeError) (* unhashable key *)
        | _ =>
            let cond_class :=
              match cond_type with
              | YStr s => CONDITION_TYPES !! s
              | _ => None
              end in
            match cond_class with
            | None => ([UnknownConditionType cond_type], Ok None)
            | Some k =>
                let kw := match data with
                          | YDict d => filter (fun '(key, _) => key ≠ "type") d
                          | _ => []
                          end in
                match construct k kw with
                | Ok cnd => ([], Ok (Some cnd))
                | Raise TypeError => ([ErrorCreatingCondition cond_type], Ok None)
                | Raise e => ([], Raise e)
                end
            end
        end
  end.

(** The loop of [_parse_conditions] over the items. *)
Fixpoint parse_items (items : list Yaml) : Printing (list ConditionObj) :=
  match items with
  | [] => ([], Ok [])
  | cond_data :: rest =>
      match _parse_condition cond_data with
      | (w, Raise e) => (w, Raise e)
      | (w, Ok condition) =>
          match parse_items rest with
          | (w', Raise e) => (w ++ w', Raise e)
          | (w', Ok conditions) =>
              (w ++ w',
               Ok (match condition with
                   | Some cnd => cnd :: conditions
                   | None => conditions
                   end))
          end
      end
  end.

(** [SystemParser._parse_conditions]: iterating over a list gives its
    items; over an empty dictionary or string, nothing; over a non-empty
    one, keys or characters, on which [get] fails; anything else is not
    iterable. *)
Definition _parse_conditions (conditions_data : Yaml) : Printing (list ConditionObj) :=
  match conditions_data with
  | YList items => parse_items items
  | YDict [] | YStr "" => ([], Ok [])
  | YDict _ | YStr _ => ([], Raise AttributeError)
  | _ => ([], Raise TypeError)
  end.

Record TradingSystem := mkSystem {
  name : Yaml;
  timeframe : Yaml;
  direction : Yaml;
  entry_conditions : list ConditionObj;
  stop_loss : StopLossConfig;
  take_profit : TakeProfitConfig;
  filters : list ConditionObj;
  risk_percent : Yaml;
  max_positions : Yaml;
  description : Yaml;
  enabled : Yaml
}.

Definition lift {A} (m : PyResult A) : Printing A := ([], m).

Definition pbind {A B} (m : Printing A) (k : A -> Printing B) : Printing B :=
  match m with
  | (w, Raise e) => (w, Raise e)
  | (w, Ok a) => let '(w', r) := k a in (w ++ w', r)
  end.

(** [SystemParser.parse] *)
Definition parse (data : Yaml) : Printing TradingSystem :=
  pbind (lift (get data "name" (YStr "Unnamed System"))) (fun name =>
  pbind (lift (get data "timeframe" (YStr "15m"))) (fun timeframe =>
  pbind (lift (get data "direction" (YStr "both"))) (fun direction =>
  pbind (lift (get data "entry" (YDict []))) (fun entry_data =>
  pbind (lift (get entry_data "conditions" (YList []))) (fun conds =>
  pbind (_parse_conditions conds) (fun entry_conditions =>
  pbind (lift (get data "exit" (YDict []))) (fun exit_data =>
  pbind (lift (get exit_data "stop_loss"
           (YDict [("type", YStr "atr"); ("multiplier", YNum (15 # 10))]))) (fun sl =>
  pbind (lift (StopLossConfig_from_dict sl)) (fun stop_loss =>
  pbind (lift (get exit_data "take_profit"
           (YDict [("type", YStr "risk_reward"); ("ratio", YNum 3)]))) (fun tp =>
  pbind (lift (TakeProfitConfig_from_dict tp)) (fun take_profit =>
  pbind (lift (get data "filters" (YList []))) (fun filter_data =>
  pbind (_parse_conditions filter_data) (fun filters =>
  pbind (lift (get data "risk" (YNum 1))) (fun risk =>
  pbind (lift (get data "risk_percent" risk)) (fun risk_percent =>
  pbind (lift (get data "max_positions" (YNum 1))) (fun max_positions =>
  pbind (lift (get data "description" (YStr ""))) (fun description =>
  pbind (lift (get data "enabled" (YBool true))) (fun enabled =>
  lift (Ok {| name := name; timeframe := timeframe; direction := direction;
              entry_conditions := entry_conditions;
              stop_loss := stop_loss; take_profit := take_profit;
              filters := filters; risk_percent := risk_percent;
              max_positions := max_positions; description := description;
              enabled := enabled |}))))))))))))))))))).

(** [TradingSystem.check_entry], over the [evaluate] of the condition
    objects. *)
Definition check_entry (evaluate : ConditionObj -> Conditions.EvaluationResult)
    (s : TradingSystem) : bool :=
  if bool_decide (length (entry_conditions s) = 0) then false
  else if negb (forallb (fun cnd => Conditions.is_true (evaluate cnd)) (entry_conditions s))
  then false
  else if negb (bool_decide (length (filters s) = 0))
          && negb (existsb (fun f => Conditions.is_true (evaluate f)) (filters s))
  then false
  else true.

End Parser.

(** ** engine/backtest.py *)

Module Backtest.
Import Candles Py Py.Notations.

Inductive TradeStatus := OPEN | CLOSED_TP | CLOSED_SL | CLOSED_SIGNAL | CLOSED_EOD.

#[global] Instance TradeStatus_eq_dec : EqDecision TradeStatus.
Proof. solve_decision. Defined.

(** Modelled from the spec: [SignalType] and [Signal] are declared in
    engine/signal_generator.py, which is not among the sources; these are
    the kinds of a signal and the fields of it that [run] reads. *)
Inductive SignalType := LONG | SHORT.

#[global] Instance SignalType_eq_dec : EqDecision SignalType.
Proof. solve_decision. Defined.

Record Signal := mkSignal {
  s_signal_type : SignalType;
  s_stop_loss : Q;
  s_take_profit : Q;
  s_position_size : Q;
  s_risk_amount : Q
}.

Record BacktestTrade := mkTrade {
  trade_id : nat;
  system_name : string;
  signal_type : SignalType;
  entry_time : Time;
  entry_price : Q;
  entry_bar : nat;
  exit_time : option Time;
  exit_price : option Q;
  exit_bar : option nat;
  exit_reason : option TradeStatus;
  stop_loss : Q;
  take_profit : Q;
  position_size : Q;
  risk_amount : Q;
  pnl : Q;
  pnl_percent : Q;
  r_multiple : Q
}.

Record BacktestResults := mkResults {
  res_system_name : string;
  symbol : string;
  timeframe : string;
  start_date : Time;
  end_date : Time;
  trades : list BacktestTrade;
  initial_balance : Q;
  final_balance : Q;
  peak_balance : Q;
  max_drawdown : Q;
  max_drawdown_percent : Q
}.

(** The constructor arguments of [BacktestEngine]. *)
Record BacktestEngine := mkEngine {
  e_initial_balance : Q;
  commission_pct : Q;
  slippage_pct : Q
}.

(** The local variables of [run] that live across iterations. *)
Record Loop := mkLoop {
  l_trades : list BacktestTrade;
  balance : Q;
  l_peak_balance : Q;
  l_max_drawdown : Q;
  l_trade_id : nat;
  current_trade : option BacktestTrade
}.

(** [BacktestEngine._check_exit]; [None] is the pair [(None, None)]. *)
Definition _check_exit (trade : BacktestTrade) (high low close : Q)
  : option (Q * TradeStatus) :=
  match signal_type trade with
  | LONG =>
      if Num.leb low (stop_loss trade) then Some (stop_loss trade, CLOSED_SL)
      else if Num.geb high (take_profit trade) then Some (take_profit trade, CLOSED_TP)
      else None
  | SHORT =>
      if Num.geb high (stop_loss trade) then Some (stop_loss trade, CLOSED_SL)
      else if Num.leb low (take_profit trade) then Some (take_profit trade, CLOSED_TP)
      else None
  end.

(** The profit before commission, as both closing branches compute it. *)
Definition gross_pnl (t : BacktestTrade) (px : Q) : Q :=
  match signal_type t with
  | LONG => ((px - entry_price t) * position_size t)%Q
  | SHORT => ((entry_price t - px) * position_size t)%Q
  end.

(** [pnl / (risk_amount * position_size)] if [risk_amount > 0], else the
    field keeps its value. *)
Definition r_multiple_of (t : BacktestTrade) (p : Q) : PyResult Q :=
  if Num.gtb (risk_amount t) 0
  then div p (risk_amount t * position_size t)%Q
  else Ok (r_multiple t).

Section Run.
Context {System : Type}.
(** [system.name], [system.timeframe] *)
Variable sys_name : System -> string.
Variable sys_timeframe : System -> string.
(** [SignalGenerator.generate_signals] (signal_generator.py is not among
    the sources) while the system of the run is the one registered:
    [run] registers it first and clears the registry last. *)
Variable generate_signals : System -> Table -> string -> Q -> list Signal.
(** [datetime.now()]: [now k] is what the k-th call during the run
    returns. *)
Variable now : nat -> Time.

Variable self : BacktestEngine.
Variable system : System.
Variable candles : Table.
Variable sym : string.

(** The first half of the loop body: close the open trade if the bar
    touches one of its levels. *)
Definition exit_step (i : nat) (bar_timestamp : Time) (b : Bar) (st : Loop)
  : PyResult Loop :=
  match current_trade st with
  | None => Ok st
  | Some t =>
      match _check_exit t (high b) (low b) (close b) with
      | None => Ok st
      | Some (px, reason) =>
          let pnl0 := gross_pnl t px in
          let commission := (Num.abs pnl0 * (commission_pct self / 100))%Q in
          let pnl1 := (pnl0 - commission)%Q in
          r <- r_multiple_of t pnl1 ;;
          let balance' := (balance st + pnl1)%Q in
          pp <- div pnl1 (e_initial_balance self) ;;
          let t' :=
            {| trade_id := trade_id t;
               system_name := system_name t;
               signal_type := signal_type t;
               entry_time := entry_time t;
               entry_price := entry_price t;
               entry_bar := entry_bar t;
               exit_time := Some bar_timestamp;
               exit_price := Some px;
               exit_bar := Some i;
               exit_reason := Some reason;
               stop_loss := stop_loss t;
               take_profit := take_profit t;
               position_size := position_size t;
               risk_amount := risk_amount t;
               pnl := pnl1;
               pnl_percent := (pp * 100)%Q;
               r_multiple := r |} in
          let peak' := if Num.gtb balance' (l_peak_balance st)
                       then balance' else l_peak_balance st in
          let drawdown := (peak' - balance')%Q in
          let maxdd' := if Num.gtb drawdown (l_max_drawdown st)
                        then drawdown else l_max_drawdown st in
          Ok {| l_trades := l_trades st ++ [t'];
                balance := balance';
                l_peak_balance := peak';
                l_max_drawdown := maxdd';
                l_trade_id := l_trade_id st;
                current_trade := None |}
      end
  end.

(** The second half: open a trade on the first signal, if none is open. *)
Definition entry_step (i : nat) (bar_timestamp : Time) (b : Bar) (st : Loop) : Loop :=
  match current_trade st with
  | Some _ => st
  | None =>
      match generate_signals system (iloc_prefix candles (i + 1)) sym (balance st) with
      | [] => st
      | signal :: _ =>
          let slippage := (close b * (slippage_pct self / 100))%Q in
          let entry := match s_signal_type signal with
                       | LONG => (close b + slippage)%Q
                       | SHORT => (close b - slippage)%Q
                       end in
          {| l_trades := l_trades st;
             balance := balance st;
             l_peak_balance := l_peak_balance st;
             l_max_drawdown := l_max_drawdown st;
             l_trade_id := S (l_trade_id st);
             current_trade :=
               Some {| trade_id := S (l_trade_id st);
                       system_name := sys_name system;
                       signal_type := s_signal_type signal;
                       entry_time := bar_timestamp;
                       entry_price := entry;
                       entry_bar := i;
                       exit_time := None;
                       exit_price := None;
                       exit_bar := None;
                       exit_reason := None;
                       stop_loss := s_stop_loss signal;
                       take_profit := s_take_profit signal;
                       position_size := s_position_size signal;
                       risk_amount := s_risk_amount signal;
                       pnl := 0;
                       pnl_percent := 0;
                       r_multiple := 0 |} |}
      end
  end.

(** [bar_timestamp]: the clock reading, replaced by the row's stamp if
    the table has the column.  The stamp is read from [candles.iloc[i]], a
    row that pandas holds as doubles when the columns of the table are
    numeric, the prices being floats: it is the stamp converted to a
    double. *)
Definition bar_timestamp_of (k : nat) (b : Bar) : Time :=
  let bar_timestamp := now k in
  if has_timestamp candles
  then to_datetime (Float64.float64_of_int (timestamp b))
  else bar_timestamp.

(** One iteration of [for i in range(min_bars, len(candles))]; it makes
    the k-th call of the clock. *)
Definition step (i k : nat) (b : Bar) (st : Loop) : PyResult Loop :=
  let bar_timestamp := bar_timestamp_of k b in
  st1 <- exit_step i bar_timestamp b st ;;
  Ok (entry_step i bar_timestamp b st1).

Fixpoint loop (i k : nat) (bs : list Bar) (st : Loop) : PyResult Loop :=
  match bs with
  | [] => Ok st
  | b :: bs' => st1 <- step i k b st ;; loop (S i) (S k) bs' st1
  end.

Definition min_bars : nat := 50.

Definition init : Loop :=
  {| l_trades := [];
     balance := e_initial_balance self;
     l_peak_balance := e_initial_balance self;
     l_max_drawdown := 0;
     l_trade_id := 0;
     current_trade := None |}.

(** [start_date] and [end_date]: two clock readings, replaced by the
    first and last stamps if the table has the column ([.iloc[0]] on an
    empty table raises). *)
Definition date_range : PyResult (Time * Time) :=
  let start_date := now 0 in
  let end_date := now 1 in
  if has_timestamp candles then
    match head (bars candles), last (bars candles) with
    | Some b0, Some bl => Ok (to_datetime (timestamp b0), to_datetime (timestamp bl))
    | _, _ => Raise IndexError
    end
  else Ok (start_date, end_date).

(** The state when the loop is left. *)
Definition after_loop : PyResult Loop :=
  loop min_bars 2 (drop min_bars (bars candles)) init.

(** "Close any remaining open trade at end of data". *)
Definition close_eod (end_date : Time) (st : Loop) : PyResult Loop :=
  match current_trade st with
  | None => Ok st
  | Some t =>
      match last (bars candles) with
      | None => Raise IndexError
      | Some bl =>
          let px := close bl in
          let pnl0 := gross_pnl t px in
          r <- r_multiple_of t pnl0 ;;
          let t' :=
            {| trade_id := trade_id t;
               system_name := system_name t;
               signal_type := signal_type t;
               entry_time := entry_time t;
               entry_price := entry_price t;
               entry_bar := entry_bar t;
               exit_time := Some end_date;
               exit_price := Some px;
               exit_bar := Some (len candles - 1);
               exit_reason := Some CLOSED_EOD;
               stop_loss := stop_loss t;
               take_profit := take_profit t;
               position_size := position_size t;
               risk_amount := risk_amount t;
               pnl := pnl0;
               pnl_percent := pnl_percent t;
               r_multiple := r |} in
          Ok {| l_trades := l_trades st ++ [t'];
                balance := (balance st + pnl0)%Q;
                l_peak_balance := l_peak_balance st;
                l_max_drawdown := l_max_drawdown st;
                l_trade_id := l_trade_id st;
                current_trade := Some t' |}
      end
  end.

(** [BacktestEngine.run] *)
Definition run : PyResult BacktestResults :=
  dates <- date_range ;;
  st <- after_loop ;;
  st' <- close_eod (snd dates) st ;;
  Ok {| res_system_name := sys_name system;
        symbol := sym;
        timeframe := sys_timeframe system;
        start_date := fst dates;
        end_date := snd dates;
        trades := l_trades st';
        initial_balance := e_initial_balance self;
        final_balance := balance st';
        peak_balance := l_peak_balance st';
        max_drawdown := l_max_drawdown st';
        max_drawdown_percent :=
          if Num.gtb (l_peak_balance st') 0
          then (l_max_drawdown st' / l_peak_balance st' * 100)%Q else 0 |}.
End Run.

End Backtest.

(** ** range_detector.py: the level checks *)

Module RangeLevels.
Import Candles Swings Ranges Py.

(** [RangeDetector.is_at_75_level]: the pair [(is_at_level, range)];
    [candles['close'].iloc[-1]] raises on an empty table. *)
Definition is_at_75_level (self : RangeDetector) (c : Table) (tolerance_pct : Q)
  : PyResult (bool * option Range) :=
  match detect_current_range self c with
  | None => Ok (false, None)
  | Some current_range =>
      match last (bars c) with
      | None => Raise IndexError
      | Some bl =>
          Ok (at_75_level current_range (close bl) tolerance_pct, Some current_range)
      end
  end.

(** [RangeDetector.is_at_25_level] *)
Definition is_at_25_level (self : RangeDetector) (c : Table) (tolerance_pct : Q)
  : PyResult (bool * option Range) :=
  match detect_current_range self c with
  | None => Ok (false, None)
  | Some current_range =>
      match last (bars c) with
      | None => Raise IndexError
      | Some bl =>
          Ok (at_25_level current_range (close bl) tolerance_pct, Some current_range)
      end
  end.

End RangeLevels.


(** ** structure_breaks.py: the queries on breaks, and retests *)

Module BreakQueries.
Import Candles Swings Breaks.

(** [StructureBreak.is_bos], [is_msb], [is_bullish], [is_bearish],
    [has_retest] *)
Definition is_bos (r : StructureBreak) : bool :=
  bool_decide (break_type r = BOS_BULLISH) || bool_decide (break_type r = BOS_BEARISH).
Definition is_msb (r : StructureBreak) : bool :=
  bool_decide (break_type r = MSB_BULLISH) || bool_decide (break_type r = MSB_BEARISH).
Definition is_bullish (r : StructureBreak) : bool :=
  bool_decide (break_type r = BOS_BULLISH) || bool_decide (break_type r = MSB_BULLISH).
Definition is_bearish (r : StructureBreak) : bool :=
  bool_decide (break_type r = BOS_BEARISH) || bool_decide (break_type r = MSB_BEARISH).
Definition has_retest (r : StructureBreak) : bool :=
  match retest_index r with Some _ => true | None => false end.

(** [BOSDetector.detect_latest_bos], [MSBDetector.detect_latest_msb] *)
Definition detect_latest_bos (self : Detector) (c : Table) : option StructureBreak :=
  last_of (detect_bos self c).
Definition detect_latest_msb (self : Detector) (c : Table) : option StructureBreak :=
  last_of (detect_msb self c).

(** The module-level [detect_all_structure_breaks]: both detectors with
    their default settings. *)
Definition detect_all_structure_breaks (c : Table) : list StructureBreak :=
  let bos := detect_bos DETECTOR_DEFAULT c in
  let msb := detect_msb DETECTOR_DEFAULT c in
  Sorting.sort_by break_index (bos ++ msb).

(** *** RetestDetector *)

Record RetestDetector := mkRetestDetector {
  tolerance_pct : Q;
  max_retest_bars : nat
}.

(** [RetestDetector()] *)
Definition RETEST_DETECTOR_DEFAULT : RetestDetector :=
  {| tolerance_pct := 3 # 10; max_retest_bars := 20 |}.

(** One of the two loops of [find_retest] over the rows [i, i+1, ...]:
    the first row whose price [px] is within [tolerance] of [level]. *)
Fixpoint first_touch (px : Bar -> Q) (level tolerance : Q) (i : nat) (bs : list Bar)
  : option (nat * Q) :=
  match bs with
  | [] => None
  | b :: bs' =>
      if Num.leb (Num.abs (px b - level)) tolerance then Some (i, px b)
      else first_touch px level tolerance (S i) bs'
  end.

(** [RetestDetector.find_retest]; the rows visited are
    [range(start_idx, end_idx)]. *)
Definition find_retest (self : RetestDetector) (c : Table) (structure_break : StructureBreak)
  : option (nat * Q) :=
  let level := break_price structure_break in
  let tolerance := (level * (tolerance_pct self / 100))%Q in
  let start_idx := break_index structure_break + 1 in
  let end_idx := Nat.min (start_idx + max_retest_bars self) (len c) in
  let rows := take (end_idx - start_idx) (drop start_idx (bars c)) in
  if is_bullish structure_break then first_touch low level tolerance start_idx rows
  else first_touch high level tolerance start_idx rows.

(** [RetestDetector.has_valid_retest] *)
Definition has_valid_retest (self : RetestDetector) (c : Table)
    (structure_break : StructureBreak) : bool :=
  match find_retest self c structure_break with Some _ => true | None => false end.

End BreakQueries.

(** ** engine/backtest.py: the properties of trades and results *)

Module BacktestMetrics.
Import Candles Py Py.Notations Backtest.

(** [BacktestTrade.is_open], [is_winner], [duration_bars] *)
Definition is_open (t : BacktestTrade) : bool :=
  match exit_time t with None => true | Some _ => false end.
Definition is_winner (t : BacktestTrade) : bool := Num.gtb (pnl t) 0.
Definition duration_bars (t : BacktestTrade) : Z :=
  match exit_bar t with
  | None => 0%Z
  | Some e => (Z.of_nat e - Z.of_nat (entry_bar t))%Z
  end.

(** [BacktestResults.total_trades], [winning_trades], [losing_trades] *)
Definition total_trades (r : BacktestResults) : nat := length (trades r).
Definition winning_trades (r : BacktestResults) : nat :=
  length (filter (fun t => is_winner t = true) (trades r)).
Definition losing_trades (r : BacktestResults) : nat :=
  length (filter (fun t => is_winner t = false /\ is_open t = false) (trades r)).

(** [BacktestResults.win_rate] *)
Definition win_rate (r : BacktestResults) : Q :=
  let closed := filter (fun t => is_open t = false) (trades r) in
  match closed with
  | [] => 0%Q
  | _ => (inject_Z (Z.of_nat (winning_trades r)) / inject_Z (Z.of_nat (length closed)) * 100)%Q
  end.

(** [BacktestResults.total_pnl]: [sum(t.pnl for t in self.trades)] *)
Definition total_pnl (r : BacktestResults) : Q :=
  fold_left Qplus (pnl <$> trades r) 0%Q.

(** [BacktestResults.total_pnl_percent] *)
Definition total_pnl_percent (r : BacktestResults) : PyResult Q :=
  q <- div (final_balance r - initial_balance r) (initial_balance r) ;;
  Ok (q * 100)%Q.

End BacktestMetrics.

(** ** conditions/base.py: groups and sequences *)

From stdpp Require Import pretty.

Module Groups.
Import Candles Py Conditions.

(** [str.upper] on ASCII text (the modes are 'all' and 'any'). *)
Definition upper_ascii (a : Ascii.ascii) : Ascii.ascii :=
  let n := Ascii.nat_of_ascii a in
  if (97 <=? n) && (n <=? 122) then Ascii.ascii_of_nat (n - 32) else a.

Fixpoint upper (s : string) : string :=
  match s with
  | EmptyString => EmptyString
  | String a s' => String (upper_ascii a) (upper s')
  end.

(** [sep.join(l)] *)
Fixpoint join (sep : string) (l : list string) : string :=
  match l with
  | [] => ""
  | [x] => x
  | x :: l' => x +:+ sep +:+ join sep l'
  end.

Section Groups.
Context {Ctx : Type}.

(** [ConditionGroup.__init__]: the name. *)
Definition group_name (conditions : list (Condition Ctx)) (mode : string) : string :=
  upper mode +:+ "(" +:+ join ", " (name <$> conditions) +:+ ")".

(** [ConditionGroup.evaluate].  [failed[0]] and [passed[0]] are the first
    false and the first true result; there is one exactly when
    [any(...)] holds. *)
Definition group_evaluate (conditions : list (Condition Ctx)) (mode : string)
    (candles : Table) (context : Ctx) : EvaluationResult :=
  let results := (fun c => evaluate c candles context) <$> conditions in
  let self_name := group_name conditions mode in
  if bool_decide (mode = "all") then
    if forallb is_true results then
      {| result := TRUE; condition_name := self_name;
         details := "All conditions met"; values := [] |}
    else
      match List.find is_false results with
      | Some failed0 =>
          {| result := FALSE; condition_name := self_name;
             details := "Failed: " +:+ condition_name failed0; values := [] |}
      | None =>
          {| result := NEUTRAL; condition_name := self_name;
             details := "Some conditions neutral"; values := [] |}
      end
  else
    match List.find is_true results with
    | Some passed0 =>
        {| result := TRUE; condition_name := self_name;
           details := "Passed: " +:+ condition_name passed0; values := [] |}
    | None =>
        if forallb is_false results then
          {| result := FALSE; condition_name := self_name;
             details := "All conditions failed"; values := [] |}
        else
          {| result := NEUTRAL; condition_name := self_name;
             details := "No condition met yet"; values := [] |}
    end.

(** [ConditionGroup(conditions, mode)] as a condition. *)
Definition ConditionGroup (conditions : list (Condition Ctx)) (mode : string)
  : Condition Ctx :=
  Concrete (group_name conditions mode) (group_evaluate conditions mode).

(** *** SequenceCondition *)

(** The constructor arguments of a [SequenceCondition]; its conditions
    are conditions without state of their own. *)
Record SequenceCondition := mkSequence {
  seq_conditions : list (Condition Ctx);
  max_bars_between : Z
}.

(** The two attributes that [evaluate] updates. *)
Record SeqState := mkSeqState {
  current_step : nat;
  last_step_bar : Z
}.

(** The state [__init__] and [reset] set. *)
Definition seq_reset : SeqState := {| current_step := 0; last_step_bar := (-1)%Z |}.

Definition seq_name (self : SequenceCondition) : string :=
  "SEQ(" +:+ join " -> " (name <$> seq_conditions self) +:+ ")".

(** [SequenceCondition.evaluate]: the state it leaves and what it
    returns; [self.conditions[self.current_step]] raises on an index out
    of range. *)
Definition seq_evaluate (self : SequenceCondition) (st : SeqState)
    (candles : Table) (context : Ctx) : SeqState * PyResult EvaluationResult :=
  let current_bar := (Z.of_nat (len candles) - 1)%Z in
  let st1 :=
    if (0 <=? last_step_bar st)%Z
       && (max_bars_between self <? current_bar - last_step_bar st)%Z
    then seq_reset else st in
  match seq_conditions self !! current_step st1 with
  | None => (st1, Raise IndexError)
  | Some current_condition =>
      let r := evaluate current_condition candles context in
      if is_true r then
        let st2 := {| current_step := current_step st1 + 1;
                      last_step_bar := current_bar |} in
        if length (seq_conditions self) <=? current_step st2 then
          (seq_reset,
           Ok {| result := TRUE; condition_name := seq_name self;
                 details := "Sequence complete"; values := [] |})
        else
          (st2,
           Ok {| result := NEUTRAL; condition_name := seq_name self;
                 details := "Step " +:+ pretty (current_step st2) +:+ "/" +:+
                            pretty (length (seq_conditions self)) +:+ " complete";
                 values := [] |})
      else
        (st1,
         Ok {| result := NEUTRAL; condition_name := seq_name self;
               details := "Waiting for step " +:+ pretty (current_step st1 + 1);
               values := [] |})
  end.

(** Successive calls of [evaluate] on one object, from the state [st]:
    the outcomes, in order. *)
Fixpoint seq_run (self : SequenceCondition) (st : SeqState)
    (inputs : list (Table * Ctx)) : list (PyResult EvaluationResult) :=
  match inputs with
  | [] => []
  | (candles, context) :: rest =>
      let '(st', o) := seq_evaluate self st candles context in
      o :: seq_run self st' rest
  end.
End Groups.

End Groups.

(** ** conditions/pattern_conditions.py: BOSOccurred and MSBOccurred *)

Module PatternConditions.
Import Candles Swings Breaks BreakQueries Conditions.

(** [BreakType.value] *)
Definition break_type_value (t : BreakType) : string :=
  match t with
  | BOS_BULLISH => "bos_bullish"
  | BOS_BEARISH => "bos_bearish"
  | MSB_BULLISH => "msb_bullish"
  | MSB_BEARISH => "msb_bearish"
  end.

(** The attributes of a [BOSOccurred] or [MSBOccurred] that [evaluate]
    reads; the lookback is an integer. *)
Record Occurred := mkOccurred {
  oc_direction : option string;
  oc_lookback : Z;
  oc_name : string
}.

(** [if self.direction]: a string that is not empty. *)
Definition direction_set (direction : option string) : bool :=
  match direction with
  | Some d => negb (bool_decide (d = ""))
  | None => false
  end.

(** [str(self.direction)] *)
Definition direction_str (direction : option string) : string :=
  match direction with Some d => d | None => "None" end.

(** [BOSOccurred.__init__], [MSBOccurred.__init__] *)
Definition default_name (prefix : string) (direction : option string)
    (name : option string) : string :=
  match name with
  | Some n => n
  | None => prefix +:+ (if direction_set direction then direction_str direction else "any")
  end.

Definition BOSOccurred (direction : option string) (lookback : Z) (name : option string)
  : Occurred :=
  {| oc_direction := direction; oc_lookback := lookback;
     oc_name := default_name "bos_" direction name |}.

Definition MSBOccurred (direction : option string) (lookback : Z) (name : option string)
  : Occurred :=
  {| oc_direction := direction; oc_lookback := lookback;
     oc_name := default_name "msb_" direction name |}.

(** The body the two [evaluate] methods share, on the breaks of their
    detector: [label] is "BOS" or "MSB", [bullish] and [bearish] the two
    break types of the detector. *)
Definition occurred_evaluate (label : string) (bullish bearish : BreakType)
    (breaks : list StructureBreak) (self : Occurred) (candles : Table)
  : EvaluationResult :=
  match breaks with
  | [] =>
      {| result := FALSE; condition_name := oc_name self;
         details := "No " +:+ label +:+ " detected"; values := [] |}
  | _ =>
      let current_bar := (Z.of_nat (len candles) - 1)%Z in
      let recent_breaks :=
        filter (fun b => (current_bar - Z.of_nat (break_index b) <= oc_lookback self)%Z)
          breaks in
      match recent_breaks with
      | [] =>
          {| result := FALSE; condition_name := oc_name self;
             details := "No " +:+ label +:+ " in last " +:+ pretty (oc_lookback self)
                        +:+ " bars";
             values := [] |}
      | _ =>
          let recent_breaks :=
            if direction_set (oc_direction self) then
              if bool_decide (oc_direction self = Some "bullish")
              then filter (fun b => break_type b = bullish) recent_breaks
              else filter (fun b => break_type b = bearish) recent_breaks
            else recent_breaks in
          match last recent_breaks with
          | Some latest =>
              {| result := TRUE; condition_name := oc_name self;
                 details := break_type_value (break_type latest) +:+ " at bar " +:+
                            pretty (break_index latest);
                 values := [("break_type", VStr (break_type_value (break_type latest)));
                            ("break_price", VNum (break_price latest))] |}
          | None =>
              {| result := FALSE; condition_name := oc_name self;
                 details := "No " +:+ direction_str (oc_direction self) +:+ " " +:+ label
                            +:+ " found";
                 values := [] |}
          end
      end
  end.

(** [BOSOccurred.evaluate], [MSBOccurred.evaluate]; the detectors are
    [BOSDetector()] and [MSBDetector()]. *)
Definition BOSOccurred_evaluate (self : Occurred) (candles : Table) : EvaluationResult :=
  occurred_evaluate "BOS" BOS_BULLISH BOS_BEARISH (detect_bos DETECTOR_DEFAULT candles)
    self candles.

Definition MSBOccurred_evaluate (self : Occurred) (candles : Table) : EvaluationResult :=
  occurred_evaluate "MSB" MSB_BULLISH MSB_BEARISH (detect_msb DETECTOR_DEFAULT candles)
    self candles.

End PatternConditions.

(** ** conditions/price_conditions.py *)

Module PriceConditions.
Import Candles Py Py.Notations Conditions.

(** The price source, one of the five numeric columns. *)
Inductive Source := SRC_OPEN | SRC_HIGH | SRC_LOW | SRC_CLOSE | SRC_VOLUME.

(** [row[source]] *)
Definition column (s : Source) (b : Bar) : Q :=
  match s with
  | SRC_OPEN => open b
  | SRC_HIGH => high b
  | SRC_LOW => low b
  | SRC_CLOSE => close b
  | SRC_VOLUME => volume b
  end.

(** [candles[source].iloc[-1]] and [candles[source].iloc[-2]]; they
    raise on an index out of bounds. *)
Definition iloc_last (s : Source) (c : Table) : PyResult Q :=
  match last (bars c) with
  | Some b => Ok (column s b)
  | None => Raise IndexError
  end.

Definition iloc_last_but_one (s : Source) (c : Table) : PyResult Q :=
  if len c <? 2 then Raise IndexError
  else match bars c !! (len c - 2) with
       | Some b => Ok (column s b)
       | None => Raise IndexError
       end.

(** What the keyword arguments [**context] hold under a name: a number
    or a series of numbers; an absent name and [None] are the same to
    [context.get]. *)
Inductive CtxValue := CNum (q : Q) | CSeries (l : list Q).
Definition Context := gmap string CtxValue.

(** A level: a static price, the name of an indicator of the context, or
    a callable. *)
Inductive Level :=
| LNum (q : Q)
| LKey (k : string)
| LCall (f : Table -> Context -> PyResult Q).

Inductive Resolved := Missing (k : string) | Target (t : Q).

(** "Resolve level", the block the conditions on a level share. *)
Definition resolve (level : Level) (candles : Table) (context : Context)
  : PyResult Resolved :=
  match level with
  | LCall f => t <- f candles context ;; Ok (Target t)
  | LKey k =>
      match context !! k with
      | None => Ok (Missing k)
      | Some (CNum q) => Ok (Target q)
      | Some (CSeries l) =>
          match last l with
          | Some q => Ok (Target q)
          | None => Raise IndexError
          end
      end
  | LNum q => Ok (Target q)
  end.

(** The attributes of a condition on a price and a level; the name is
    the one given or the one [__init__] computes. *)
Record OnLevel := mkOnLevel {
  ol_level : Level;
  ol_source : Source;
  ol_name : string
}.

(** The attributes of [CandleDirection] and [ConsecutiveCandles];
    [cd_direction] is [direction.lower()], as [__init__] stores it, and
    the count is not negative. *)
Record OnCandles := mkOnCandles {
  cd_direction : string;
  cd_count : nat;
  cd_name : string
}.

Section Formatting.
(** [format(x, '.4f')], Python's formatting of a float with four
    decimals. *)
Variable fmt4 : Q -> string.

(** [PriceAbove.evaluate] *)
Definition PriceAbove_evaluate (self : OnLevel) (candles : Table) (context : Context)
  : PyResult EvaluationResult :=
  price <- iloc_last (ol_source self) candles ;;
  r <- resolve (ol_level self) candles context ;;
  match r with
  | Missing k =>
      Ok {| result := NEUTRAL; condition_name := ol_name self;
            details := "Indicator " +:+ k +:+ " not in context"; values := [] |}
  | Target target =>
      if Num.gtb price target then
        Ok {| result := TRUE; condition_name := ol_name self;
              details := fmt4 price +:+ " > " +:+ fmt4 target;
              values := [("price", VNum price); ("level", VNum target)] |}
      else
        Ok {| result := FALSE; condition_name := ol_name self;
              details := fmt4 price +:+ " <= " +:+ fmt4 target;
              values := [("price", VNum price); ("level", VNum target)] |}
  end.

(** [PriceBelow.evaluate] *)
Definition PriceBelow_evaluate (self : OnLevel) (candles : Table) (context : Context)
  : PyResult EvaluationResult :=
  price <- iloc_last (ol_source self) candles ;;
  r <- resolve (ol_level self) candles context ;;
  match r with
  | Missing k =>
      Ok {| result := NEUTRAL; condition_name := ol_name self;
            details := "Indicator " +:+ k +:+ " not in context"; values := [] |}
  | Target target =>
      if Num.ltb price target then
        Ok {| result := TRUE; condition_name := ol_name self;
              details := fmt4 price +:+ " < " +:+ fmt4 target;
              values := [("price", VNum price); ("level", VNum target)] |}
      else
        Ok {| result := FALSE; condition_name := ol_name self;
              details := fmt4 price +:+ " >= " +:+ fmt4 target;
              values := [("price", VNum price); ("level", VNum target)] |}
  end.

(** [PriceCrossedAbove.evaluate] *)
Definition PriceCrossedAbove_evaluate (self : OnLevel) (candles : Table) (context : Context)
  : PyResult EvaluationResult :=
  if len candles <? 2 then
    Ok {| result := NEUTRAL; condition_name := ol_name self;
          details := "Need at least 2 bars"; values := [] |}
  else
    current_price <- iloc_last (ol_source self) candles ;;
    prev_price <- iloc_last_but_one (ol_source self) candles ;;
    r <- resolve (ol_level self) candles context ;;
    match r with
    | Missing k =>
        Ok {| result := NEUTRAL; condition_name := ol_name self;
              details := "Level " +:+ k +:+ " not in context"; values := [] |}
    | Target target =>
        if Num.leb prev_price target && Num.gtb current_price target then
          Ok {| result := TRUE; condition_name := ol_name self;
                details := "Crossed above " +:+ fmt4 target;
                values := [("current", VNum current_price); ("prev", VNum prev_price);
                           ("level", VNum target)] |}
        else
          Ok {| result := FALSE; condition_name := ol_name self;
                details := "No crossover (prev=" +:+ fmt4 prev_price +:+ ", curr=" +:+
                           fmt4 current_price +:+ ", level=" +:+ fmt4 target +:+ ")";
                values := [("current", VNum current_price); ("prev", VNum prev_price);
                           ("level", VNum target)] |}
    end.

(** [PriceCrossedBelow.evaluate] *)
Definition PriceCrossedBelow_evaluate (self : OnLevel) (candles : Table) (context : Context)
  : PyResult EvaluationResult :=
  if len candles <? 2 then
    Ok {| result := NEUTRAL; condition_name := ol_name self;
          details := "Need at least 2 bars"; values := [] |}
  else
    current_price <- iloc_last (ol_source self) candles ;;
    prev_price <- iloc_last_but_one (ol_source self) candles ;;
    r <- resolve (ol_level self) candles context ;;
    match r with
    | Missing k =>
        Ok {| result := NEUTRAL; condition_name := ol_name self;
              details := "Level " +:+ k +:+ " not in context"; values := [] |}
    | Target target =>
        if Num.geb prev_price target && Num.ltb current_price target then
          Ok {| result := TRUE; condition_name := ol_name self;
                details := "Crossed below " +:+ fmt4 target;
                values := [("current", VNum current_price); ("prev", VNum prev_price);
                           ("level", VNum target)] |}
        else
          Ok {| result := FALSE; condition_name := ol_name self;
                details := "No crossunder";
                values := [("current", VNum current_price); ("prev", VNum prev_price);
                           ("level", VNum target)] |}
    end.

(** [CandleDirection.evaluate] *)
Definition CandleDirection_evaluate (self : OnCandles) (candles : Table)
  : PyResult EvaluationResult :=
  open_price <- iloc_last SRC_OPEN candles ;;
  close_price <- iloc_last SRC_CLOSE candles ;;
  let is_bullish := Num.gtb close_price open_price in
  let is_bearish := Num.ltb close_price open_price in
  if bool_decide (cd_direction self = "bullish") && is_bullish then
    Ok {| result := TRUE; condition_name := cd_name self;
          details := "Bullish candle (o=" +:+ fmt4 open_price +:+ ", c=" +:+
                     fmt4 close_price +:+ ")";
          values := [] |}
  else if bool_decide (cd_direction self = "bearish") && is_bearish then
    Ok {| result := TRUE; condition_name := cd_name self;
          details := "Bearish candle (o=" +:+ fmt4 open_price +:+ ", c=" +:+
                     fmt4 close_price +:+ ")";
          values := [] |}
  else
    Ok {| result := FALSE; condition_name := cd_name self;
          details := "Wrong candle direction"; values := [] |}.
End Formatting.

(** [candles[...].iloc[-count:]]: the last [count] rows, and the whole
    table when [count] is 0. *)
Definition iloc_tail (count : nat) (c : Table) : list Bar :=
  if count =? 0 then bars c else drop (len c - count) (bars c).

(** [ConsecutiveCandles.evaluate] *)
Definition ConsecutiveCandles_evaluate (self : OnCandles) (candles : Table)
  : EvaluationResult :=
  if len candles <? cd_count self then
    {| result := NEUTRAL; condition_name := cd_name self;
       details := "Need at least " +:+ pretty (cd_count self) +:+ " candles";
       values := [] |}
  else
    let rows := iloc_tail (cd_count self) candles in
    let all_match :=
      if bool_decide (cd_direction self = "bullish")
      then forallb (fun b => Num.gtb (close b) (open b)) rows
      else forallb (fun b => Num.ltb (close b) (open b)) rows in
    if all_match then
      {| result := TRUE; condition_name := cd_name self;
         details := pretty (cd_count self) +:+ " consecutive " +:+ cd_direction self
                    +:+ " candles";
         values := [] |}
    else
      {| result := FALSE; condition_name := cd_name self;
         details := "Not " +:+ pretty (cd_count self) +:+ " consecutive " +:+
                    cd_direction self;
         values := [] |}.

End PriceConditions.

(** ** False breakouts (patterns/false_breakout.py) *)

Module FalseBreakouts.
Import Candles Swings Py Py.Notations.

Inductive FBType := FB_ABOVE | FB_BELOW.

#[global] Instance FBType_eq_dec : EqDecision FBType.
Proof. solve_decision. Defined.

Record FalseBreakout := mkFB {
  fb_type : FBType;
  level_price : Q;
  break_index : nat;
  break_high : option Q;
  break_low : option Q;
  reversal_index : option nat;
  reversal_close : option Q;
  wick_size : Q;
  volume_spike : bool;
  fb_timestamp : option Time
}.

(** [FalseBreakoutDetector]: the attributes set by [__init__].  The swing
    detector is given by its [use_close]; bar counts and indices are
    natural numbers. *)
Record FalseBreakoutDetector := mkFBDetector {
  max_break_bars : nat;
  min_wick_atr_mult : Q;
  require_volume_spike : bool;
  volume_spike_mult : Q;
  swing_detector : bool
}.

(** [FalseBreakoutDetector()] *)
Definition FB_DETECTOR_DEFAULT : FalseBreakoutDetector :=
  {| max_break_bars := 3; min_wick_atr_mult := 3 # 10;
     require_volume_spike := false; volume_spike_mult := 15 # 10;
     swing_detector := true |}.

(** [Series.mean()] of a window with rows. *)
Definition mean (l : list Q) : Q :=
  (fold_left Qplus l 0 / inject_Z (Z.of_nat (length l)))%Q.

(** [max(series)] and [min(series)]: the first of the largest (smallest)
    values; ValueError on an empty series. *)
Definition py_max (x : Q) (l : list Q) : Q :=
  fold_left (fun m y => if Num.gtb y m then y else m) l x.
Definition max_of (l : list Q) : PyResult Q :=
  match l with [] => Raise ValueError | x :: l' => Ok (py_max x l') end.

(** *** The average true range *)

(** The row-wise maximum of [tr1], [tr2], [tr3]; [close.shift(1)] has no
    value on the first row, where [max(axis=1)] is [tr1] alone. *)
Definition true_range (prev_close : Q) (b : Bar) : Q :=
  let tr1 := (high b - low b)%Q in
  let tr2 := Num.abs (high b - prev_close) in
  let tr3 := Num.abs (low b - prev_close) in
  py_max tr1 [tr2; tr3].

Fixpoint true_ranges_from (prev_close : Q) (bs : list Bar) : list Q :=
  match bs with
  | [] => []
  | b :: bs' => true_range prev_close b :: true_ranges_from (close b) bs'
  end.

Definition true_ranges (bs : list Bar) : list Q :=
  match bs with
  | [] => []
  | b0 :: bs' => (high b0 - low b0)%Q :: true_ranges_from (close b0) bs'
  end.

(** [ewm(span=period, adjust=False).mean()]: the first value is the
    first observation, every later one weighs the new observation with
    [alpha = 2 / (span + 1)]. *)
Fixpoint ewm_from (alpha y : Q) (xs : list Q) : list Q :=
  match xs with
  | [] => []
  | x :: xs' => let y' := ((1 - alpha) * y + alpha * x)%Q in
                y' :: ewm_from alpha y' xs'
  end.

Definition ewm_mean (span : nat) (xs : list Q) : PyResult (list Q) :=
  if span <? 1 then Raise ValueError
  else
    let alpha := (2 / (inject_Z (Z.of_nat span) + 1))%Q in
    Ok match xs with
       | [] => []
       | x0 :: xs' => x0 :: ewm_from alpha x0 xs'
       end.

(** [FalseBreakoutDetector._calculate_atr] *)
Definition _calculate_atr (c : Table) (period : nat) : PyResult (list Q) :=
  ewm_mean period (true_ranges (bars c)).

Section Detector.
Variable self : FalseBreakoutDetector.
Variable c : Table.

(** The [period] of [_check_volume_spike]: no caller passes it. *)
Definition volume_period : nat := 20.

(** [FalseBreakoutDetector._check_volume_spike] *)
Definition _check_volume_spike (idx : nat) : PyResult bool :=
  if idx <? volume_period then Ok false
  else
    let avg_vol :=
      mean (volume <$> take volume_period (drop (idx - volume_period) (bars c))) in
    match bars c !! idx with
    | None => Raise IndexError
    | Some b => Ok (Num.geb (volume b) (avg_vol * volume_spike_mult self))
    end.

(** [atr.iloc[i] * self.min_wick_atr_mult if i < len(atr) else 0] *)
Definition min_wick_at (atr : list Q) (i : nat) : Q :=
  match atr !! i with
  | Some a => (a * min_wick_atr_mult self)%Q
  | None => 0%Q
  end.

(** [pd.to_datetime(candles['timestamp'].iloc[i])] if the table has the
    column. *)
Definition stamp (b : Bar) : option Time :=
  if has_timestamp c then Some (to_datetime (timestamp b)) else None.

(** The tail shared by the four places that report a false breakout: the
    wick must reach [min_wick], and the volume must have spiked if the
    detector requires it; [report vol_spike] is the record returned. *)
Definition confirm (atr : list Q) (i : nat) (wick : Q)
    (report : bool -> FalseBreakout) : PyResult (option FalseBreakout) :=
  if Num.geb wick (min_wick_at atr i) then
    vol_spike <- _check_volume_spike i ;;
    if negb (require_volume_spike self) || vol_spike
    then Ok (Some (report vol_spike))
    else Ok None
  else Ok None.

(** [for j in range(i + 1, min(i + self.max_break_bars + 1, len(candles)))]
    up to the first row whose close is back at the level. *)
Fixpoint first_close (back : Bar -> bool) (j : nat) (rows : list Bar)
  : option (nat * Bar) :=
  match rows with
  | [] => None
  | bj :: rows' => if back bj then Some (j, bj) else first_close back (S j) rows'
  end.

Definition reversal_rows (i : nat) : list Bar :=
  take (max_break_bars self) (drop (i + 1) (bars c)).

(** [candles[...].iloc[i:j+1]] *)
Definition rows_between (i j : nat) : list Bar :=
  take (j + 1 - i) (drop i (bars c)).

(** The body of the loop of [_detect_fb_above] at row [i]: the record
    returned there, or [None] when the loop goes on. *)
Definition above_at (atr : list Q) (level : Q) (i : nat) (b : Bar)
  : PyResult (option FalseBreakout) :=
  if Num.gtb (high b) level && Num.leb (close b) level then
    let wick := (high b - level)%Q in
    confirm atr i wick
      (fun vol_spike =>
         {| fb_type := FB_ABOVE; level_price := level; break_index := i;
            break_high := Some (high b); break_low := None;
            reversal_index := Some i; reversal_close := Some (close b);
            wick_size := wick; volume_spike := vol_spike;
            fb_timestamp := stamp b |})
  else if Num.gtb (high b) level then
    match first_close (fun bj => Num.leb (close bj) level) (i + 1) (reversal_rows i) with
    | Some (j, bj) =>
        top <- max_of (high <$> rows_between i j) ;;
        let wick := (top - level)%Q in
        confirm atr i wick
          (fun vol_spike =>
             {| fb_type := FB_ABOVE; level_price := level; break_index := i;
                break_high := Some top; break_low := None;
                reversal_index := Some j; reversal_close := Some (close bj);
                wick_size := wick; volume_spike := vol_spike;
                fb_timestamp := stamp b |})
    | None => Ok None
    end
  else Ok None.


(** [for i in range(...)] over the rows, up to the first row at which
    the body returns. *)
Fixpoint scan (body : nat -> Bar -> PyResult (option FalseBreakout))
    (i : nat) (rows : list Bar) : PyResult (option FalseBreakout) :=
  match rows with
  | [] => Ok None
  | b :: rows' =>
      r <- body i b ;;
      match r with
      | Some fb => Ok (Some fb)
      | None => scan body (S i) rows'
      end
  end.

(** The rows [range(start_idx + 1, len(candles) - 1)]. *)
Definition break_rows (start_idx : nat) : list Bar :=
  drop (start_idx + 1) (take (len c - 1) (bars c)).

(** [FalseBreakoutDetector._detect_fb_above] *)
Definition _detect_fb_above (level : Q) (start_idx : nat) (atr : list Q)
  : PyResult (option FalseBreakout) :=
  scan (above_at atr level) (start_idx + 1) (break_rows start_idx).




End Detector.

End FalseBreakouts.
(* ===================================================================== *)
(** * Part II: properties                                                  *)
(* ===================================================================== *)

(** ** Comparisons *)

Module NumFacts.

Lemma leb_le a b : Num.leb a b = true <-> (a <= b)%Q.
Proof. apply Qle_bool_iff. Qed.

Lemma ltb_lt a b : Num.ltb a b = true <-> (a < b)%Q.
Proof.
  unfold Num.ltb. rewrite negb_true_iff, <- not_true_iff_false, Qle_bool_iff.
  split; [apply Qnot_le_lt | apply Qlt_not_le].
Qed.

Lemma gtb_gt a b : Num.gtb a b = true <-> (b < a)%Q.
Proof. apply ltb_lt. Qed.

Lemma geb_ge a b : Num.geb a b = true <-> (b <= a)%Q.
Proof. apply leb_le. Qed.

Lemma leb_nle a b : Num.leb a b = false <-> ~ (a <= b)%Q.
Proof. rewrite <- leb_le. symmetry. apply not_true_iff_false. Qed.

Lemma geb_nge a b : Num.geb a b = false <-> ~ (b <= a)%Q.
Proof. apply leb_nle. Qed.

End NumFacts.

(** ** Rounding *)

Module Float64Facts.
Import Float64.
#[local] Open Scope Z_scope.

Lemma rne_cases q :
  let f := Qfloor q in
  (q - inject_Z f < 1 # 2 /\ rne q = f)%Q \/
  ((1 # 2) < q - inject_Z f /\ rne q = (f + 1)%Z)%Q \/
  (q - inject_Z f == 1 # 2 /\ (rne q = f \/ rne q = (f + 1)%Z))%Q.
Proof.
  cbv zeta. unfold rne.
  destruct (Qcompare_spec (q - inject_Z (Qfloor q)) (1 # 2)) as [H|H|H].
  - right; right. split; [exact H|]. destruct (Z.even _); auto.
  - left. auto.
  - right; left. auto.
Qed.

Lemma floor_bounds q : (inject_Z (Qfloor q) <= q /\ q < inject_Z (Qfloor q) + 1)%Q.
Proof.
  split; [apply Qfloor_le|].
  pose proof (Qlt_floor q) as H. rewrite inject_Z_plus in H. exact H.
Qed.

Lemma rne_bounds q : (q - (1 # 2) <= inject_Z (rne q) /\ inject_Z (rne q) <= q + (1 # 2))%Q.
Proof.
  destruct (floor_bounds q) as [H1 H2].
  destruct (rne_cases q) as [[H ->] | [[H ->] | [H [-> | ->]]]];
    rewrite ?inject_Z_plus; change (inject_Z 1) with 1%Q; lra.
Qed.

Lemma rne_mono q1 q2 : (q1 <= q2)%Q -> (rne q1 <= rne q2)%Z.
Proof.
  intros Hle.
  pose proof (Qfloor_resp_le _ _ Hle) as Hf.
  destruct (floor_bounds q1) as [A1 A2]. destruct (floor_bounds q2) as [B1 B2].
  destruct (Z.eq_dec (Qfloor q1) (Qfloor q2)) as [E|E].
  - unfold rne. rewrite <- E. rewrite <- E in B1, B2.
    destruct (Qcompare_spec (q1 - inject_Z (Qfloor q1)) (1 # 2)) as [G|G|G];
      destruct (Qcompare_spec (q2 - inject_Z (Qfloor q1)) (1 # 2)) as [G'|G'|G'];
      try (exfalso; lra); try lia; destruct (Z.even (Qfloor q1)); lia.
  - assert (Hlt : (Qfloor q1 + 1 <= Qfloor q2)%Z) by lia.
    assert (R1 : (rne q1 <= Qfloor q1 + 1)%Z).
    { destruct (rne_cases q1) as [[H ->] | [[H ->] | [H [-> | ->]]]]; lia. }
    assert (R2 : (Qfloor q2 <= rne q2)%Z).
    { destruct (rne_cases q2) as [[H ->] | [[H ->] | [H [-> | ->]]]]; lia. }
    lia.
Qed.

Lemma rne_inject_Z n : rne (inject_Z n) = n.
Proof.
  unfold rne. rewrite Qfloor_Z.
  destruct (Qcompare_spec (inject_Z n - inject_Z n) (1 # 2)) as [H|H|H];
    [exfalso; lra | reflexivity | exfalso; lra].
Qed.

Lemma rne_comp q q' : (q == q')%Q -> rne q = rne q'.
Proof.
  intros E. unfold rne. rewrite (Qfloor_comp _ _ E).
  assert (E' : (q - inject_Z (Qfloor q') == q' - inject_Z (Qfloor q'))%Q) by (rewrite E; reflexivity).
  now rewrite (Qcompare_comp _ _ E' _ _ (Qeq_refl (1 # 2))).
Qed.


Lemma unit_exp_nonneg a : (0 <= unit_exp a)%Z.
Proof. apply Z.le_max_l. Qed.

Lemma unit_exp_mono a b : (a <= b)%Z -> (unit_exp a <= unit_exp b)%Z.
Proof. intros H. unfold unit_exp. pose proof (Z.log2_le_mono a b H). lia. Qed.

Lemma unit_pos a : (0 < 2 ^ unit_exp a)%Z.
Proof. apply Z.pow_pos_nonneg; [lia | apply unit_exp_nonneg]. Qed.

(** A number with integer part [a] is below [2 ^ (53 + unit_exp a)]. *)
Lemma unit_exp_upper a : (0 <= a)%Z -> (a + 1 <= 2 ^ (53 + unit_exp a))%Z.
Proof.
  intros Ha. destruct (Z.eq_dec a 0) as [->|Hne].
  - change (unit_exp 0) with 0%Z. cbn. lia.
  - destruct (Z.log2_spec a ltac:(lia)) as [_ Hlt].
    assert (Hle : (Z.succ (Z.log2 a) <= 53 + unit_exp a)%Z) by (unfold unit_exp; lia).
    pose proof (Z.pow_le_mono_r 2 _ _ ltac:(lia) Hle). lia.
Qed.

(** Above the finest unit, it is at least [2 ^ (52 + unit_exp a)]. *)
Lemma unit_exp_lower a : (1 <= unit_exp a)%Z -> (2 ^ (52 + unit_exp a) <= a)%Z.
Proof.
  intros He. unfold unit_exp in *.
  assert (Hl : (53 <= Z.log2 a)%Z) by lia.
  assert (Ha : (0 < a)%Z).
  { destruct (Z.lt_ge_cases 0 a) as [H|H]; [exact H|].
    rewrite (Z.log2_nonpos a H) in Hl. lia. }
  destruct (Z.log2_spec a Ha) as [Hle _].
  replace (52 + Z.max 0 (Z.log2 a - 52))%Z with (Z.log2 a) by lia. exact Hle.
Qed.

Lemma inject_unit_pos a : (0 < inject_Z (2 ^ unit_exp a))%Q.
Proof. change 0%Q with (inject_Z 0). rewrite <- Zlt_Qlt. apply unit_pos. Qed.

Lemma inject_Z_le a b : (a <= b)%Z -> (inject_Z a <= inject_Z b)%Q.
Proof. now rewrite Zle_Qle. Qed.

Lemma inject_Z_le_inv a b : (inject_Z a <= inject_Z b)%Q -> (a <= b)%Z.
Proof. now rewrite Zle_Qle. Qed.

(** Bounds of [rne] by integers. *)
Lemma rne_le_Z q n : (q <= inject_Z n)%Q -> (rne q <= n)%Z.
Proof. intros H. rewrite <- (rne_inject_Z n). now apply rne_mono. Qed.

Lemma rne_ge_Z q n : (inject_Z n <= q)%Q -> (n <= rne q)%Z.
Proof. intros H. rewrite <- (rne_inject_Z n). now apply rne_mono. Qed.

Lemma round_pos_nonneg q : (0 <= q)%Q -> (0 <= round_pos q)%Z.
Proof.
  intros Hq. unfold round_pos. apply Z.mul_nonneg_nonneg; [|pose proof (unit_pos (Qfloor q)); lia].
  apply rne_ge_Z. change (inject_Z 0) with 0%Q.
  apply Qle_shift_div_l; [apply inject_unit_pos|]. lra.
Qed.

Lemma round_pos_upper q :
  (0 <= q)%Q -> (round_pos q <= 2 ^ (53 + unit_exp (Qfloor q)))%Z.
Proof.
  intros Hq. unfold round_pos. set (e := unit_exp (Qfloor q)).
  assert (Ha : (0 <= Qfloor q)%Z).
  { change 0%Z with (Qfloor 0). now apply Qfloor_resp_le. }
  pose proof (unit_exp_upper _ Ha) as Hu. fold e in Hu.
  pose proof (unit_exp_nonneg (Qfloor q)) as He. fold e in He.
  rewrite Z.pow_add_r by lia.
  apply Z.mul_le_mono_nonneg_r; [pose proof (unit_pos (Qfloor q)); fold e in H; lia|].
  apply rne_le_Z. apply Qle_shift_div_r; [apply inject_unit_pos|].
  rewrite <- inject_Z_mult, <- Z.pow_add_r by lia.
  destruct (floor_bounds q) as [_ Hlt].
  apply Qlt_le_weak. eapply Qlt_le_trans; [exact Hlt|].
  change 1%Q with (inject_Z 1). rewrite <- inject_Z_plus. now apply inject_Z_le.
Qed.

Lemma round_pos_lower q :
  (1 <= unit_exp (Qfloor q))%Z -> (2 ^ (52 + unit_exp (Qfloor q)) <= round_pos q)%Z.
Proof.
  intros He. unfold round_pos. set (e := unit_exp (Qfloor q)) in *.
  pose proof (unit_exp_lower _ He) as Hl. fold e in Hl.
  rewrite Z.pow_add_r by lia.
  apply Z.mul_le_mono_nonneg_r; [pose proof (unit_pos (Qfloor q)); fold e in H; lia|].
  apply rne_ge_Z. apply Qle_shift_div_l; [apply inject_unit_pos|].
  rewrite <- inject_Z_mult, <- Z.pow_add_r by lia.
  destruct (floor_bounds q) as [Hle _].
  eapply Qle_trans; [|exact Hle]. now apply inject_Z_le.
Qed.

(** The error of a rounding is at most half a unit. *)
Lemma round_pos_error q :
  let u := inject_Z (2 ^ unit_exp (Qfloor q)) in
  (q - u / 2 <= inject_Z (round_pos q) /\ inject_Z (round_pos q) <= q + u / 2)%Q.
Proof.
  cbv zeta. unfold round_pos. set (u := (2 ^ unit_exp (Qfloor q))%Z).
  assert (Hu : (0 < inject_Z u)%Q) by apply inject_unit_pos.
  destruct (rne_bounds (q / inject_Z u)) as [H1 H2].
  rewrite inject_Z_mult.
  assert (Hne : ~ (inject_Z u == 0)%Q) by (intros E; rewrite E in Hu; lra).
  split.
  - apply (Qmult_le_compat_r _ _ (inject_Z u)) in H1; [|lra].
    setoid_replace (q - inject_Z u / 2)%Q
      with ((q / inject_Z u - (1 # 2)) * inject_Z u)%Q using relation Qeq
      by (field; exact Hne).
    exact H1.
  - apply (Qmult_le_compat_r _ _ (inject_Z u)) in H2; [|lra].
    setoid_replace (q + inject_Z u / 2)%Q
      with ((q / inject_Z u + (1 # 2)) * inject_Z u)%Q using relation Qeq
      by (field; exact Hne).
    exact H2.
Qed.

Lemma round_pos_mono q1 q2 :
  (0 <= q1)%Q -> (q1 <= q2)%Q -> (round_pos q1 <= round_pos q2)%Z.
Proof.
  intros H0 Hle.
  pose proof (Qfloor_resp_le _ _ Hle) as Hf.
  pose proof (unit_exp_mono _ _ Hf) as He.
  destruct (Z.eq_dec (unit_exp (Qfloor q1)) (unit_exp (Qfloor q2))) as [E|E].
  - unfold round_pos. rewrite E.
    apply Z.mul_le_mono_nonneg_r; [pose proof (unit_pos (Qfloor q2)); lia|].
    apply rne_mono. apply Qmult_le_compat_r; [exact Hle|].
    apply Qlt_le_weak, Qinv_lt_0_compat, inject_unit_pos.
  - pose proof (unit_exp_nonneg (Qfloor q1)) as Hn.
    assert (H1 : (1 <= unit_exp (Qfloor q2))%Z) by lia.
    pose proof (round_pos_lower q2 H1) as Hlow.
    pose proof (round_pos_upper q1 H0) as Hup.
    assert (Hp : (2 ^ (53 + unit_exp (Qfloor q1)) <= 2 ^ (52 + unit_exp (Qfloor q2)))%Z)
      by (apply Z.pow_le_mono_r; lia).
    lia.
Qed.

Lemma round_pos_comp q q' : (q == q')%Q -> round_pos q = round_pos q'.
Proof.
  intros E. unfold round_pos. rewrite (Qfloor_comp _ _ E).
  f_equal. apply rne_comp. now rewrite E.
Qed.

Lemma round53_comp q q' : (q == q')%Q -> round53 q = round53 q'.
Proof.
  intros E. unfold round53.
  assert (Hb : Qle_bool 0 q = Qle_bool 0 q').
  { apply eq_true_iff_eq. rewrite !Qle_bool_iff. now rewrite E. }
  rewrite Hb. destruct (Qle_bool 0 q'); [now apply round_pos_comp|].
  f_equal. apply round_pos_comp. now rewrite E.
Qed.

Lemma round53_mono q1 q2 : (q1 <= q2)%Q -> (round53 q1 <= round53 q2)%Z.
Proof.
  intros Hle. unfold round53.
  destruct (Qle_bool 0 q1) eqn:E1, (Qle_bool 0 q2) eqn:E2.
  - apply Qle_bool_iff in E1. now apply round_pos_mono.
  - apply Qle_bool_iff in E1.
    assert (H2 : ~ (0 <= q2)%Q) by (rewrite <- Qle_bool_iff; congruence).
    exfalso. apply H2. lra.
  - apply Qle_bool_iff in E2.
    assert (H1 : ~ (0 <= q1)%Q) by (rewrite <- Qle_bool_iff; congruence).
    pose proof (round_pos_nonneg q2 E2).
    pose proof (round_pos_nonneg (- q1) ltac:(lra)). lia.
  - assert (H1 : ~ (0 <= q1)%Q) by (rewrite <- Qle_bool_iff; congruence).
    assert (H2 : ~ (0 <= q2)%Q) by (rewrite <- Qle_bool_iff; congruence).
    pose proof (round_pos_mono (- q2) (- q1) ltac:(lra) ltac:(lra)). lia.
Qed.

(** A multiple of its own unit is left as it is. *)
Lemma round_pos_exact n k :
  (0 <= n)%Z -> n = (k * 2 ^ unit_exp n)%Z -> round_pos (inject_Z n) = n.
Proof.
  intros Hn Hk. unfold round_pos. rewrite Qfloor_Z.
  assert (E : (inject_Z n / inject_Z (2 ^ unit_exp n) == inject_Z k)%Q).
  { rewrite Hk at 1. rewrite inject_Z_mult. field.
    pose proof (inject_unit_pos n). intros E. rewrite E in H. lra. }
  rewrite (rne_comp _ _ E), rne_inject_Z. now symmetry.
Qed.

Lemma round53_small n : (Z.abs n < 2 ^ 53)%Z -> round53 (inject_Z n) = n.
Proof.
  intros Hn.
  assert (Hu : forall m, (0 <= m < 2 ^ 53)%Z -> unit_exp m = 0%Z).
  { intros m Hm. unfold unit_exp. destruct (Z.eq_dec m 0) as [->|Hne]; [reflexivity|].
    assert (Z.log2 m < 53)%Z by (apply Z.log2_lt_pow2; lia). lia. }
  unfold round53. destruct (Qle_bool 0 (inject_Z n)) eqn:E.
  - apply Qle_bool_iff in E. change 0%Q with (inject_Z 0) in E. apply inject_Z_le_inv in E.
    apply (round_pos_exact n n); [exact E|]. rewrite Hu by lia. lia.
  - assert (H : ~ (0 <= inject_Z n)%Q) by (rewrite <- Qle_bool_iff; congruence).
    assert (Hneg : (n < 0)%Z).
    { destruct (Z.lt_ge_cases n 0) as [G|G]; [exact G|].
      exfalso. apply H. change 0%Q with (inject_Z 0). now apply inject_Z_le. }
    rewrite (round_pos_comp _ (inject_Z (- n))) by (rewrite inject_Z_opp; reflexivity).
    rewrite (round_pos_exact (- n) (- n)); [lia | lia |]. rewrite Hu by lia. lia.
Qed.


Lemma round53_nonneg q : (0 <= q)%Q -> round53 q = round_pos q.
Proof. intros H. unfold round53. apply Qle_bool_iff in H. now rewrite H. Qed.

(** Rounding a difference and taking at most three quarters of it, rounded
    again, does not exceed the difference. *)
Lemma round53_part (N : Z) (k : Q) :
  (0 <= N)%Z -> (0 <= k)%Q -> (k <= 3 # 4)%Q ->
  (round53 (inject_Z (round53 (inject_Z N)) * k) <= N)%Z.
Proof.
  intros HN Hk0 Hk.
  assert (HNq : (0 <= inject_Z N)%Q) by (change 0%Q with (inject_Z 0); now apply inject_Z_le).
  rewrite (round53_nonneg (inject_Z N) HNq).
  set (D := round_pos (inject_Z N)).
  assert (HD : (0 <= inject_Z D)%Q).
  { change 0%Q with (inject_Z 0). apply inject_Z_le. now apply round_pos_nonneg. }
  assert (Hz0 : (0 <= inject_Z D * k)%Q) by (apply Qmult_le_0_compat; assumption).
  destruct (Z_lt_le_dec (unit_exp N) 1) as [He|He].
  - assert (E0 : unit_exp N = 0%Z) by (pose proof (unit_exp_nonneg N); lia).
    assert (ED : D = N).
    { unfold D. apply (round_pos_exact N N); [exact HN|]. rewrite E0. lia. }
    rewrite ED in *. rewrite <- (round_pos_exact N N HN) at 2 by (rewrite E0; lia).
    rewrite <- (round53_nonneg (inject_Z N) HNq).
    apply round53_mono.
    setoid_replace (inject_Z N) with (inject_Z N * 1)%Q using relation Qeq at 2 by ring.
    rewrite (Qmult_comm (inject_Z N) k), (Qmult_comm (inject_Z N) 1).
    apply Qmult_le_compat_r; [lra | exact HNq].
  - rewrite (round53_nonneg _ Hz0).
    pose proof (unit_exp_lower N He) as Hlow.
    destruct (round_pos_error (inject_Z N)) as [_ Herr]. fold D in Herr.
    rewrite Qfloor_Z in Herr.
    set (e := unit_exp N) in *. set (U := inject_Z (2 ^ e)) in *.
    assert (HU : (0 < U)%Q) by apply inject_unit_pos.
    assert (HlowQ : (inject_Z (2 ^ 52) * U <= inject_Z N)%Q).
    { unfold U. rewrite <- inject_Z_mult, <- Z.pow_add_r by lia. now apply inject_Z_le. }
    change (inject_Z (2 ^ 52)) with (4503599627370496 # 1)%Q in HlowQ.
    unfold Qdiv in Herr. change (/ 2)%Q with (1 # 2)%Q in Herr.
    assert (Hz : (inject_Z D * k <= (3 # 4) * inject_Z D)%Q).
    { rewrite (Qmult_comm (inject_Z D) k). apply Qmult_le_compat_r; assumption. }
    assert (HzN : (inject_Z D * k <= inject_Z N)%Q) by lra.
    assert (Hez : (unit_exp (Qfloor (inject_Z D * k)) <= e)%Z).
    { apply unit_exp_mono. rewrite <- (Qfloor_Z N). now apply Qfloor_resp_le. }
    destruct (round_pos_error (inject_Z D * k)) as [_ Herr'].
    assert (HUz : (inject_Z (2 ^ unit_exp (Qfloor (inject_Z D * k))) <= U)%Q).
    { apply inject_Z_le. apply Z.pow_le_mono_r; [lia | exact Hez]. }
    apply inject_Z_le_inv.
    eapply Qle_trans; [exact Herr'|].
    unfold Qdiv. change (/ 2)%Q with (1 # 2)%Q. lra.
Qed.

(** *** Doubles as rationals *)

Lemma scale_pos : (0 < inject_Z scale)%Q.
Proof. reflexivity. Qed.

Lemma scale_neq : ~ (inject_Z scale == 0)%Q.
Proof. discriminate. Qed.

Lemma round64_mono x y : (x <= y)%Q -> (round64 x <= round64 y)%Q.
Proof.
  intros H. unfold round64.
  apply Qmult_le_compat_r; [|apply Qlt_le_weak, Qinv_lt_0_compat, scale_pos].
  apply inject_Z_le, round53_mono.
  apply Qmult_le_compat_r; [exact H | apply Qlt_le_weak, scale_pos].
Qed.

Lemma round64_comp x y : (x == y)%Q -> round64 x = round64 y.
Proof. intros E. unfold round64. rewrite (round53_comp _ (y * inject_Z scale)); [reflexivity|]. now rewrite E. Qed.

#[global] Instance round64_proper : Proper (Qeq ==> Qeq) round64.
Proof. intros x y E. now rewrite (round64_comp x y E). Qed.

Lemma round64_0 : (round64 0 == 0)%Q.
Proof. reflexivity. Qed.


(** A rounded number is left as it is by rounding. *)
Lemma round_pos_idem q : (0 <= q)%Q -> round_pos (inject_Z (round_pos q)) = round_pos q.
Proof.
  intros Hq. set (n := round_pos q).
  assert (Hn : 0 <= n) by now apply round_pos_nonneg.
  set (e := unit_exp (Qfloor q)).
  pose proof (unit_exp_nonneg (Qfloor q)) as He. fold e in He.
  pose proof (round_pos_upper q Hq) as Hup. fold n e in Hup.
  assert (Hdiv : n = rne (q / inject_Z (2 ^ e)) * 2 ^ e) by reflexivity.
  destruct (Z.eq_dec n (2 ^ (53 + e))) as [E|E].
  - apply (round_pos_exact n (2 ^ 52)); [exact Hn|].
    assert (Hu : unit_exp n = e + 1).
    { unfold unit_exp. rewrite E, Z.log2_pow2 by lia. lia. }
    rewrite Hu, <- Z.pow_add_r by lia. rewrite E. f_equal. lia.
  - assert (Hle : unit_exp n <= e).
    { unfold unit_exp. destruct (Z.eq_dec n 0) as [->|Hn0]; [cbn; lia|].
      assert (Z.log2 n < 53 + e) by (apply Z.log2_lt_pow2; lia). lia. }
    pose proof (unit_exp_nonneg n) as Hn'.
    apply (round_pos_exact n (rne (q / inject_Z (2 ^ e)) * 2 ^ (e - unit_exp n))); [exact Hn|].
    rewrite <- Z.mul_assoc, <- Z.pow_add_r by lia.
    replace (e - unit_exp n + unit_exp n) with e by lia. exact Hdiv.
Qed.

Lemma round53_neg q : ~ (0 <= q)%Q -> round53 q = - round_pos (- q).
Proof.
  intros H. unfold round53.
  destruct (Qle_bool 0 q) eqn:E; [|reflexivity].
  apply Qle_bool_iff in E. contradiction.
Qed.

Lemma round53_idem q : round53 (inject_Z (round53 q)) = round53 q.
Proof.
  destruct (Qlt_le_dec q 0) as [Hq|Hq].
  - assert (Hn : ~ (0 <= q)%Q) by (intros G; lra).
    rewrite (round53_neg q Hn).
    pose proof (round_pos_nonneg (- q) ltac:(lra)) as Hp.
    destruct (Z.eq_dec (round_pos (- q)) 0) as [E0|E0]; [rewrite E0; reflexivity|].
    rewrite round53_neg.
    + f_equal.
      rewrite (round_pos_comp _ (inject_Z (round_pos (- q))))
        by (rewrite inject_Z_opp; ring).
      apply round_pos_idem. lra.
    + change 0%Q with (inject_Z 0). intros G. apply inject_Z_le_inv in G. lia.
  - rewrite (round53_nonneg q Hq).
    rewrite round53_nonneg
      by (change 0%Q with (inject_Z 0); apply inject_Z_le; now apply round_pos_nonneg).
    now apply round_pos_idem.
Qed.

(** [x] is a double: rounding leaves it as it is. *)
Definition exact (x : Q) : Prop := (round64 x == x)%Q.

(** [x] is a finite double. *)
Definition is_double (x : Q) : Prop := exact x /\ (Qabs x <= max_double)%Q.

Lemma exact_scaled x : exact x -> (x * inject_Z scale == inject_Z (round53 (x * inject_Z scale)))%Q.
Proof.
  unfold exact, round64. intros E.
  setoid_replace (x * inject_Z scale)%Q
    with (inject_Z (round53 (x * inject_Z scale)) / inject_Z scale * inject_Z scale)%Q
    using relation Qeq at 1 by (now rewrite E).
  field. apply scale_neq.
Qed.

Lemma round64_exact_le x y : exact y -> (x <= y)%Q -> (round64 x <= y)%Q.
Proof.
  intros E H. apply Qle_trans with (round64 y); [now apply round64_mono|].
  unfold exact in E. rewrite E. apply Qle_refl.
Qed.

Lemma round64_exact_ge x y : exact x -> (x <= y)%Q -> (x <= round64 y)%Q.
Proof.
  intros E H. apply Qle_trans with (round64 x); [|now apply round64_mono].
  unfold exact in E. rewrite E. apply Qle_refl.
Qed.

Lemma round64_nonneg x : (0 <= x)%Q -> (0 <= round64 x)%Q.
Proof.
  intros H. apply Qle_trans with (round64 0); [|now apply round64_mono].
  rewrite round64_0. apply Qle_refl.
Qed.

(** The difference of two doubles, rounded, and at most three quarters
    of it, rounded again, is at most the difference. *)
Lemma round64_part l h k :
  exact l -> exact h -> (l <= h)%Q -> (0 <= k)%Q -> (k <= 3 # 4)%Q ->
  (round64 (round64 (h - l) * k) <= h - l)%Q.
Proof.
  intros El Eh Hlh Hk0 Hk.
  pose proof (exact_scaled l El) as Sl. pose proof (exact_scaled h Eh) as Sh.
  set (nl := round53 (l * inject_Z scale)) in *.
  set (nh := round53 (h * inject_Z scale)) in *.
  assert (HN : (0 <= nh - nl)%Z).
  { assert (H : (inject_Z nl <= inject_Z nh)%Q).
    { rewrite <- Sl, <- Sh. apply Qmult_le_compat_r; [exact Hlh | apply Qlt_le_weak, scale_pos]. }
    apply inject_Z_le_inv in H. lia. }
  assert (Ed : ((h - l) * inject_Z scale == inject_Z (nh - nl))%Q).
  { unfold Zminus. rewrite inject_Z_plus, inject_Z_opp, <- Sl, <- Sh. ring. }
  unfold round64 at 2. rewrite (round53_comp _ _ Ed).
  set (D := round53 (inject_Z (nh - nl))).
  unfold round64.
  assert (Ez : (inject_Z D / inject_Z scale * k * inject_Z scale == inject_Z D * k)%Q).
  { field. apply scale_neq. }
  rewrite (round53_comp _ _ Ez).
  pose proof (round53_part (nh - nl) k HN Hk0 Hk) as HM. fold D in HM.
  apply inject_Z_le in HM.
  apply Qle_shift_div_r; [apply scale_pos|]. rewrite Ed. exact HM.
Qed.

End Float64Facts.

(** ** Fibonacci levels of a range *)

Module FibSpec.
Import Ranges Float64 Float64Facts.

(** None of the operations behind the levels and the midpoint of [R]
    rounds: each result is a double as it stands (for the sum
    [high + low], the only one that can exceed [high], this includes that
    it is in range). *)
Definition unrounded (R : Range) : Prop :=
  let l := r_low R in
  let d := (r_high R - r_low R)%Q in
  exact d /\
  exact (d * (1 # 4)) /\ exact (d * (1 # 2)) /\ exact (d * (3 # 4)) /\
  exact (l + d * (1 # 4)) /\ exact (l + d * (1 # 2)) /\ exact (l + d * (3 # 4)) /\
  is_double (r_high R + r_low R) /\ exact ((r_high R + r_low R) / 2).

Lemma levels_unrounded (R : Range) :
  unrounded R ->
  let d := (r_high R - r_low R)%Q in
  (fib_25 (fib R) == r_low R + d * (1 # 4))%Q /\
  (fib_50 (fib R) == r_low R + d * (1 # 2))%Q /\
  (fib_75 (fib R) == r_low R + d * (3 # 4))%Q /\
  (midpoint R == (r_high R + r_low R) / 2)%Q.
Proof.
  intros (Ed & E1 & E2 & E3 & F1 & F2 & F3 & [Es _] & Em). cbv zeta.
  unfold fib_25, fib_50, fib_75, midpoint, fib, add, sub, mul, div, exact in *.
  cbn [range_low range_high].
  rewrite !Ed, E1, E2, E3, F1, F2, F3, Es, Em. repeat split; reflexivity.
Qed.

(** C8, as the code has it.  The levels are computed on doubles.  For a
    range whose low and high are finite doubles with [low < high], the
    difference [high - low] being in the range of the doubles, the levels
    are in order, [low <= fib_25 <= fib_50 <= fib_75 <= high].  When none
    of the operations rounds, the order is strict and [fib_50] is
    [(high + low) / 2], which is also what [Range.midpoint] computes. *)
Theorem fib_levels_ordered (R : Range) :
  is_double (r_low R) -> is_double (r_high R) ->
  (r_low R < r_high R)%Q ->
  (r_high R - r_low R <= max_double)%Q ->
  ((r_low R <= fib_25 (fib R))%Q /\
   (fib_25 (fib R) <= fib_50 (fib R))%Q /\
   (fib_50 (fib R) <= fib_75 (fib R))%Q /\
   (fib_75 (fib R) <= r_high R)%Q) /\
  (unrounded R ->
   (r_low R < fib_25 (fib R))%Q /\
   (fib_25 (fib R) < fib_50 (fib R))%Q /\
   (fib_50 (fib R) < fib_75 (fib R))%Q /\
   (fib_75 (fib R) < r_high R)%Q /\
   (fib_50 (fib R) == (r_high R + r_low R) / 2)%Q /\
   (fib_50 (fib R) == midpoint R)%Q).
Proof.
  intros [El _] [Eh _] Hlt _. split.
  - unfold fib_25, fib_50, fib_75, fib, add, sub, mul. cbn [range_low range_high].
    set (l := r_low R) in *. set (h := r_high R) in *.
    set (d := round64 (h - l)).
    assert (Hd : (0 <= d)%Q) by (apply round64_nonneg; lra).
    assert (Hm : forall k k', (0 <= k)%Q -> (k <= k')%Q ->
                   (0 <= round64 (d * k) /\ round64 (d * k) <= round64 (d * k'))%Q).
    { intros k k' Hk Hkk'. split.
      - apply round64_nonneg. now apply Qmult_le_0_compat.
      - apply round64_mono. rewrite !(Qmult_comm d).
        now apply Qmult_le_compat_r. }
    destruct (Hm (1 # 4) (1 # 2))%Q as [H1 H12]; [lra | lra |].
    destruct (Hm (1 # 2) (3 # 4))%Q as [_ H23]; [lra | lra |].
    split; [apply round64_exact_ge; [exact El | lra]|].
    split; [apply round64_mono; lra|].
    split; [apply round64_mono; lra|].
    apply round64_exact_le; [exact Eh|].
    pose proof (round64_part l h (3 # 4) El Eh) as Hp. fold d in Hp.
    specialize (Hp ltac:(lra) ltac:(lra) ltac:(lra)). lra.
  - intros Hu. destruct (levels_unrounded R Hu) as (E1 & E2 & E3 & Em).
    cbv zeta in *. rewrite E1, E2, E3, Em.
    repeat split; try lra; field.
Qed.

(** The range [100, 120] of the spec's scenario 2. *)
Definition range_100_120 : Range :=
  {| r_high := 120; r_low := 100; start_index := 0; end_index := None;
     high_touches := 4; low_touches := 4; status := CONFIRMED;
     high_swing := None; low_swing := None |}.

Lemma range_100_120_unrounded : unrounded range_100_120.
Proof.
  unfold unrounded, is_double, exact. cbv zeta.
  repeat split; try (vm_compute; reflexivity). vm_compute; discriminate.
Qed.

Lemma fib_levels_ordered_witness :
  is_double 100 /\ is_double 120 /\ unrounded range_100_120 /\
  (fib_75 (fib range_100_120) <= 120)%Q /\
  (fib_50 (fib range_100_120) == midpoint range_100_120)%Q.
Proof.
  assert (H1 : is_double (r_low range_100_120)).
  { split; [vm_compute; reflexivity | vm_compute; discriminate]. }
  assert (H2 : is_double (r_high range_100_120)).
  { split; [vm_compute; reflexivity | vm_compute; discriminate]. }
  assert (H3 : (r_low range_100_120 < r_high range_100_120)%Q) by reflexivity.
  assert (H4 : (r_high range_100_120 - r_low range_100_120 <= max_double)%Q)
    by (vm_compute; discriminate).
  pose proof (fib_levels_ordered range_100_120 H1 H2 H3 H4) as [Hw Hs].
  split; [exact H1|]. split; [exact H2|]. split; [exact range_100_120_unrounded|].
  split; [apply Hw | apply (Hs range_100_120_unrounded)].
Defined.

(** Two neighbouring doubles, 1 and 1 + 2^-52, and the prices 8.8 and
    42.21 as doubles. *)
Definition range_one_ulp : Range :=
  {| r_high := (2 ^ 52 + 1) # (2 ^ 52); r_low := 1; start_index := 0; end_index := None;
     high_touches := 0; low_touches := 0; status := FORMING;
     high_swing := None; low_swing := None |}.

Definition range_8_42 : Range :=
  {| r_high := round64 (4221 # 100); r_low := round64 (88 # 10);
     start_index := 0; end_index := None;
     high_touches := 0; low_touches := 0; status := FORMING;
     high_swing := None; low_swing := None |}.

(** C8 as stated fails on doubles.  Between 1 and the next double the
    levels collapse: [fib_25] and [fib_50] are the low, [fib_75] is the
    high.  For the range from 8.8 to 42.21, [fib_50] is 25.505 and differs
    in the last bit from [(high + low) / 2], whether the latter is taken
    exactly or as [Range.midpoint] computes it (25.505000000000003). *)
Lemma fib_levels_collapse_on_doubles :
  (is_double (r_low range_one_ulp) /\ is_double (r_high range_one_ulp) /\
   (r_low range_one_ulp < r_high range_one_ulp)%Q /\
   ~ (r_low range_one_ulp < fib_25 (fib range_one_ulp))%Q /\
   ~ (fib_25 (fib range_one_ulp) < fib_50 (fib range_one_ulp))%Q /\
   ~ (fib_75 (fib range_one_ulp) < r_high range_one_ulp)%Q) /\
  (is_double (r_low range_8_42) /\ is_double (r_high range_8_42) /\
   (r_low range_8_42 < r_high range_8_42)%Q /\
   (fib_50 (fib range_8_42) == round64 (25505 # 1000))%Q /\
   (midpoint range_8_42 == round64 (25505000000000003 # 1000000000000000))%Q /\
   ~ (fib_50 (fib range_8_42) == (r_high range_8_42 + r_low range_8_42) / 2)%Q /\
   ~ (fib_50 (fib range_8_42) == midpoint range_8_42)%Q).
Proof.
  assert (Hd : forall x, Qeq_bool (round64 x) x = true -> Qle_bool (Qabs x) max_double = true ->
                         is_double x).
  { intros x H1 H2. split; [now apply Qeq_bool_eq | now apply Qle_bool_iff]. }
  split.
  - split; [apply Hd; vm_compute; reflexivity|].
    split; [apply Hd; vm_compute; reflexivity|].
    split; [reflexivity|].
    repeat split; apply Qle_not_lt, Qle_bool_iff; vm_compute; reflexivity.
  - split; [apply Hd; vm_compute; reflexivity|].
    split; [apply Hd; vm_compute; reflexivity|].
    split; [apply Qlt_alt; vm_compute; reflexivity|].
    split; [apply Qeq_bool_eq; vm_compute; reflexivity|].
    split; [apply Qeq_bool_eq; vm_compute; reflexivity|].
    split; apply Qeq_bool_neq; vm_compute; reflexivity.
Qed.

End FibSpec.

(** ** The three-valued combinators *)

Module ConditionsSpec.
Import Candles Conditions.

Section Combinators.
Context {Ctx : Type}.
Implicit Types (c : Condition Ctx) (candles : Table) (context : Ctx).

Local Abbreviation res c candles context := (result (evaluate c candles context)).

Lemma and_result c1 c2 candles context :
  res (AndCondition c1 c2) candles context =
    match res c1 candles context, res c2 candles context with
    | FALSE, _ | _, FALSE => FALSE
    | TRUE, TRUE => TRUE
    | _, _ => NEUTRAL
    end.
Proof.
  simpl. unfold is_false, is_true.
  destruct (res c1 candles context), (res c2 candles context); reflexivity.
Qed.

Lemma or_result c1 c2 candles context :
  res (OrCondition c1 c2) candles context =
    match res c1 candles context, res c2 candles context with
    | TRUE, _ | _, TRUE => TRUE
    | FALSE, FALSE => FALSE
    | _, _ => NEUTRAL
    end.
Proof.
  simpl. unfold is_false, is_true.
  destruct (res c1 candles context), (res c2 candles context); reflexivity.
Qed.

Lemma not_result c candles context :
  res (NotCondition c) candles context =
    match res c candles context with
    | TRUE => FALSE
    | FALSE => TRUE
    | NEUTRAL => NEUTRAL
    end.
Proof.
  simpl. unfold is_false, is_true.
  destruct (res c candles context); reflexivity.
Qed.

(** C7.  [AndCondition] is True iff both operands are True, False iff
    either is False, Neutral in the remaining cases; [OrCondition] is
    True iff either operand is True, False iff both are False, Neutral
    in the remaining cases; [NotCondition] swaps True and False and
    keeps Neutral. *)
Theorem combinators_three_valued c1 c2 candles context :
  let r1 := result (evaluate c1 candles context) in
  let r2 := result (evaluate c2 candles context) in
  let r_and := result (evaluate (AndCondition c1 c2) candles context) in
  let r_or := result (evaluate (OrCondition c1 c2) candles context) in
  let r_not := result (evaluate (NotCondition c1) candles context) in
  (r_and = TRUE <-> r1 = TRUE /\ r2 = TRUE) /\
  (r_and = FALSE <-> r1 = FALSE \/ r2 = FALSE) /\
  (r_and = NEUTRAL <-> ~ (r1 = TRUE /\ r2 = TRUE) /\ ~ (r1 = FALSE \/ r2 = FALSE)) /\
  (r_or = TRUE <-> r1 = TRUE \/ r2 = TRUE) /\
  (r_or = FALSE <-> r1 = FALSE /\ r2 = FALSE) /\
  (r_or = NEUTRAL <-> ~ (r1 = TRUE \/ r2 = TRUE) /\ ~ (r1 = FALSE /\ r2 = FALSE)) /\
  (r_not = FALSE <-> r1 = TRUE) /\
  (r_not = TRUE <-> r1 = FALSE) /\
  (r_not = NEUTRAL <-> r1 = NEUTRAL).
Proof.
  intros r1 r2 r_and r_or r_not. subst r_and r_or r_not.
  rewrite and_result, or_result, not_result.
  fold r1 r2. destruct r1, r2; intuition congruence.
Qed.

(** "Report the first false": the details of a failed conjunction are
    those of the first operand that is False. *)
Lemma and_reports_first_false c1 c2 candles context :
  res (AndCondition c1 c2) candles context = FALSE ->
  details (evaluate (AndCondition c1 c2) candles context) =
    "Failed: " +:+
    (if is_false (evaluate c1 candles context)
     then details (evaluate c1 candles context)
     else details (evaluate c2 candles context)).
Proof.
  simpl. unfold is_false, is_true.
  destruct (res c1 candles context), (res c2 candles context);
    simpl; congruence.
Qed.
End Combinators.

End ConditionsSpec.

(** ** The backtest driver *)

Module BacktestSpec.
Import Candles Py Backtest.

(** The trade [t], open in [st], is closed in [st'] at price [px] on bar
    [i] for [reason]: it is appended to the ledger with these exit fields
    and no trade is open any more. *)
Definition closed_with (st st' : Loop) (t : BacktestTrade) (i : nat) (px : Q)
    (reason : TradeStatus) : Prop :=
  exists t', l_trades st' = l_trades st ++ [t'] /\
             trade_id t' = trade_id t /\
             exit_price t' = Some px /\
             exit_bar t' = Some i /\
             exit_reason t' = Some reason /\
             current_trade st' = None.

Lemma div_ok a b : ~ (b == 0)%Q -> div a b = Ok (a / b)%Q.
Proof.
  intros H. unfold div. destruct (Qeq_bool b 0) eqn:E; [|reflexivity].
  apply Qeq_bool_iff in E. contradiction.
Qed.

Lemma r_multiple_of_ok t p :
  ((0 < risk_amount t)%Q -> ~ (risk_amount t * position_size t == 0)%Q) ->
  exists r, r_multiple_of t p = Ok r.
Proof.
  intros H. unfold r_multiple_of. destruct (Num.gtb _ _) eqn:E; [|eauto].
  apply NumFacts.gtb_gt in E. rewrite div_ok by auto. eauto.
Qed.

(** What [exit_step] does once [_check_exit] has named a price and a
    reason: the trade goes to the ledger with them; the commission is
    taken off the profit. *)
Lemma exit_step_closes self i ts b st t px reason :
  current_trade st = Some t ->
  _check_exit t (high b) (low b) (close b) = Some (px, reason) ->
  ~ (e_initial_balance self == 0)%Q ->
  ((0 < risk_amount t)%Q -> ~ (risk_amount t * position_size t == 0)%Q) ->
  exists st' t',
    exit_step self i ts b st = Ok st' /\
    l_trades st' = l_trades st ++ [t'] /\
    trade_id t' = trade_id t /\
    exit_price t' = Some px /\ exit_bar t' = Some i /\
    exit_time t' = Some ts /\ exit_reason t' = Some reason /\
    current_trade st' = None /\
    pnl t' = (gross_pnl t px - Num.abs (gross_pnl t px) * (commission_pct self / 100))%Q /\
    balance st' = (balance st + pnl t')%Q.
Proof.
  intros Ht Hc Hb Hr. unfold exit_step. rewrite Ht, Hc.
  destruct (r_multiple_of_ok t
              (gross_pnl t px - Num.abs (gross_pnl t px) * (commission_pct self / 100))%Q Hr)
    as [r Er].
  rewrite Er. simpl. rewrite div_ok by assumption. simpl.
  eexists _, _. split; [reflexivity|]. simpl. repeat split; reflexivity.
Qed.

Lemma exit_step_no_exit self i ts b st t :
  current_trade st = Some t ->
  _check_exit t (high b) (low b) (close b) = None ->
  exit_step self i ts b st = Ok st.
Proof. intros Ht Hc. unfold exit_step. now rewrite Ht, Hc. Qed.

(** C2.  For an open trade and a bar: if the bar touches the stop loss
    and the take profit, the driver closes the trade at the stop-loss price
    with reason SL; if it touches exactly one of the two levels, the trade
    is closed at that level; if it touches neither, nothing changes.  A Long
    touches its stop when [low <= SL] and its target when [high >= TP]; a
    Short touches its stop when [high >= SL] and its target when
    [low <= TP].  (The divisors of the closing arithmetic, the initial
    balance and, when [risk_amount > 0], [risk_amount * position_size], are
    taken non-zero, so that the step returns.) *)
Theorem sl_first_rule self i ts (b : Bar) (st : Loop) (t : BacktestTrade) :
  current_trade st = Some t ->
  ~ (e_initial_balance self == 0)%Q ->
  ((0 < risk_amount t)%Q -> ~ (risk_amount t * position_size t == 0)%Q) ->
  let sl_touched := match signal_type t with
                    | LONG => (low b <= stop_loss t)%Q
                    | SHORT => (stop_loss t <= high b)%Q
                    end in
  let tp_touched := match signal_type t with
                    | LONG => (take_profit t <= high b)%Q
                    | SHORT => (low b <= take_profit t)%Q
                    end in
  exists st',
    exit_step self i ts b st = Ok st' /\
    (sl_touched /\ tp_touched -> closed_with st st' t i (stop_loss t) CLOSED_SL) /\
    (sl_touched /\ ~ tp_touched -> closed_with st st' t i (stop_loss t) CLOSED_SL) /\
    (~ sl_touched /\ tp_touched -> closed_with st st' t i (take_profit t) CLOSED_TP) /\
    (~ sl_touched /\ ~ tp_touched -> st' = st).
Proof.
  intros Ht Hb Hr sl_touched tp_touched.
  destruct (_check_exit t (high b) (low b) (close b)) as [[px reason]|] eqn:Hc.
  - destruct (exit_step_closes self i ts b st t px reason Ht Hc Hb Hr)
      as (st' & t' & E & H1 & H2 & H3 & H4 & _ & H5 & H6 & _).
    exists st'. split; [exact E|].
    assert (Hcw : closed_with st st' t i px reason)
      by (exists t'; repeat split; assumption).
    unfold _check_exit in Hc. subst sl_touched tp_touched.
    destruct (signal_type t).
    + destruct (Num.leb (low b) (stop_loss t)) eqn:E1.
      * apply NumFacts.leb_le in E1. injection Hc as <- <-. tauto.
      * apply NumFacts.leb_nle in E1.
        destruct (Num.geb (high b) (take_profit t)) eqn:E2; [|discriminate].
        apply NumFacts.geb_ge in E2. injection Hc as <- <-. tauto.
    + destruct (Num.geb (high b) (stop_loss t)) eqn:E1.
      * apply NumFacts.geb_ge in E1. injection Hc as <- <-. tauto.
      * apply NumFacts.geb_nge in E1.
        destruct (Num.leb (low b) (take_profit t)) eqn:E2; [|discriminate].
        apply NumFacts.leb_le in E2. injection Hc as <- <-. tauto.
  - exists st. split; [now apply exit_step_no_exit with t|].
    unfold _check_exit in Hc. subst sl_touched tp_touched.
    destruct (signal_type t).
    + destruct (Num.leb (low b) (stop_loss t)) eqn:E1; [discriminate|].
      destruct (Num.geb (high b) (take_profit t)) eqn:E2; [discriminate|].
      apply NumFacts.leb_nle in E1. apply NumFacts.geb_nge in E2. tauto.
    + destruct (Num.geb (high b) (stop_loss t)) eqn:E1; [discriminate|].
      destruct (Num.leb (low b) (take_profit t)) eqn:E2; [discriminate|].
      apply NumFacts.geb_nge in E1. apply NumFacts.leb_nle in E2. tauto.
Qed.

(** The spec's scenario 5: a Long with entry 100, stop 99, target 102, and
    a bar with low 98 and high 103. *)
Definition long_100 : BacktestTrade :=
  {| trade_id := 1; system_name := "s"; signal_type := LONG;
     entry_time := 0%Z; entry_price := 100; entry_bar := 50;
     exit_time := None; exit_price := None; exit_bar := None; exit_reason := None;
     stop_loss := 99; take_profit := 102; position_size := 1; risk_amount := 1;
     pnl := 0; pnl_percent := 0; r_multiple := 0 |}.

Definition bar_98_103 : Bar :=
  {| timestamp := 0%Z; datetime := 0%Z; open := 100; high := 103; low := 98;
     close := 101; volume := 1 |}.

Definition engine_10000 : BacktestEngine :=
  {| e_initial_balance := 10000; commission_pct := 0; slippage_pct := 0 |}.

Definition holding_long_100 : Loop :=
  {| l_trades := []; balance := 10000; l_peak_balance := 10000;
     l_max_drawdown := 0; l_trade_id := 1; current_trade := Some long_100 |}.

Lemma sl_first_rule_witness :
  exists st',
    exit_step engine_10000 51 0%Z bar_98_103 holding_long_100 = Ok st' /\
    closed_with holding_long_100 st' long_100 51 99 CLOSED_SL.
Proof.
  assert (H1 : ~ (e_initial_balance engine_10000 == 0)%Q) by discriminate.
  assert (H2 : (0 < risk_amount long_100)%Q ->
               ~ (risk_amount long_100 * position_size long_100 == 0)%Q)
    by (intros _; discriminate).
  destruct (sl_first_rule engine_10000 51 0%Z bar_98_103 holding_long_100 long_100
              eq_refl H1 H2) as (st' & E & Hboth & _).
  exists st'. split; [exact E|].
  apply Hboth. split; discriminate.
Defined.

(** *** The run as a whole *)

(** A table of [n] identical bars followed by one last bar, and a
    generator that signals once, on the first bar the driver evaluates. *)
Definition flat_bar : Bar :=
  {| timestamp := 7%Z; datetime := 0%Z; open := 100; high := 101; low := 99;
     close := 100; volume := 1 |}.

Definition last_bar : Bar :=
  {| timestamp := 9%Z; datetime := 0%Z; open := 104; high := 106; low := 104;
     close := 105; volume := 1 |}.

Definition table_52 (with_timestamps : bool) : Table :=
  {| bars := repeat flat_bar 51 ++ [last_bar];
     has_timestamp := with_timestamps; has_datetime := false |}.

Definition long_signal : Signal :=
  {| s_signal_type := LONG; s_stop_loss := 90; s_take_profit := 110;
     s_position_size := 2; s_risk_amount := 20 |}.

Definition signal_at_51 (_ : unit) (bar_data : Table) (_ : string) (_ : Q)
  : list Signal :=
  if len bar_data =? 51 then [long_signal] else [].

Definition engine_with_commission : BacktestEngine :=
  {| e_initial_balance := 10000; commission_pct := 10; slippage_pct := 0 |}.

Definition clock_a (k : nat) : Time := Z.of_nat k.
Definition clock_b (k : nat) : Time := (1000 + Z.of_nat k)%Z.

Section Run.
Context {System : Type}.
Variable sys_name : System -> string.
Variable sys_timeframe : System -> string.
Variable generate_signals : System -> Table -> string -> Q -> list Signal.
Variable self : BacktestEngine.
Variable system : System.
Variable candles : Table.
Variable sym : string.

(** Trades closed inside the loop carry reason SL or TP. *)
Definition loop_closed (t : BacktestTrade) : Prop :=
  exit_reason t = Some CLOSED_SL \/ exit_reason t = Some CLOSED_TP.

(** The ledger holds trades closed by the loop only, and the open trade
    still has the percentage profit it was created with. *)
Definition LedgerInv (st : Loop) : Prop :=
  Forall loop_closed (l_trades st) /\
  forall t, current_trade st = Some t -> pnl_percent t = 0%Q.

Lemma check_exit_reason t h l c px reason :
  _check_exit t h l c = Some (px, reason) ->
  reason = CLOSED_SL \/ reason = CLOSED_TP.
Proof.
  unfold _check_exit.
  destruct (signal_type t); repeat case_match; intros [= <- <-]; auto.
Qed.

Lemma ledger_init_inv : LedgerInv (init self).
Proof. split; [constructor | discriminate]. Qed.

Lemma ledger_exit_step_inv i ts b st st' :
  LedgerInv st -> exit_step self i ts b st = Ok st' -> LedgerInv st'.
Proof.
  intros HI. pose proof HI as [HF _]. unfold exit_step.
  destruct (current_trade st) as [t|] eqn:Ht; [|now intros [= <-]].
  destruct (_check_exit t (high b) (low b) (close b)) as [[px reason]|] eqn:Hx;
    [|now intros [= <-]].
  destruct (r_multiple_of t _) as [r|]; [|discriminate]. simpl.
  destruct (div _ _) as [pp|]; [|discriminate]. simpl.
  intros [= <-]. split; simpl; [|discriminate].
  apply Forall_app. split; [exact HF|].
  constructor; [|constructor]. unfold loop_closed. simpl.
  destruct (check_exit_reason _ _ _ _ _ _ Hx) as [-> | ->]; auto.
Qed.

Lemma ledger_entry_step_inv i ts b st :
  LedgerInv st -> LedgerInv (entry_step sys_name generate_signals self system candles sym i ts b st).
Proof.
  intros HI. pose proof HI as [HF _]. unfold entry_step.
  destruct (current_trade st) eqn:Ht; [exact HI|].
  destruct (generate_signals _ _ _ _); [exact HI|].
  split; simpl; [exact HF|]. now intros t [= <-].
Qed.

Lemma ledger_loop_inv now bs : forall i k st st',
  LedgerInv st ->
  loop sys_name generate_signals now self system candles sym i k bs st = Ok st' ->
  LedgerInv st'.
Proof.
  induction bs as [|b bs IH]; intros i k st st' HI; simpl.
  - now intros [= <-].
  - unfold step.
    destruct (exit_step self i _ b st) as [st1|] eqn:E1; [|discriminate]. simpl.
    apply IH. apply ledger_entry_step_inv. now apply ledger_exit_step_inv in E1.
Qed.

(** C10.  If the last trade of a run carries reason EOD, then it is the
    trade [t] that was still open when the loop ended in state [st], and:
    its profit is the gross profit at the last close, with no commission
    taken off, whatever [commission_pct] is (the SL/TP branch takes it off,
    see [exit_step_closes]); that profit is added to the balance; its
    percentage profit is still 0; and the peak balance and the maximal
    drawdown of the result are those of [st]. *)
Theorem eod_close_frame now (res : BacktestResults) (t' : BacktestTrade) :
  run sys_name sys_timeframe generate_signals now self system candles sym = Ok res ->
  last (trades res) = Some t' ->
  exit_reason t' = Some CLOSED_EOD ->
  exists st t bl,
    after_loop sys_name generate_signals now self system candles sym = Ok st /\
    current_trade st = Some t /\
    last (bars candles) = Some bl /\
    trades res = l_trades st ++ [t'] /\
    exit_price t' = Some (close bl) /\
    pnl t' = gross_pnl t (close bl) /\
    final_balance res = (balance st + pnl t')%Q /\
    pnl_percent t' = 0%Q /\
    peak_balance res = l_peak_balance st /\
    max_drawdown res = l_max_drawdown st.
Proof.
  unfold run.
  destruct (date_range now candles) as [dates|]; [|discriminate]. simpl.
  destruct (after_loop _ _ _ _ _ _ _) as [st|] eqn:Eloop; [|discriminate]. simpl.
  assert (HI : LedgerInv st) by (eapply ledger_loop_inv; [apply ledger_init_inv | exact Eloop]).
  destruct HI as [HF Hc].
  unfold close_eod.
  destruct (current_trade st) as [t|] eqn:Ht in |- *.
  - destruct (last (bars candles)) as [bl|] eqn:Hbl; [|discriminate].
    destruct (r_multiple_of t _) as [r|]; [|discriminate]. simpl.
    intros [= <-]. simpl. rewrite last_snoc. intros [= <-] _.
    exists st, t, bl. simpl. rewrite (Hc t Ht). repeat split; try reflexivity; assumption.
  - simpl. intros [= <-]. simpl. intros Hl Hr. exfalso.
    apply last_Some in Hl as [l' Hl]. rewrite Hl in HF.
    apply Forall_app in HF as [_ HF]. inversion HF as [|? ? [H|H] _]; congruence.
Qed.

(** With a timestamp column no clock reading reaches the result. *)
Lemma run_clock_independent now1 now2 :
  has_timestamp candles = true ->
  run sys_name sys_timeframe generate_signals now1 self system candles sym =
  run sys_name sys_timeframe generate_signals now2 self system candles sym.
Proof.
  intros Hts.
  assert (Hstep : forall i k b st,
      step sys_name generate_signals now1 self system candles sym i k b st =
      step sys_name generate_signals now2 self system candles sym i k b st).
  { intros. unfold step, bar_timestamp_of. now rewrite Hts. }
  assert (Hloop : forall bs i k st,
      loop sys_name generate_signals now1 self system candles sym i k bs st =
      loop sys_name generate_signals now2 self system candles sym i k bs st).
  { induction bs as [|b bs IH]; intros; simpl; [reflexivity|].
    rewrite Hstep. destruct (step _ _ now2 _ _ _ _ _ _ _ _); simpl; auto. }
  unfold run, after_loop, date_range. rewrite Hts, Hloop. reflexivity.
Qed.
End Run.

Lemma eod_close_frame_witness :
  exists res t',
    run (fun _ => "s") (fun _ => "15m") signal_at_51 clock_a
        engine_with_commission tt (table_52 true) "X" = Ok res /\
    last (trades res) = Some t' /\
    exit_reason t' = Some CLOSED_EOD /\
    exists st t bl,
      after_loop (fun _ => "s") signal_at_51 clock_a
        engine_with_commission tt (table_52 true) "X" = Ok st /\
      current_trade st = Some t /\
      last (bars (table_52 true)) = Some bl /\
      pnl t' = gross_pnl t (close bl) /\
      final_balance res = (balance st + pnl t')%Q /\
      pnl_percent t' = 0%Q /\
      peak_balance res = l_peak_balance st /\
      max_drawdown res = l_max_drawdown st.
Proof.
  assert (H : exists res t',
             run (fun _ => "s") (fun _ => "15m") signal_at_51 clock_a
               engine_with_commission tt (table_52 true) "X" = Ok res /\
             last (trades res) = Some t' /\
             exit_reason t' = Some CLOSED_EOD).
  { vm_compute. eexists _, _. repeat split; reflexivity. }
  destruct H as (res & t' & Hrun & Hlast & Hreason).
  exists res, t'. repeat (split; [assumption|]).
  destruct (eod_close_frame (fun _ => "s") (fun _ => "15m") signal_at_51
              engine_with_commission tt (table_52 true) "X" clock_a res t'
              Hrun Hlast Hreason)
    as (st & t & bl & E1 & E2 & E3 & _ & _ & E6 & E7 & E8 & E9 & E10).
  exists st, t, bl. repeat split; assumption.
Defined.

(** C1 fails on a table without a timestamp column: the entry and exit
    times of the ledger are clock readings.  Two runs on the same table,
    system and parameters, under two clocks, yield ledgers that differ in
    [entry_time] and [exit_time] (and agree on the final balance). *)
Theorem run_ledger_follows_clock :
  exists r1 r2 t1 t2,
    run (fun _ => "s") (fun _ => "15m") signal_at_51 clock_a
        engine_with_commission tt (table_52 false) "X" = Ok r1 /\
    run (fun _ => "s") (fun _ => "15m") signal_at_51 clock_b
        engine_with_commission tt (table_52 false) "X" = Ok r2 /\
    trades r1 = [t1] /\ trades r2 = [t2] /\
    entry_time t1 <> entry_time t2 /\
    exit_time t1 <> exit_time t2 /\
    trades r1 <> trades r2 /\
    final_balance r1 = final_balance r2.
Proof.
  eexists _, _, _, _.
  split; [vm_compute; reflexivity|].
  split; [vm_compute; reflexivity|].
  split; [reflexivity|]. split; [reflexivity|].
  repeat split; discriminate || reflexivity.
Qed.

Lemma run_clock_independent_witness :
  run (fun _ => "s") (fun _ => "15m") signal_at_51 clock_a
      engine_with_commission tt (table_52 true) "X" =
  run (fun _ => "s") (fun _ => "15m") signal_at_51 clock_b
      engine_with_commission tt (table_52 true) "X".
Proof.
  apply (run_clock_independent (fun _ => "s") (fun _ => "15m") signal_at_51
           engine_with_commission tt (table_52 true) "X" clock_a clock_b eq_refl).
Defined.

End BacktestSpec.

(** ** The swing detector *)

Module SortingFacts.
Import Sorting.

Section ByKey.
Context {A : Type} (key : A -> nat).

(** Sorted by non-decreasing key. *)
Definition sorted (l : list A) : Prop :=
  StronglySorted (fun a b => key a <= key b) l.

Lemma insert_by_last s l :
  Forall (fun x => key x <= key s) l -> insert_by key s l = l ++ [s].
Proof.
  induction 1 as [|x l Hx _ IH]; simpl; [reflexivity|].
  destruct (key s <? key x) eqn:E.
  - apply Nat.ltb_lt in E. lia.
  - now rewrite IH.
Qed.

Lemma fold_insert_sorted l : forall acc,
  sorted (acc ++ l) ->
  fold_left (fun acc s => insert_by key s acc) l acc = acc ++ l.
Proof.
  induction l as [|s l IH]; intros acc Hs; simpl.
  - now rewrite app_nil_r.
  - rewrite insert_by_last.
    + rewrite IH; rewrite <- app_assoc; [reflexivity | exact Hs].
    + clear IH. induction acc as [|a acc IHacc]; [constructor|].
      simpl in Hs. apply StronglySorted_inv in Hs as [Hs Ha].
      constructor; [|now apply IHacc].
      rewrite Forall_app in Ha. destruct Ha as [_ Ha]. now inversion Ha.
Qed.

(** Sorting a sorted list changes nothing. *)
Lemma sort_by_sorted l : sorted l -> sort_by key l = l.
Proof. intros H. unfold sort_by. now rewrite fold_insert_sorted. Qed.

Lemma insert_by_perm s l : Permutation (insert_by key s l) (s :: l).
Proof.
  induction l as [|x l IH]; simpl; [reflexivity|].
  destruct (key s <? key x); [reflexivity|].
  rewrite IH. apply perm_swap.
Qed.

Lemma fold_insert_perm l : forall acc,
  Permutation (fold_left (fun acc s => insert_by key s acc) l acc) (acc ++ l).
Proof.
  induction l as [|s l IH]; intros acc; simpl.
  - now rewrite app_nil_r.
  - rewrite IH, insert_by_perm. simpl. apply Permutation_middle.
Qed.

Lemma sort_by_perm l : Permutation (sort_by key l) l.
Proof. apply (fold_insert_perm l []). Qed.
End ByKey.

End SortingFacts.

Module SwingsSpec.
Import Candles Swings.

(** Swing indices strictly increasing along the list. *)
Definition increasing (l : list SwingPoint) : Prop :=
  StronglySorted (fun a b => index a < index b) l.

(** The invariant of the loop of [detect_swings] when bar [i] is about to
    be processed: [m] is the bar of the last break (0 before any); both
    running extremes lie on bars from [m] to [i - 1]; every swing emitted so
    far lies before [m]; the swings are in increasing order of index. *)
Definition SwingInv (i : nat) (st : State) : Prop :=
  exists m,
    m <= c_index (highest_since_low st) /\
    m <= c_index (lowest_since_high st) /\
    c_index (highest_since_low st) < i /\
    c_index (lowest_since_high st) < i /\
    Forall (fun s => index s < m) (swings st) /\
    increasing (swings st).

Lemma increasing_snoc l s m :
  increasing l -> Forall (fun x => index x < m) l -> m <= index s ->
  increasing (l ++ [s]).
Proof.
  intros Hl Hm Hs. induction Hl as [|x l Hl IH Hx]; simpl.
  - repeat constructor.
  - inversion Hm; subst. constructor; [now apply IH|].
    apply Forall_app. split; [exact Hx|]. repeat constructor. lia.
Qed.

Lemma increasing_sorted l : increasing l -> SortingFacts.sorted index l.
Proof.
  induction 1 as [|x l Hl IH Hx]; constructor; [exact IH|].
  eapply Forall_impl; [exact Hx|]. simpl. intros. lia.
Qed.

Lemma increasing_NoDup l : increasing l -> NoDup l.
Proof.
  induction 1 as [|x l Hl IH Hx]; constructor; [|exact IH].
  intros Hin. rewrite Forall_forall in Hx. apply Hx in Hin. lia.
Qed.

Lemma swing_init_inv b0 : SwingInv 1 (init b0).
Proof. exists 0. simpl. repeat split; try lia; constructor. Qed.

Section Step.
Variable use_close : bool.
Variable c : Table.

Lemma swing_step_inv st i b : SwingInv i st -> SwingInv (S i) (step use_close c st i b).
Proof.
  intros (m & H1 & H2 & H3 & H4 & HF & HS). unfold step.
  set (hsl := if Num.gtb (high b) _ then _ else _).
  set (lsh := if Num.ltb (low b) _ then _ else _).
  assert (Hh : m <= c_index hsl <= i) by (subst hsl; case_match; simpl; lia).
  assert (Hl : m <= c_index lsh <= i) by (subst lsh; case_match; simpl; lia).
  assert (HFi : Forall (fun s => index s < i) (swings st))
    by (eapply Forall_impl; [exact HF | simpl; intros; lia]).
  destruct (Num.gtb _ (c_price (current_swing_high st))).
  - destruct (c_index lsh <? i) eqn:E; exists i; simpl; repeat split; try lia; auto.
    + apply Nat.ltb_lt in E. apply Forall_app. split; [exact HFi|].
      repeat constructor. simpl. lia.
    + apply increasing_snoc with m; simpl; auto; lia.
  - destruct (Num.ltb _ (c_price (current_swing_low st))).
    + destruct (c_index hsl <? i) eqn:E; exists i; simpl; repeat split; try lia; auto.
      * apply Nat.ltb_lt in E. apply Forall_app. split; [exact HFi|].
        repeat constructor. simpl. lia.
      * apply increasing_snoc with m; simpl; auto; lia.
    + exists m. simpl. repeat split; try lia; auto.
Qed.

(** A step only appends to the list of swings. *)
Lemma step_prefix st i b : swings st `prefix_of` swings (step use_close c st i b).
Proof.
  unfold step. repeat case_match; simplify_eq; simpl;
    solve [reflexivity | apply prefix_app_r; reflexivity].
Qed.

Lemma swing_loop_inv bs : forall i st,
  SwingInv i st -> SwingInv (i + length bs) (loop use_close c i bs st).
Proof.
  induction bs as [|b bs IH]; intros i st HI; simpl.
  - now rewrite Nat.add_0_r.
  - rewrite <- Nat.add_succ_comm. apply IH. now apply swing_step_inv.
Qed.

Lemma loop_snoc bs b : forall i st,
  loop use_close c i (bs ++ [b]) st =
  step use_close c (loop use_close c i bs st) (i + length bs) b.
Proof.
  induction bs as [|x bs IH]; intros i st; simpl.
  - now rewrite Nat.add_0_r.
  - rewrite IH. now rewrite <- Nat.add_succ_comm.
Qed.
End Step.

(** The loop reads the time column at rows up to the current one only. *)
Lemma step_ext use_close c c' st i b :
  (forall k, k <= i -> ts_at c k = ts_at c' k) ->
  SwingInv i st ->
  step use_close c st i b = step use_close c' st i b.
Proof.
  intros Hts (m & H1 & H2 & H3 & H4 & _). unfold step.
  set (hsl := if Num.gtb (high b) _ then _ else _).
  set (lsh := if Num.ltb (low b) _ then _ else _).
  assert (Hh : c_index hsl <= i) by (subst hsl; case_match; simpl; lia).
  assert (Hl : c_index lsh <= i) by (subst lsh; case_match; simpl; lia).
  rewrite (Hts i), (Hts (c_index hsl)), (Hts (c_index lsh)) by lia.
  reflexivity.
Qed.

Lemma loop_ext use_close c c' bs : forall i st,
  (forall k, k < i + length bs -> ts_at c k = ts_at c' k) ->
  SwingInv i st ->
  loop use_close c i bs st = loop use_close c' i bs st.
Proof.
  induction bs as [|b bs IH]; intros i st Hts HI; simpl; [reflexivity|].
  simpl in Hts.
  rewrite (step_ext use_close c c') by (auto; intros; apply Hts; lia).
  apply IH.
  - intros k Hk. apply Hts. lia.
  - apply swing_step_inv. exact HI.
Qed.

Lemma ts_at_append c b k : k < len c -> ts_at (append c b) k = ts_at c k.
Proof.
  intros Hk. unfold ts_at, has_timestamps, ts_col, append. simpl.
  now rewrite lookup_app_l.
Qed.

(** On a table of at least three rows the swings are those the loop
    leaves: the final sort changes nothing. *)
Lemma detect_swings_loop use_close c b0 rest :
  bars c = b0 :: rest -> 3 <= len c ->
  detect_swings use_close c = swings (loop use_close c 1 rest (init b0)).
Proof.
  intros Hb Hl. unfold detect_swings.
  destruct (len c <? 3) eqn:E; [apply Nat.ltb_lt in E; lia|].
  rewrite Hb. unfold sort_by_index. apply SortingFacts.sort_by_sorted.
  apply increasing_sorted.
  destruct (swing_loop_inv use_close c rest 1 (init b0) (swing_init_inv b0))
    as (m & _ & _ & _ & _ & _ & HS).
  exact HS.
Qed.

(** The swings come in strictly increasing order of index. *)
Lemma detect_swings_increasing use_close c : increasing (detect_swings use_close c).
Proof.
  destruct (bars c) as [|b0 rest] eqn:Hb.
  - unfold detect_swings. rewrite Hb. case_match; constructor.
  - destruct (le_lt_dec 3 (len c)) as [Hl|Hl].
    + rewrite (detect_swings_loop _ _ _ _ Hb Hl).
      destruct (swing_loop_inv use_close c rest 1 (init b0) (swing_init_inv b0))
        as (m & _ & _ & _ & _ & _ & HS).
      exact HS.
    + unfold detect_swings. apply Nat.ltb_lt in Hl. rewrite Hl. constructor.
Qed.

(** C4.  Appending one bar to a table never changes the swings already
    emitted: the swing list of the original table is a prefix of the swing
    list of the extended table (each earlier swing with the same index,
    price, kind, confirmation index, timestamps and structure). *)
Theorem detect_swings_monotonic use_close (c : Table) (b : Bar) :
  detect_swings use_close c `prefix_of` detect_swings use_close (append c b).
Proof.
  destruct (le_lt_dec 3 (len c)) as [Hl|Hl].
  - destruct (bars c) as [|b0 rest] eqn:Hb;
      [unfold len in Hl; rewrite Hb in Hl; simpl in Hl; lia|].
    assert (Hb' : bars (append c b) = b0 :: (rest ++ [b])) by (simpl; now rewrite Hb).
    assert (Hl' : 3 <= len (append c b))
      by (unfold len, append in *; simpl; rewrite length_app; simpl; lia).
    rewrite (detect_swings_loop _ _ _ _ Hb Hl), (detect_swings_loop _ _ _ _ Hb' Hl').
    rewrite loop_snoc.
    rewrite (loop_ext use_close (append c b) c rest 1 (init b0)).
    + apply step_prefix.
    + intros k Hk. apply ts_at_append. unfold len. rewrite Hb. simpl. lia.
    + apply swing_init_inv.
  - unfold detect_swings at 1. apply Nat.ltb_lt in Hl. rewrite Hl.
    apply prefix_nil.
Qed.

(** *** The regime of [StructureAnalyzer.analyze] *)

(** Some swing of [l] carries the structure [t]. *)
Definition has (t : StructureType) (l : list SwingPoint) : Prop :=
  exists s, s ∈ l /\ structure s = Some t.

Lemma count_structure_has t l : (1 <=? count_structure t l) = true <-> has t l.
Proof.
  unfold count_structure, has. rewrite Nat.leb_le. split.
  - destruct (filter _ l) as [|s l'] eqn:E; simpl; [lia|]. intros _.
    assert (Hs : s ∈ filter (fun s => structure s = Some t) l)
      by (rewrite E; apply list_elem_of_here).
    apply list_elem_of_filter in Hs as [Hs1 Hs2]. eauto.
  - intros (s & Hin & Hs).
    assert (Hf : s ∈ filter (fun s => structure s = Some t) l)
      by (apply list_elem_of_filter; auto).
    destruct (filter _ l); [inversion Hf | simpl; lia].
Qed.

Lemma recent_last_n {A} (l : list A) :
  (if 6 <=? length l then last_n 6 l else l) = last_n 6 l.
Proof.
  destruct (6 <=? length l) eqn:E; [reflexivity|].
  apply Nat.leb_gt in E. unfold last_n.
  replace (length l - 6) with 0 by lia. reflexivity.
Qed.

(** C3, as the code has it.  With fewer than four swings the trend is
    [unknown].  With at least four, over the last (at most) six swings: the
    trend is [uptrend] iff an HH and an HL are present; [downtrend] iff that
    is not so and an LH and an LL are present; [ranging] iff neither pair is
    present. *)
Theorem analyze_trend use_close (c : Table) :
  let sw := detect_swings use_close c in
  let recent := last_n 6 sw in
  let up := has HIGHER_HIGH recent /\ has HIGHER_LOW recent in
  let down := has LOWER_HIGH recent /\ has LOWER_LOW recent in
  (length sw < 4 -> trend (analyze use_close c) = unknown) /\
  (4 <= length sw ->
     (trend (analyze use_close c) = uptrend <-> up) /\
     (trend (analyze use_close c) = downtrend <-> ~ up /\ down) /\
     (trend (analyze use_close c) = ranging <-> ~ up /\ ~ down)).
Proof.
  intros sw recent up down. unfold analyze. fold sw. split.
  - intros H. apply Nat.ltb_lt in H. now rewrite H.
  - intros H. apply Nat.leb_le in H.
    assert (E : (length sw <? 4) = false) by (apply Nat.ltb_ge; now apply Nat.leb_le).
    rewrite E, recent_last_n. fold recent. cbn [trend].
    pose proof (count_structure_has HIGHER_HIGH recent) as Hhh.
    pose proof (count_structure_has HIGHER_LOW recent) as Hhl.
    pose proof (count_structure_has LOWER_HIGH recent) as Hlh.
    pose proof (count_structure_has LOWER_LOW recent) as Hll.
    subst up down.
    destruct (1 <=? count_structure HIGHER_HIGH recent),
             (1 <=? count_structure HIGHER_LOW recent),
             (1 <=? count_structure LOWER_HIGH recent),
             (1 <=? count_structure LOWER_LOW recent); cbn [andb];
      intuition congruence.
Qed.

(** Three lower swing highs in four bars: three swings, none of the four
    structure pairs complete. *)
Definition ohlc (h l c : Q) : Bar :=
  {| timestamp := 0%Z; datetime := 0%Z; open := c; high := h; low := l;
     close := c; volume := 1 |}.

Definition falling_4 : Table :=
  {| bars := [ohlc 100 90 95; ohlc 96 80 85; ohlc 86 70 75; ohlc 76 60 65];
     has_timestamp := false; has_datetime := false |}.

(** C3 as stated fails: with three swings and neither pair present the
    claim says [ranging]; the code says [unknown]. *)
Lemma analyze_three_swings_not_ranging :
  let sw := detect_swings true falling_4 in
  length sw = 3 /\
  ~ (has HIGHER_HIGH (last_n 6 sw) /\ has HIGHER_LOW (last_n 6 sw)) /\
  ~ (has LOWER_HIGH (last_n 6 sw) /\ has LOWER_LOW (last_n 6 sw)) /\
  trend (analyze true falling_4) <> ranging.
Proof.
  cbv zeta. rewrite <- !count_structure_has.
  split; [vm_compute; reflexivity|].
  split; [vm_compute; intros [H _]; discriminate|].
  split; [vm_compute; intros [_ H]; discriminate|].
  vm_compute. discriminate.
Qed.

End SwingsSpec.

(** ** The range detector *)

Module RangesSpec.
Import Candles Swings Ranges.

Section Detector.
Variable self : RangeDetector.
Variable c : Table.

(** The pairs the loop of [detect_ranges] considers: a swing high among
    all swings but the last, and the first swing low after it. *)
Definition candidate_pair (hs ls : SwingPoint) : Prop :=
  let swings := detect_major_swings (use_close self) c in
  2 <= length swings /\
  hs ∈ take (length swings - 1) swings /\
  is_high hs = true /\
  head (filter (fun s => index hs < index s)
          (filter (fun s => is_low s = true) swings)) = Some ls.

(** A scan that ends with status Forming counted fewer than [min_touches]
    touches. *)
Lemma scan_forming hs ls bs : forall i ht lt,
  status (scan self c hs ls i bs ht lt) = FORMING ->
  total_touches (scan self c hs ls i bs ht lt) < min_touches self.
Proof.
  induction bs as [|b bs IH]; intros i ht lt; simpl.
  - destruct (min_touches self <=? ht + lt) eqn:E; [discriminate|].
    intros _. unfold total_touches. simpl. now apply Nat.leb_gt.
  - repeat case_match; simpl; try discriminate; apply IH.
Qed.

Lemma create_range_forming hs ls r :
  _create_range self c hs ls = Some r -> status r = FORMING ->
  total_touches r < min_touches self.
Proof.
  unfold _create_range. case_match; [discriminate|].
  intros [= <-]. apply scan_forming.
Qed.

Lemma candidate_spec low_swings swing r :
  candidate self c low_swings swing = Some r <->
  is_high swing = true /\
  exists ls, head (filter (fun s => index swing < index s) low_swings) = Some ls /\
             _create_range self c swing ls = Some r /\
             min_touches self <= total_touches r.
Proof.
  unfold candidate, is_valid. split.
  - destruct (is_high swing); [|discriminate].
    destruct (filter _ low_swings) as [|ls l']; [discriminate|].
    destruct (_create_range self c swing ls) as [r'|] eqn:Hc; [|discriminate].
    destruct (min_touches self <=? total_touches r') eqn:E; [|discriminate].
    intros [= <-]. apply Nat.leb_le in E. split; [reflexivity|].
    exists ls. repeat split; assumption || reflexivity.
  - intros (-> & ls & Hh & Hc & Ht).
    destruct (filter _ low_swings) as [|ls' l']; [discriminate|].
    injection Hh as ->. rewrite Hc. apply Nat.leb_le in Ht. now rewrite Ht.
Qed.

(** What [detect_ranges] returns: the ranges of the candidate pairs that
    pass the [min_range_bars] check and count at least [min_touches]
    touches. *)
Lemma detect_ranges_spec r :
  r ∈ detect_ranges self c <->
  exists hs ls, candidate_pair hs ls /\
                _create_range self c hs ls = Some r /\
                min_touches self <= total_touches r.
Proof.
  unfold detect_ranges, candidate_pair.
  set (swings := detect_major_swings (use_close self) c).
  destruct (length swings <? 2) eqn:E.
  - apply Nat.ltb_lt in E. split; [intros H; inversion H|].
    intros (hs & ls & (H & _) & _). simpl in H. lia.
  - apply Nat.ltb_ge in E. rewrite list_elem_of_omap. split.
    + intros (hs & Hin & Hc). apply candidate_spec in Hc as (Hh & ls & H1 & H2 & H3).
      exists hs, ls. simpl. auto 10.
    + intros (hs & ls & (_ & Hin & Hh & H1) & H2 & H3).
      exists hs. split; [exact Hin|]. apply candidate_spec. eauto 10.
Qed.

(** C5, as the code has it.  [detect_ranges] returns exactly the ranges of
    the candidate pairs that pass the [min_range_bars] check and count at
    least [min_touches] touches; hence no returned range has status
    Forming.  [detect_current_range] returns the last returned range whose
    status is Forming or Confirmed, or [None] if there is none; a range it
    returns is Confirmed. *)
Theorem detect_ranges_valid_only :
  (forall r, r ∈ detect_ranges self c <->
     exists hs ls, candidate_pair hs ls /\
                   _create_range self c hs ls = Some r /\
                   min_touches self <= total_touches r) /\
  (forall r, r ∈ detect_ranges self c -> status r <> FORMING) /\
  detect_current_range self c =
    last (filter (fun r => is_active r = true) (detect_ranges self c)) /\
  (forall r, detect_current_range self c = Some r ->
     r ∈ detect_ranges self c /\ status r = CONFIRMED).
Proof.
  assert (Hnf : forall r, r ∈ detect_ranges self c -> status r <> FORMING).
  { intros r Hr Hs. apply detect_ranges_spec in Hr as (hs & ls & _ & Hc & Ht).
    pose proof (create_range_forming hs ls r Hc Hs). lia. }
  split; [exact detect_ranges_spec|]. split; [exact Hnf|].
  split; [reflexivity|].
  intros r Hr. unfold detect_current_range, last_of in Hr.
  apply last_Some_elem_of in Hr. apply list_elem_of_filter in Hr as [Ha Hin].
  split; [exact Hin|]. specialize (Hnf r Hin).
  unfold is_active in Ha. apply orb_true_iff in Ha as [Ha|Ha];
    apply bool_decide_eq_true in Ha; congruence.
Qed.
End Detector.

(** A swing high on bar 0, a swing low on bar 10 confirmed on bar 11, and
    the data ends there: one candidate, two touches. *)
Definition high_then_low_12 : Table :=
  {| bars := [SwingsSpec.ohlc 100 90 95; SwingsSpec.ohlc 96 80 85]
             ++ repeat (SwingsSpec.ohlc 88 82 85) 8
             ++ [SwingsSpec.ohlc 88 70 85;
                 SwingsSpec.ohlc (10005 # 100) 84 (10001 # 100)];
     has_timestamp := false; has_datetime := false |}.

(** C5 as stated fails: the candidate passes the [min_range_bars] check,
    its scan ends with two touches and status Forming, and it is not
    returned; [detect_current_range] finds nothing. *)
Lemma forming_candidate_not_returned :
  exists hs ls r,
    candidate_pair RANGE_DETECTOR_DEFAULT high_then_low_12 hs ls /\
    _create_range RANGE_DETECTOR_DEFAULT high_then_low_12 hs ls = Some r /\
    status r = FORMING /\
    total_touches r = 2 /\
    (r ∉ detect_ranges RANGE_DETECTOR_DEFAULT high_then_low_12) /\
    detect_ranges RANGE_DETECTOR_DEFAULT high_then_low_12 = [] /\
    detect_current_range RANGE_DETECTOR_DEFAULT high_then_low_12 = None.
Proof.
  assert (Hsw : exists hs ls,
             detect_major_swings true high_then_low_12 = [hs; ls] /\
             is_high hs = true /\ is_low ls = true /\ index hs = 0 /\ index ls = 10).
  { vm_compute. eexists _, _. repeat split; reflexivity. }
  destruct Hsw as (hs & ls & Hsw & Hh & Hl & Hih & Hil).
  assert (Hd : detect_ranges RANGE_DETECTOR_DEFAULT high_then_low_12 = [])
    by (vm_compute; reflexivity).
  assert (Hr : exists r, _create_range RANGE_DETECTOR_DEFAULT high_then_low_12 hs ls = Some r
                         /\ status r = FORMING /\ total_touches r = 2).
  { vm_compute in Hsw. injection Hsw as <- <-. vm_compute.
    eexists. repeat split; reflexivity. }
  destruct Hr as (r & Hr & Hs & Ht).
  assert (Hc : candidate_pair RANGE_DETECTOR_DEFAULT high_then_low_12 hs ls).
  { unfold candidate_pair. cbv zeta.
    change (use_close RANGE_DETECTOR_DEFAULT) with true. rewrite Hsw.
    split; [cbn; lia|]. split; [cbn; apply list_elem_of_here|].
    split; [exact Hh|].
    unfold is_high in Hh. unfold is_low in Hl.
    apply bool_decide_eq_true in Hh, Hl.
    assert (Hnl : is_low hs = true -> False)
      by (unfold is_low; rewrite bool_decide_eq_true; congruence).
    rewrite (filter_cons_False _ hs) by exact Hnl.
    rewrite (filter_cons_True _ ls), filter_nil
      by (unfold is_low; now rewrite bool_decide_eq_true).
    rewrite filter_cons_True by lia. reflexivity. }
  exists hs, ls, r.
  split; [exact Hc|]. split; [exact Hr|]. split; [exact Hs|]. split; [exact Ht|].
  split; [rewrite Hd; apply not_elem_of_nil|]. split; [exact Hd|].
  unfold detect_current_range. now rewrite Hd.
Qed.

End RangesSpec.

(** ** Structure breaks *)

Module BreaksSpec.
Import Candles Swings Breaks.

Lemma high_not_low s : is_high s = true -> is_low s = true -> False.
Proof.
  unfold is_high, is_low. rewrite !bool_decide_eq_true. congruence.
Qed.

Lemma structure_in_spec s a b :
  structure_in s a b = true <-> structure s = Some a \/ structure s = Some b.
Proof.
  unfold structure_in. now rewrite orb_true_iff, !bool_decide_eq_true.
Qed.

(** The first row satisfying [hit] among the rows [start, start+1, ...]. *)
Lemma first_hit_spec (c : Table) hit decide_at r : forall bs start,
  (forall k, bs !! k = bars c !! (start + k)) ->
  first_hit hit decide_at start bs = Some r ->
  exists i b,
    start <= i /\ bars c !! i = Some b /\ hit b = true /\
    (forall j bj, start <= j < i -> bars c !! j = Some bj -> hit bj = false) /\
    decide_at i b = Some r.
Proof.
  induction bs as [|b bs IH]; intros start Hbs; simpl; [discriminate|].
  destruct (hit b) eqn:Hb.
  - intros Hd. exists start, b. repeat split; auto.
    + rewrite <- (Nat.add_0_r start) at 1. now rewrite <- Hbs.
    + intros j bj Hj. lia.
  - intros Hf. destruct (IH (S start)) as (i & b' & Hi & Hl & Hh & Hfirst & Hd); auto.
    + intros k. specialize (Hbs (S k)). simpl in Hbs. rewrite Hbs. f_equal. lia.
    + exists i, b'. repeat split; auto; [lia|].
      intros j bj Hj Hlj. destruct (decide (j = start)) as [->|Hne].
      * specialize (Hbs 0). simpl in Hbs. rewrite Nat.add_0_r in Hbs.
        rewrite <- Hbs in Hlj. now injection Hlj as <-.
      * apply (Hfirst j bj); [lia | exact Hlj].
Qed.

Section Detector.
Variable self : Detector.
Variable c : Table.

(** The break tests of the two directions at the level of a swing. *)
Definition hit_above (swing : SwingPoint) (b : Bar) : bool :=
  Num.gtb (check_price_above self b) (price swing).
Definition hit_below (swing : SwingPoint) (b : Bar) : bool :=
  Num.ltb (check_price_below self b) (price swing).

(** Row [i] is the first row, from [swing.index + confirmation_bars] on,
    whose price breaks the level of the swing. *)
Definition first_break (hit : Bar -> bool) (swing : SwingPoint) (i : nat) : Prop :=
  index swing + confirmation_bars self <= i /\
  (exists b, bars c !! i = Some b /\ hit b = true) /\
  (forall j bj, index swing + confirmation_bars self <= j < i ->
                bars c !! j = Some bj -> hit bj = false).

(** The most recent swing before row [i] carries structure [a] or [b]. *)
Definition last_prior_in (all : list SwingPoint) (i : nat) (a b : StructureType) : Prop :=
  exists last_swing,
    last (filter (fun s => index s < i) all) = Some last_swing /\
    (structure last_swing = Some a \/ structure last_swing = Some b).

(** What a break returned for [swing] looks like. *)
Definition break_of (r : StructureBreak) (t : BreakType) (swing : SwingPoint)
    (hit : Bar -> bool) : Prop :=
  break_type r = t /\ swing_broken r = swing /\ break_price r = price swing /\
  first_break hit swing (break_index r).

Lemma scan_spec hit decide_at swing r :
  first_hit hit decide_at (index swing + confirmation_bars self) (rows_from self c swing)
    = Some r ->
  exists i b, first_break hit swing i /\ bars c !! i = Some b /\ decide_at i b = Some r.
Proof.
  intros H. apply (first_hit_spec c) in H.
  - destruct H as (i & b & H1 & H2 & H3 & H4 & H5).
    exists i, b. repeat split; eauto.
  - intros k. unfold rows_from. apply lookup_drop.
Qed.

Lemma detect_break_above_spec swing all r :
  _detect_break_above self c swing all = Some r ->
  break_of r BOS_BULLISH swing (hit_above swing) /\
  last_prior_in all (break_index r) HIGHER_HIGH HIGHER_LOW.
Proof.
  unfold _detect_break_above. intros H.
  apply scan_spec in H as (i & b & Hf & Hb & Hd).
  unfold last_of in Hd.
  destruct (last (filter _ all)) as [ls|] eqn:El; [|discriminate].
  destruct (structure_in ls _ _) eqn:Es; [|discriminate].
  injection Hd as <-. simpl. split; [repeat split; apply Hf|].
  exists ls. split; [exact El | now apply structure_in_spec].
Qed.

Lemma detect_break_below_spec swing all r :
  _detect_break_below self c swing all = Some r ->
  break_of r BOS_BEARISH swing (hit_below swing) /\
  last_prior_in all (break_index r) LOWER_HIGH LOWER_LOW.
Proof.
  unfold _detect_break_below. intros H.
  apply scan_spec in H as (i & b & Hf & Hb & Hd).
  unfold last_of in Hd.
  destruct (last (filter _ all)) as [ls|] eqn:El; [|discriminate].
  destruct (structure_in ls _ _) eqn:Es; [|discriminate].
  injection Hd as <-. simpl. split; [repeat split; apply Hf|].
  exists ls. split; [exact El | now apply structure_in_spec].
Qed.

Lemma detect_bullish_msb_spec swing all r :
  _detect_bullish_msb self c swing all = Some r ->
  break_of r MSB_BULLISH swing (hit_above swing) /\
  2 <= regime_count LOWER_HIGH LOWER_LOW swing (break_index r) all.
Proof.
  unfold _detect_bullish_msb. intros H.
  apply scan_spec in H as (i & b & Hf & Hb & Hd).
  destruct (2 <=? regime_count _ _ swing i all) eqn:E; [|discriminate].
  injection Hd as <-. simpl. split; [repeat split; apply Hf|].
  now apply Nat.leb_le.
Qed.

Lemma detect_bearish_msb_spec swing all r :
  _detect_bearish_msb self c swing all = Some r ->
  break_of r MSB_BEARISH swing (hit_below swing) /\
  2 <= regime_count HIGHER_HIGH HIGHER_LOW swing (break_index r) all.
Proof.
  unfold _detect_bearish_msb. intros H.
  apply scan_spec in H as (i & b & Hf & Hb & Hd).
  destruct (2 <=? regime_count _ _ swing i all) eqn:E; [|discriminate].
  injection Hd as <-. simpl. split; [repeat split; apply Hf|].
  now apply Nat.leb_le.
Qed.

(** *** The shape shared by [detect_bos] and [detect_msb] *)

Section DetectWith.
Variable min_swings : nat.
Variables above below : SwingPoint -> list SwingPoint -> option StructureBreak.

Let swings := detect_major_swings (swing_use_close self) c.

Lemma detect_with_elem r :
  r ∈ detect_with self c min_swings above below ->
  (exists s, s ∈ swings /\ is_high s = true /\ above s swings = Some r) \/
  (exists s, s ∈ swings /\ is_low s = true /\ below s swings = Some r).
Proof.
  unfold detect_with. fold swings.
  destruct (length swings <? min_swings); [intros H; inversion H|].
  rewrite SortingFacts.sort_by_perm, elem_of_app, !list_elem_of_omap.
  intros [(s & Hs & Hr) | (s & Hs & Hr)];
    apply list_elem_of_filter in Hs as [Hk Hin]; [left | right]; eauto.
Qed.

Lemma omap_broken_elem (f : SwingPoint -> option StructureBreak)
    (l : list SwingPoint) (x : SwingPoint) :
  (forall s r, f s = Some r -> swing_broken r = s) ->
  x ∈ swing_broken <$> omap f l -> x ∈ l.
Proof.
  intros Hf Hx. apply list_elem_of_fmap in Hx as (r & -> & Hr).
  apply list_elem_of_omap in Hr as (s & Hs & Hr).
  now rewrite (Hf s r Hr).
Qed.

Lemma omap_broken_NoDup (f : SwingPoint -> option StructureBreak)
    (l : list SwingPoint) :
  (forall s r, f s = Some r -> swing_broken r = s) ->
  NoDup l -> NoDup (swing_broken <$> omap f l).
Proof.
  intros Hf. induction 1 as [|s l Hs Hl IH]; simpl; [constructor|].
  destruct (f s) as [r|] eqn:E; [|exact IH].
  simpl. rewrite (Hf s r E). constructor; [|exact IH].
  intros Hin. apply Hs. now apply (omap_broken_elem f).
Qed.

(** At most one break per swing. *)
Lemma detect_with_NoDup :
  (forall s r, above s swings = Some r -> swing_broken r = s) ->
  (forall s r, below s swings = Some r -> swing_broken r = s) ->
  NoDup (swing_broken <$> detect_with self c min_swings above below).
Proof.
  intros Ha Hb. unfold detect_with. fold swings.
  destruct (length swings <? min_swings); [constructor|].
  rewrite SortingFacts.sort_by_perm, fmap_app.
  assert (Hnd : NoDup swings)
    by apply SwingsSpec.increasing_NoDup, SwingsSpec.detect_swings_increasing.
  apply NoDup_app. split; [|split].
  - apply (omap_broken_NoDup (fun s => above s swings)); [exact Ha|].
    now apply NoDup_filter.
  - intros x Hx Hx'.
    apply (omap_broken_elem (fun s => above s swings)) in Hx; [|exact Ha].
    apply (omap_broken_elem (fun s => below s swings)) in Hx'; [|exact Hb].
    apply list_elem_of_filter in Hx as [Hx _].
    apply list_elem_of_filter in Hx' as [Hx' _].
    exact (high_not_low x Hx Hx').
  - apply (omap_broken_NoDup (fun s => below s swings)); [exact Hb|].
    now apply NoDup_filter.
Qed.
End DetectWith.

End Detector.

(** Three falling bars after bar 0, then a close above every high: the
    swing highs on bars 0, 1, 2 (the last two LH), a swing low on bar 3. *)
Definition falling_then_up : Table :=
  {| bars := [SwingsSpec.ohlc 100 90 95; SwingsSpec.ohlc 96 80 85;
              SwingsSpec.ohlc 86 70 75; SwingsSpec.ohlc 76 60 65;
              SwingsSpec.ohlc 102 62 101];
     has_timestamp := false; has_datetime := false |}.

(** C6 as stated fails in its MSB clause: a bullish MSB is returned for
    the swing high on bar 0, which no swing precedes; the two LH swings
    that make the count lie on bars 1 and 2, after the broken swing. *)
Lemma msb_counts_swings_after_broken_swing :
  exists r,
    r ∈ detect_msb DETECTOR_DEFAULT falling_then_up /\
    break_type r = MSB_BULLISH /\
    break_index r = 4 /\
    index (swing_broken r) = 0 /\
    filter (fun s => index s < index (swing_broken r))
      (detect_major_swings true falling_then_up) = [] /\
    regime_count LOWER_HIGH LOWER_LOW (swing_broken r) 4
      (detect_major_swings true falling_then_up) = 2.
Proof.
  assert (H : exists r rest,
             detect_msb DETECTOR_DEFAULT falling_then_up = r :: rest /\
             break_type r = MSB_BULLISH /\ break_index r = 4 /\
             index (swing_broken r) = 0 /\
             filter (fun s => index s < index (swing_broken r))
               (detect_major_swings true falling_then_up) = [] /\
             regime_count LOWER_HIGH LOWER_LOW (swing_broken r) 4
               (detect_major_swings true falling_then_up) = 2).
  { vm_compute. eexists _, _. repeat split; reflexivity. }
  destruct H as (r & rest & Hd & H).
  exists r. split; [rewrite Hd; apply list_elem_of_here | exact H].
Qed.

End BreaksSpec.

(** ** The strategy loader *)

Module ParserSpec.
Import Py Parser.

Lemma pbind_ok {A B} (m : Printing A) (k : A -> Printing B) w b :
  pbind m k = (w, Ok b) ->
  exists w1 a w2, m = (w1, Ok a) /\ k a = (w2, Ok b) /\ w = w1 ++ w2.
Proof.
  unfold pbind. destruct m as [w1 [a|e]]; [|discriminate].
  destruct (k a) as [w2 r] eqn:E. intros [= <- ->]. eauto 10.
Qed.

(** What is printed for an entry whose type is the string [t], outside
    the registry: nothing for the empty string, which [if not cond_type]
    drops first. *)
Definition skip_warning (t : string) : list Warning :=
  if bool_decide (t = "") then [] else [UnknownConditionType (YStr t)].

(** An entry whose type is a string outside the registry yields no
    condition and no exception. *)
Lemma unknown_type_skipped d t :
  lookup_item "type" d = Some (YStr t) ->
  CONDITION_TYPES !! t = None ->
  _parse_condition (YDict d) = (skip_warning t, Ok None).
Proof.
  intros Hl Hr. unfold _parse_condition, get_opt, get, skip_warning. rewrite Hl.
  cbv beta iota. unfold truthy. cbv beta iota.
  destruct (bool_decide (t = "")); cbv beta iota delta [negb]; [reflexivity|].
  rewrite Hr. reflexivity.
Qed.

Lemma parse_items_cons x rest :
  parse_items (x :: rest) =
    match _parse_condition x with
    | (w, Raise e) => (w, Raise e)
    | (w, Ok condition) =>
        match parse_items rest with
        | (w', Raise e) => (w ++ w', Raise e)
        | (w', Ok conditions) =>
            (w ++ w',
             Ok (match condition with
                 | Some cnd => cnd :: conditions
                 | None => conditions
                 end))
        end
    end.
Proof. reflexivity. Qed.

(** Dropping a skipped entry from the list changes neither the conditions
    built nor whether the loop raises. *)
Lemma parse_items_skip_outcome l1 d l2 warn :
  _parse_condition d = (warn, Ok None) ->
  snd (parse_items (l1 ++ d :: l2)) = snd (parse_items (l1 ++ l2)).
Proof.
  intros Hd. induction l1 as [|x l1 IH].
  - rewrite !app_nil_l, parse_items_cons, Hd.
    destruct (parse_items l2) as [w [cs|e]]; reflexivity.
  - rewrite <- !app_comm_cons, !parse_items_cons.
    destruct (_parse_condition x) as [w [cnd|e]]; [|reflexivity].
    destruct (parse_items (l1 ++ d :: l2)) as [w1 [cs1|e1]],
             (parse_items (l1 ++ l2)) as [w2 [cs2|e2]];
      cbn [snd] in IH |- *; simplify_eq; reflexivity.
Qed.

(** Its warning is printed between those of the entries before and after. *)
Lemma parse_items_skip_log l1 d l2 warn w1 cs1 :
  _parse_condition d = (warn, Ok None) ->
  parse_items l1 = (w1, Ok cs1) ->
  fst (parse_items (l1 ++ d :: l2)) = w1 ++ warn ++ fst (parse_items l2).
Proof.
  intros Hd. revert w1 cs1. induction l1 as [|x l1 IH]; intros w1 cs1.
  - intros [= <- <-]. rewrite !app_nil_l, parse_items_cons, Hd.
    destruct (parse_items l2) as [w [cs|e]]; reflexivity.
  - rewrite <- !app_comm_cons, !parse_items_cons.
    destruct (_parse_condition x) as [w [cnd|e]]; [|discriminate].
    destruct (parse_items l1) as [w' [cs'|e']]; [|discriminate].
    intros [= <- <-]. specialize (IH w' cs' eq_refl).
    destruct (parse_items (l1 ++ d :: l2)) as [w3 [cs3|e3]]; cbn [fst] in *;
      rewrite IH; now rewrite <- app_assoc.
Qed.

(** The [enabled] flag of a loaded system is the document's. *)
Lemma parse_enabled data w sys :
  parse data = (w, Ok sys) ->
  get data "enabled" (YBool true) = Ok (enabled sys).
Proof.
  unfold parse. intros H.
  repeat (apply pbind_ok in H as (? & ? & ? & ? & H & ?)).
  unfold lift in *. simplify_eq. simpl. assumption.
Qed.

Lemma check_entry_empty evaluate sys :
  entry_conditions sys = [] -> check_entry evaluate sys = false.
Proof. intros H. unfold check_entry. now rewrite H. Qed.

(** C9, as the code has it.  A condition entry whose type is a string
    outside the registry is skipped: it yields no condition and no
    exception, and the rest of the list is parsed as if the entry were
    absent.  One warning is printed in its place, unless the type is the
    empty string, which is skipped silently.  The [enabled] flag of the
    loaded system is the one the document gives ([True] if it gives none),
    whatever is left of the entry conditions; a system without entry
    conditions is not disabled, but its [check_entry] is always false. *)
Theorem unknown_conditions_skipped :
  (forall d t,
     lookup_item "type" d = Some (YStr t) ->
     CONDITION_TYPES !! t = None ->
     _parse_condition (YDict d) = (skip_warning t, Ok None) /\
     (t <> "" -> skip_warning t = [UnknownConditionType (YStr t)]) /\
     (t = "" -> skip_warning t = []) /\
     forall l1 l2,
       snd (parse_items (l1 ++ YDict d :: l2)) = snd (parse_items (l1 ++ l2)) /\
       forall w1 cs1,
         parse_items l1 = (w1, Ok cs1) ->
         fst (parse_items (l1 ++ YDict d :: l2)) =
           w1 ++ skip_warning t ++ fst (parse_items l2)) /\
  (forall data w sys,
     parse data = (w, Ok sys) ->
     get data "enabled" (YBool true) = Ok (enabled sys)) /\
  (forall evaluate sys,
     entry_conditions sys = [] -> check_entry evaluate sys = false).
Proof.
  split; [|split].
  - intros d t Hl Hr.
    pose proof (unknown_type_skipped d t Hl Hr) as Hd.
    split; [exact Hd|].
    split; [intros Ht; unfold skip_warning; now rewrite bool_decide_eq_false_2|].
    split; [intros Ht; unfold skip_warning; now rewrite bool_decide_eq_true_2|].
    intros l1 l2. split.
    + now apply parse_items_skip_outcome with (skip_warning t).
    + intros w1 cs1 H1. now apply parse_items_skip_log with cs1.
  - exact parse_enabled.
  - exact check_entry_empty.
Qed.

(** A document whose only entry condition has an unknown type. *)
Definition bogus_doc : Yaml :=
  YDict [("name", YStr "Bogus");
         ("timeframe", YStr "15m");
         ("entry", YDict [("conditions",
             YList [YDict [("type", YStr "no_such_condition"); ("lookback", YNum 5)]])])].

(** C9 as stated fails in its second half: the load succeeds with one
    warning and no entry condition left, and the system is enabled.  It
    also fails for the empty type string, which is in no registry and is
    skipped without a warning. *)
Lemma bogus_strategy_stays_enabled :
  (exists sys,
     parse bogus_doc = ([UnknownConditionType (YStr "no_such_condition")], Ok sys) /\
     entry_conditions sys = [] /\
     enabled sys = YBool true /\
     enabled sys <> YBool false) /\
  CONDITION_TYPES !! "" = None /\
  _parse_condition (YDict [("type", YStr ""); ("lookback", YNum 5)]) = ([], Ok None).
Proof.
  split; [|split; [vm_compute; reflexivity | vm_compute; reflexivity]].
  eexists. split; [vm_compute; reflexivity|].
  split; [reflexivity|]. split; [reflexivity | discriminate].
Qed.

End ParserSpec.

(** ** More on the swing detector *)

Module SwingsMore.
Import Candles Swings.

(** The bar a swing sits on carries its price: the high of the bar for a
    swing high, the low for a swing low; its two timestamps are those of
    its bar and of the bar that confirmed it. *)
Definition on_bar (c : Table) (s : SwingPoint) : Prop :=
  exists b, bars c !! index s = Some b /\
            price s = match swing_type s with
                      | SWING_HIGH => high b
                      | SWING_LOW => low b
                      end /\
            sp_timestamp s = ts_at c (index s) /\
            confirmed_at_timestamp s = ts_at c (confirmed_at_index s).

(** The structure a swing must carry after the swings [before] it. *)
Definition expected_structure (before : list SwingPoint) (s : SwingPoint)
  : option StructureType :=
  match swing_type s with
  | SWING_HIGH =>
      match last (filter (fun x => is_high x = true) before) with
      | None => None
      | Some prev => Some (if Num.gtb (price s) (price prev)
                           then HIGHER_HIGH else LOWER_HIGH)
      end
  | SWING_LOW =>
      match last (filter (fun x => is_low x = true) before) with
      | None => None
      | Some prev => Some (if Num.gtb (price s) (price prev)
                           then HIGHER_LOW else LOWER_LOW)
      end
  end.

Definition well_labelled (l : list SwingPoint) : Prop :=
  forall l1 s l2, l = l1 ++ s :: l2 -> structure s = expected_structure l1 s.

Lemma well_labelled_snoc l s :
  well_labelled l -> structure s = expected_structure l s ->
  well_labelled (l ++ [s]).
Proof.
  intros Hl Hs l1 x l2 E.
  destruct l2 as [|y l2 _] using rev_ind.
  - apply app_inj_tail in E as [-> ->]. exact Hs.
  - rewrite app_comm_cons, app_assoc in E.
    apply app_inj_tail in E as [-> _]. now apply (Hl l1 x l2).
Qed.

(** The cursor sits on a bar whose high (low) is its price. *)
Definition cursor_on (c : Table) (f : Bar -> Q) (k : Cursor) : Prop :=
  exists b, bars c !! c_index k = Some b /\ c_price k = f b.

(** The invariant of the loop before bar [i]. *)
Definition BarInv (c : Table) (i : nat) (st : State) : Prop :=
  cursor_on c high (highest_since_low st) /\
  cursor_on c low (lowest_since_high st) /\
  c_index (highest_since_low st) < i /\
  c_index (lowest_since_high st) < i /\
  Forall (fun s => index s < confirmed_at_index s /\ confirmed_at_index s < i /\
                   on_bar c s) (swings st) /\
  StronglySorted (fun a b => confirmed_at_index a < confirmed_at_index b) (swings st) /\
  well_labelled (swings st).

Lemma bar_init_inv c b0 rest : bars c = b0 :: rest -> BarInv c 1 (init b0).
Proof.
  intros Hb. unfold BarInv, cursor_on. simpl. rewrite Hb. simpl.
  repeat split; eauto; try lia; try constructor.
  intros l1 s l2 E. destruct l1; discriminate.
Qed.

Lemma sorted_confirmed_snoc l s i :
  StronglySorted (fun a b => confirmed_at_index a < confirmed_at_index b) l ->
  Forall (fun x => confirmed_at_index x < i) l -> confirmed_at_index s = i ->
  StronglySorted (fun a b => confirmed_at_index a < confirmed_at_index b) (l ++ [s]).
Proof.
  intros Hl Hi Hs. induction Hl as [|x l Hl IH Hx]; simpl.
  - repeat constructor.
  - inversion Hi; subst. constructor; [now apply IH|].
    apply Forall_app. split; [exact Hx|]. repeat constructor. lia.
Qed.

Lemma bar_step_inv use_close c st i b :
  bars c !! i = Some b ->
  BarInv c i st -> BarInv c (S i) (step use_close c st i b).
Proof.
  intros Hb (Hh & Hl & Hhi & Hli & HF & HS & HW). unfold BarInv, step.
  set (hsl := if Num.gtb (high b) _ then _ else _).
  set (lsh := if Num.ltb (low b) _ then _ else _).
  assert (Hh' : cursor_on c high hsl /\ c_index hsl <= i).
  { subst hsl. case_match; [|split; [exact Hh | lia]].
    split; [exists b; auto | simpl; lia]. }
  assert (Hl' : cursor_on c low lsh /\ c_index lsh <= i).
  { subst lsh. case_match; [|split; [exact Hl | lia]].
    split; [exists b; auto | simpl; lia]. }
  destruct Hh' as [Hh' Hhi'], Hl' as [Hl' Hli'].
  assert (Hnow_h : cursor_on c high (mkCursor i (high b))) by (exists b; auto).
  assert (Hnow_l : cursor_on c low (mkCursor i (low b))) by (exists b; auto).
  assert (HF' : Forall (fun s => index s < confirmed_at_index s /\
                                 confirmed_at_index s < S i /\ on_bar c s) (swings st)).
  { eapply Forall_impl; [exact HF|]. simpl. intros s (H1 & H2 & H3). auto with lia. }
  assert (HFc : Forall (fun x => confirmed_at_index x < i) (swings st)).
  { eapply Forall_impl; [exact HF|]. simpl. tauto. }
  destruct (Num.gtb _ (c_price (current_swing_high st))).
  - destruct (c_index lsh <? i) eqn:E; simpl;
      (split; [exact Hnow_h|]); (split; [exact Hnow_l|]);
      (split; [lia|]); (split; [lia|]); [|repeat split; auto].
    apply Nat.ltb_lt in E. split; [|split].
    + apply Forall_app. split; [exact HF'|]. repeat constructor; simpl; try lia.
      destruct Hl' as (b' & Hb' & Hp). exists b'. simpl. auto.
    + now apply sorted_confirmed_snoc with i.
    + apply well_labelled_snoc; [exact HW|].
      unfold expected_structure, low_structure, last_of; simpl.
      repeat case_match; reflexivity.
  - destruct (Num.ltb _ (c_price (current_swing_low st))).
    + destruct (c_index hsl <? i) eqn:E; simpl;
        (split; [exact Hnow_h|]); (split; [exact Hnow_l|]);
        (split; [lia|]); (split; [lia|]); [|repeat split; auto].
      apply Nat.ltb_lt in E. split; [|split].
      * apply Forall_app. split; [exact HF'|]. repeat constructor; simpl; try lia.
        destruct Hh' as (b' & Hb' & Hp). exists b'. simpl. auto.
      * now apply sorted_confirmed_snoc with i.
      * apply well_labelled_snoc; [exact HW|].
        unfold expected_structure, high_structure, last_of; simpl.
        repeat case_match; reflexivity.
    + simpl. repeat split; auto; lia.
Qed.

Lemma bar_loop_inv use_close c bs : forall i st,
  drop i (bars c) = bs ->
  BarInv c i st -> BarInv c (i + length bs) (loop use_close c i bs st).
Proof.
  induction bs as [|b bs IH]; intros i st Hd HI; simpl.
  - now rewrite Nat.add_0_r.
  - rewrite <- Nat.add_succ_comm. apply IH.
    + replace (S i) with (i + 1) by lia. rewrite <- drop_drop, Hd. reflexivity.
    + apply bar_step_inv; [|exact HI].
      rewrite <- (Nat.add_0_r i), <- lookup_drop. now rewrite Hd.
Qed.

(** What the invariant gives for the list returned. *)
Lemma detect_swings_facts use_close c :
  Forall (fun s => index s < confirmed_at_index s /\ confirmed_at_index s < len c /\
                   on_bar c s) (detect_swings use_close c) /\
  StronglySorted (fun a b => confirmed_at_index a < confirmed_at_index b)
    (detect_swings use_close c) /\
  well_labelled (detect_swings use_close c).
Proof.
  assert (Hnil : forall P Q R, @Forall SwingPoint P [] /\ @StronglySorted SwingPoint Q [] /\
                               (R -> well_labelled [])).
  { intros. repeat split; try constructor. intros _ l1 s l2 E. destruct l1; discriminate. }
  destruct (bars c) as [|b0 rest] eqn:Hb.
  - unfold detect_swings. rewrite Hb.
    case_match; repeat split; try constructor;
      intros l1 s l2 E; destruct l1; discriminate.
  - destruct (le_lt_dec 3 (len c)) as [Hl|Hl].
    + rewrite (SwingsSpec.detect_swings_loop _ _ _ _ Hb Hl).
      assert (Hd : drop 1 (bars c) = rest) by now rewrite Hb.
      destruct (bar_loop_inv use_close c rest 1 (init b0) Hd (bar_init_inv c b0 rest Hb))
        as (_ & _ & _ & _ & HF & HS & HW).
      replace (1 + length rest) with (len c) in HF
        by (unfold len; rewrite Hb; reflexivity).
      auto.
    + unfold detect_swings. apply Nat.ltb_lt in Hl. rewrite Hl.
      repeat split; try constructor.
      intros l1 s l2 E. destruct l1; discriminate.
Qed.

(** X1.  Every swing lies strictly before the bar that confirmed it, and
    that bar is a row of the table; the swings are returned in strictly
    increasing order both of index and of confirmation index (so no two
    swings share a bar or a confirming bar). *)
Theorem swings_ordered_and_confirmed_later use_close (c : Table) :
  (forall s, s ∈ detect_swings use_close c ->
     index s < confirmed_at_index s /\ confirmed_at_index s < len c) /\
  StronglySorted (fun a b => index a < index b) (detect_swings use_close c) /\
  StronglySorted (fun a b => confirmed_at_index a < confirmed_at_index b)
    (detect_swings use_close c).
Proof.
  destruct (detect_swings_facts use_close c) as (HF & HS & _).
  split; [|split; [apply SwingsSpec.detect_swings_increasing | exact HS]].
  intros s Hs. rewrite Forall_forall in HF. destruct (HF s Hs) as (H1 & H2 & _). auto.
Qed.

(** X2.  The price of a swing high is the high of the bar at its index,
    the price of a swing low is the low of that bar, and the timestamps of
    the swing are those of that bar and of the confirming bar. *)
Theorem swing_price_is_bar_extreme use_close (c : Table) (s : SwingPoint) :
  s ∈ detect_swings use_close c ->
  exists b, bars c !! index s = Some b /\
            price s = match swing_type s with
                      | SWING_HIGH => high b
                      | SWING_LOW => low b
                      end /\
            sp_timestamp s = ts_at c (index s) /\
            confirmed_at_timestamp s = ts_at c (confirmed_at_index s).
Proof.
  intros Hs. destruct (detect_swings_facts use_close c) as (HF & _ & _).
  rewrite Forall_forall in HF. destruct (HF s Hs) as (_ & _ & H). exact H.
Qed.

(** X3.  The structure of a swing is decided by the previous swing of the
    same kind in the list: none if there is no such swing; otherwise HH
    (HL) if the price is strictly above that swing's price, LH (LL) if it is
    equal or below. *)
Theorem swing_structure_labelling use_close (c : Table) l1 (s : SwingPoint) l2 :
  detect_swings use_close c = l1 ++ s :: l2 ->
  match swing_type s with
  | SWING_HIGH =>
      match last (filter (fun x => is_high x = true) l1) with
      | None => structure s = None
      | Some prev =>
          ((price prev < price s)%Q /\ structure s = Some HIGHER_HIGH) \/
          ((price s <= price prev)%Q /\ structure s = Some LOWER_HIGH)
      end
  | SWING_LOW =>
      match last (filter (fun x => is_low x = true) l1) with
      | None => structure s = None
      | Some prev =>
          ((price prev < price s)%Q /\ structure s = Some HIGHER_LOW) \/
          ((price s <= price prev)%Q /\ structure s = Some LOWER_LOW)
      end
  end.
Proof.
  intros E. destruct (detect_swings_facts use_close c) as (_ & _ & HW).
  specialize (HW l1 s l2 E). unfold expected_structure in HW.
  destruct (swing_type s).
  - destruct (last _) as [prev|]; [|exact HW].
    destruct (Num.gtb (price s) (price prev)) eqn:G.
    + apply NumFacts.gtb_gt in G. auto.
    + right. split; [|exact HW].
      apply Qnot_lt_le. intros H. apply NumFacts.gtb_gt in H. congruence.
  - destruct (last _) as [prev|]; [|exact HW].
    destruct (Num.gtb (price s) (price prev)) eqn:G.
    + apply NumFacts.gtb_gt in G. auto.
    + right. split; [|exact HW].
      apply Qnot_lt_le. intros H. apply NumFacts.gtb_gt in H. congruence.
Qed.

(** A table of twelve bars with two swings, for the witnesses. *)
Lemma swing_price_is_bar_extreme_witness :
  exists s b,
    s ∈ detect_swings true RangesSpec.high_then_low_12 /\
    bars RangesSpec.high_then_low_12 !! index s = Some b /\
    price s = match swing_type s with
              | SWING_HIGH => high b
              | SWING_LOW => low b
              end.
Proof.
  assert (H : exists s rest, detect_swings true RangesSpec.high_then_low_12 = s :: rest)
    by (vm_compute; eauto).
  destruct H as (s & rest & H).
  assert (Hs : s ∈ detect_swings true RangesSpec.high_then_low_12)
    by (rewrite H; apply list_elem_of_here).
  destruct (swing_price_is_bar_extreme true RangesSpec.high_then_low_12 s Hs)
    as (b & Hb & Hp & _).
  exists s, b. auto.
Defined.

Lemma swing_structure_labelling_witness :
  exists s l2,
    detect_swings true BreaksSpec.falling_then_up = [] ++ s :: l2 /\
    structure s = None.
Proof.
  assert (H : exists s rest, detect_swings true BreaksSpec.falling_then_up = [] ++ s :: rest
                             /\ swing_type s = SWING_HIGH)
    by (vm_compute; eauto).
  destruct H as (s & rest & H & Ht).
  pose proof (swing_structure_labelling true BreaksSpec.falling_then_up [] s rest H) as L.
  rewrite Ht in L. simpl in L. exists s, rest. auto.
Defined.

(** *** No repainting on a prefix of the table *)

Lemma loop_app use_close c bs1 bs2 : forall i st,
  loop use_close c i (bs1 ++ bs2) st =
  loop use_close c (i + length bs1) bs2 (loop use_close c i bs1 st).
Proof.
  induction bs1 as [|b bs1 IH]; intros i st; simpl.
  - now rewrite Nat.add_0_r.
  - rewrite IH. now rewrite <- Nat.add_succ_comm.
Qed.

Lemma loop_prefix use_close c bs : forall i st,
  swings st `prefix_of` swings (loop use_close c i bs st).
Proof.
  induction bs as [|b bs IH]; intros i st; simpl; [reflexivity|].
  etransitivity; [apply (SwingsSpec.step_prefix use_close c st i b) | apply IH].
Qed.

Lemma ts_at_iloc_prefix c n k : k < n -> ts_at (iloc_prefix c n) k = ts_at c k.
Proof.
  intros Hk. unfold ts_at, has_timestamps, ts_col, iloc_prefix. simpl.
  now rewrite lookup_take_lt.
Qed.

(** X4.  Swings do not repaint: the swings detected on the first [n] rows
    of a table ([candles.iloc[:n]], what the backtest passes on each bar)
    are a prefix of the swings detected on the whole table. *)
Theorem detect_swings_prefix_stable use_close (c : Table) (n : nat) :
  detect_swings use_close (iloc_prefix c n) `prefix_of` detect_swings use_close c.
Proof.
  destruct (le_lt_dec 3 (len (iloc_prefix c n))) as [Hl|Hl].
  - assert (Hlen : len (iloc_prefix c n) = Nat.min n (len c))
      by (unfold len, iloc_prefix; simpl; apply length_take).
    destruct (bars c) as [|b0 rest] eqn:Hb;
      [unfold len in *; rewrite Hb in Hlen; simpl in *; lia|].
    destruct n as [|n]; [unfold len in *; simpl in *; lia|].
    assert (Hb' : bars (iloc_prefix c (S n)) = b0 :: take n rest)
      by (simpl; now rewrite Hb).
    assert (Hlc : 3 <= len c) by (unfold len in *; lia).
    rewrite (SwingsSpec.detect_swings_loop _ _ _ _ Hb' Hl),
            (SwingsSpec.detect_swings_loop _ _ _ _ Hb Hlc).
    rewrite <- (take_drop n rest) at 2. rewrite loop_app.
    rewrite (SwingsSpec.loop_ext use_close (iloc_prefix c (S n)) c (take n rest) 1 (init b0)).
    + apply loop_prefix.
    + intros k Hk. apply ts_at_iloc_prefix. rewrite length_take in Hk. lia.
    + apply SwingsSpec.swing_init_inv.
  - unfold detect_swings at 1. apply Nat.ltb_lt in Hl. rewrite Hl.
    apply prefix_nil.
Qed.

End SwingsMore.

(** ** Structure breaks: what is returned *)

Module BreaksSound.
Import Candles Swings Breaks BreaksSpec.

(** Every row closes between its low and its high. *)
Definition closes_within (c : Table) : Prop :=
  Forall (fun b => (low b <= close b)%Q /\ (close b <= high b)%Q) (bars c).

(** A break of a detected swing cannot lie on the row of the swing when
    breaks are judged on highs and lows, or when rows close within their
    range: the level of the swing is the high (low) of that row. *)
Lemma break_after_swing_row (self : Detector) (c : Table) (s : SwingPoint) (i : nat) :
  s ∈ detect_major_swings (swing_use_close self) c ->
  use_close self = false \/ closes_within c ->
  (is_high s = true /\ first_break self c (hit_above self s) s i) \/
  (is_low s = true /\ first_break self c (hit_below self s) s i) ->
  index s < i.
Proof.
  intros Hin Hwf Hbreak.
  destruct (SwingsMore.detect_swings_facts (swing_use_close self) c) as (Hfacts & _).
  rewrite Forall_forall in Hfacts.
  destruct (Hfacts s Hin) as (_ & _ & b & Hb & Hprice & _).
  assert (Hle : index s <= i).
  { destruct Hbreak as [[_ (H & _)] | [_ (H & _)]]; lia. }
  destruct (decide (i = index s)) as [->|Hne]; [exfalso | lia].
  assert (Hclose : use_close self = true -> (low b <= close b)%Q /\ (close b <= high b)%Q).
  { intros Hu. destruct Hwf as [Hf | Hwf]; [congruence|].
    unfold closes_within in Hwf. rewrite Forall_forall in Hwf.
    apply Hwf. eapply list_elem_of_lookup_2. exact Hb. }
  destruct Hbreak as [[Hk (_ & (b' & Hb' & Hhit) & _)] | [Hk (_ & (b' & Hb' & Hhit) & _)]];
    rewrite Hb in Hb'; injection Hb' as <-.
  - unfold is_high in Hk. apply bool_decide_eq_true in Hk. rewrite Hk in Hprice.
    unfold hit_above, check_price_above in Hhit. apply NumFacts.gtb_gt in Hhit.
    rewrite Hprice in Hhit.
    destruct (use_close self); [destruct (Hclose eq_refl); lra | lra].
  - unfold is_low in Hk. apply bool_decide_eq_true in Hk. rewrite Hk in Hprice.
    unfold hit_below, check_price_below in Hhit. apply NumFacts.ltb_lt in Hhit.
    rewrite Hprice in Hhit.
    destruct (use_close self); [destruct (Hclose eq_refl); lra | lra].
Qed.

(** C6, as the code has it.  Every break returned by [detect_bos] or
    [detect_msb] breaks a swing of the swing list, at the level of that
    swing, and its row is the first one, from
    [swing.index + confirmation_bars] on, whose price is beyond the level.
    The row is strictly after the swing when [confirmation_bars >= 1], and
    also with [confirmation_bars = 0] when breaks are judged on highs and
    lows or every row closes between its low and its high.  A bullish
    (bearish) BOS breaks a swing high (low) and the most recent swing before
    the break row is HH or HL (LH or LL).  A bullish (bearish) MSB breaks a
    swing high (low) and at least two swings with index strictly between
    [swing.index - 20] and the break row are LH or LL (HH or HL); the
    broken swing and later swings count.  Each detector returns at most
    one break per swing. *)
Theorem structure_breaks_sound (self : Detector) (c : Table) :
  let swings := detect_major_swings (swing_use_close self) c in
  (forall r, r ∈ detect_bos self c ->
     swing_broken r ∈ swings /\
     index (swing_broken r) + confirmation_bars self <= break_index r /\
     (1 <= confirmation_bars self \/ use_close self = false \/ closes_within c ->
      index (swing_broken r) < break_index r) /\
     ((is_high (swing_broken r) = true /\
       break_of self c r BOS_BULLISH (swing_broken r) (hit_above self (swing_broken r)) /\
       last_prior_in swings (break_index r) HIGHER_HIGH HIGHER_LOW) \/
      (is_low (swing_broken r) = true /\
       break_of self c r BOS_BEARISH (swing_broken r) (hit_below self (swing_broken r)) /\
       last_prior_in swings (break_index r) LOWER_HIGH LOWER_LOW))) /\
  (forall r, r ∈ detect_msb self c ->
     swing_broken r ∈ swings /\
     index (swing_broken r) + confirmation_bars self <= break_index r /\
     (1 <= confirmation_bars self \/ use_close self = false \/ closes_within c ->
      index (swing_broken r) < break_index r) /\
     ((is_high (swing_broken r) = true /\
       break_of self c r MSB_BULLISH (swing_broken r) (hit_above self (swing_broken r)) /\
       2 <= regime_count LOWER_HIGH LOWER_LOW (swing_broken r) (break_index r) swings) \/
      (is_low (swing_broken r) = true /\
       break_of self c r MSB_BEARISH (swing_broken r) (hit_below self (swing_broken r)) /\
       2 <= regime_count HIGHER_HIGH HIGHER_LOW (swing_broken r) (break_index r) swings))) /\
  NoDup (swing_broken <$> detect_bos self c) /\
  NoDup (swing_broken <$> detect_msb self c).
Proof.
  intros swings.
  assert (Hshape : forall r t s hit (high_side : bool),
            s ∈ swings ->
            (if high_side then is_high s = true /\ hit = hit_above self s
             else is_low s = true /\ hit = hit_below self s) ->
            break_of self c r t s hit ->
            swing_broken r = s /\
            index s + confirmation_bars self <= break_index r /\
            (1 <= confirmation_bars self \/ use_close self = false \/ closes_within c ->
             index s < break_index r)).
  { intros r t s hit side Hin Hside (_ & Hs & _ & Hfirst).
    split; [exact Hs|]. split; [apply Hfirst|].
    intros [Hconf | Hrest]; [destruct Hfirst as (Hle & _); lia|].
    apply (break_after_swing_row self c s (break_index r) Hin Hrest).
    destruct side; destruct Hside as [Hk ->]; [left | right]; auto. }
  split; [|split; [|split]].
  - intros r Hr. apply detect_with_elem in Hr as [(s & Hin & Hk & Hr) | (s & Hin & Hk & Hr)].
    + apply detect_break_above_spec in Hr as [Hb Hl].
      destruct (Hshape r _ s _ true Hin (conj Hk eq_refl) Hb) as (-> & Hle & Hlt).
      split; [exact Hin|]. split; [exact Hle|]. split; [exact Hlt|]. left. auto.
    + apply detect_break_below_spec in Hr as [Hb Hl].
      destruct (Hshape r _ s _ false Hin (conj Hk eq_refl) Hb) as (-> & Hle & Hlt).
      split; [exact Hin|]. split; [exact Hle|]. split; [exact Hlt|]. right. auto.
  - intros r Hr. apply detect_with_elem in Hr as [(s & Hin & Hk & Hr) | (s & Hin & Hk & Hr)].
    + apply detect_bullish_msb_spec in Hr as [Hb Hl].
      destruct (Hshape r _ s _ true Hin (conj Hk eq_refl) Hb) as (-> & Hle & Hlt).
      split; [exact Hin|]. split; [exact Hle|]. split; [exact Hlt|]. left. auto.
    + apply detect_bearish_msb_spec in Hr as [Hb Hl].
      destruct (Hshape r _ s _ false Hin (conj Hk eq_refl) Hb) as (-> & Hle & Hlt).
      split; [exact Hin|]. split; [exact Hle|]. split; [exact Hlt|]. right. auto.
  - apply detect_with_NoDup; intros s r Hr.
    + now apply detect_break_above_spec in Hr as [(_ & Hs & _) _].
    + now apply detect_break_below_spec in Hr as [(_ & Hs & _) _].
  - apply detect_with_NoDup; intros s r Hr.
    + now apply detect_bullish_msb_spec in Hr as [(_ & Hs & _) _].
    + now apply detect_bearish_msb_spec in Hr as [(_ & Hs & _) _].
Qed.

(** With [confirmation_bars = 0] and breaks judged on closes, a row that
    closes above its own high breaks the swing high it carries: on the
    fourth of these falling rows the close, 77, is above the high, 76. *)
Definition close_above_high : Table :=
  {| bars := [SwingsSpec.ohlc 100 90 95; SwingsSpec.ohlc 96 80 85;
              SwingsSpec.ohlc 86 70 75; SwingsSpec.ohlc 76 60 77;
              SwingsSpec.ohlc 66 50 55];
     has_timestamp := false; has_datetime := false |}.

Lemma break_on_the_swing_row :
  let detector := {| swing_use_close := false; confirmation_bars := 0; use_close := true |} in
  exists r,
    r ∈ detect_msb detector close_above_high /\
    break_type r = MSB_BULLISH /\
    index (swing_broken r) = 3 /\ break_index r = 3.
Proof.
  cbv zeta.
  assert (H : exists r rest,
             detect_msb {| swing_use_close := false; confirmation_bars := 0;
                           use_close := true |} close_above_high = r :: rest /\
             break_type r = MSB_BULLISH /\
             index (swing_broken r) = 3 /\ break_index r = 3).
  { vm_compute. eexists _, _. repeat split; reflexivity. }
  destruct H as (r & rest & Hd & H).
  exists r. split; [rewrite Hd; apply list_elem_of_here | exact H].
Qed.

End BreaksSound.

(** ** More on the range detector *)

Module RangesMore.
Import Candles Swings Ranges Py RangeLevels.

Section CreateRange.
Variable self : RangeDetector.
Variable c : Table.
Variables hs ls : SwingPoint.

(** The tolerance of [_create_range] and its two break tests. *)
Definition tolerance : Q :=
  ((price hs - price ls) * (touch_tolerance_pct self / 100))%Q.
Definition breaks_up (b : Bar) : bool := Num.gtb (high b) (price hs + tolerance).
Definition breaks_down (b : Bar) : bool := Num.ltb (low b) (price ls - tolerance).

(** What a scan over the rows [bs], the first of which is row [i],
    returns. *)
Lemma scan_outcome bs : forall i ht lt,
  let r := scan self c hs ls i bs ht lt in
  r_high r = price hs /\ r_low r = price ls /\
  start_index r = Nat.min (index hs) (index ls) /\
  high_swing r = Some hs /\ low_swing r = Some ls /\
  ht <= high_touches r <= ht + length bs /\
  lt <= low_touches r <= lt + length bs /\
  ((exists k b, bs !! k = Some b /\ end_index r = Some (i + k) /\
                (forall j bj, j < k -> bs !! j = Some bj ->
                              breaks_up bj = false /\ breaks_down bj = false) /\
                ((status r = BROKEN_UP /\ breaks_up b = true) \/
                 (status r = BROKEN_DOWN /\ breaks_up b = false /\ breaks_down b = true)))
   \/
   (end_index r = Some (len c - 1) /\
    Forall (fun b => breaks_up b = false /\ breaks_down b = false) bs /\
    ((status r = CONFIRMED /\ min_touches self <= total_touches r) \/
     (status r = FORMING /\ total_touches r < min_touches self)))).
Proof.
  induction bs as [|b bs IH]; intros i ht lt; cbn zeta.
  - simpl. repeat split; try lia. right. split; [reflexivity|]. split; [constructor|].
    unfold total_touches. simpl.
    destruct (min_touches self <=? ht + lt) eqn:E.
    + apply Nat.leb_le in E. auto.
    + apply Nat.leb_gt in E. auto.
  - cbn [scan]. fold tolerance.
    set (ht' := if Num.geb (high b) _ then S ht else ht).
    set (lt' := if Num.leb (low b) _ then S lt else lt).
    assert (Hht : ht <= ht' <= S ht) by (subst ht'; case_match; lia).
    assert (Hlt : lt <= lt' <= S lt) by (subst lt'; case_match; lia).
    fold (breaks_up b). fold (breaks_down b).
    destruct (breaks_up b) eqn:Eu.
    + simpl. do 7 (split; [try reflexivity; lia|]). left. exists 0, b.
      rewrite Nat.add_0_r. split; [reflexivity|]. split; [reflexivity|].
      split; [intros j bj Hj; lia | auto].
    + destruct (breaks_down b) eqn:Ed.
      * simpl. do 7 (split; [try reflexivity; lia|]). left. exists 0, b.
        rewrite Nat.add_0_r. split; [reflexivity|]. split; [reflexivity|].
        split; [intros j bj Hj; lia | auto].
      * specialize (IH (S i) ht' lt'). cbn zeta in IH.
        destruct IH as (H1 & H2 & H3 & H4 & H5 & H6 & H7 & H8).
        do 5 (split; [assumption|]).
        split; [simpl; lia|]. split; [simpl; lia|].
        destruct H8 as [(k & bk & Hk & He & Hfirst & Hs) | (He & Hall & Hs)].
        -- left. exists (S k), bk. rewrite <- Nat.add_succ_comm.
           split; [exact Hk|]. split; [exact He|]. split; [|exact Hs].
           intros j bj Hj Hbj. destruct j; [injection Hbj as <-; auto|].
           apply (Hfirst j bj); [lia | exact Hbj].
        -- right. split; [exact He|]. split; [|exact Hs].
           constructor; auto.
Qed.
End CreateRange.




(** *** The ranges returned *)

Lemma swings_need_three_bars use_close c :
  detect_swings use_close c <> [] -> 3 <= len c.
Proof.
  unfold detect_swings. destruct (len c <? 3) eqn:E; [congruence|].
  intros _. now apply Nat.ltb_ge in E.
Qed.

Lemma candidate_pair_facts self c hs ls :
  RangesSpec.candidate_pair self c hs ls ->
  hs ∈ detect_swings (use_close self) c /\ ls ∈ detect_swings (use_close self) c /\
  is_high hs = true /\ is_low ls = true /\ index hs < index ls.
Proof.
  unfold RangesSpec.candidate_pair, detect_major_swings. cbv zeta.
  intros (_ & Hin & Hh & Hhead).
  split; [eapply subseteq_take, Hin|].
  apply head_Some_elem_of in Hhead.
  apply list_elem_of_filter in Hhead as [Hlt Hhead].
  apply list_elem_of_filter in Hhead as [Hl Hhead]. auto.
Qed.

(** X6.  Every range returned by [detect_ranges] is built on a swing high
    and a later swing low of the table: they are its [high_swing] and
    [low_swing] and give its bounds, it starts on the swing high, the
    swing low comes at least [min_range_bars] rows after it, and the range
    ends on a row of the table that is not before the swing low. *)
Theorem detected_range_geometry self (c : Table) (r : Range) :
  r ∈ detect_ranges self c ->
  exists hs ls e,
    high_swing r = Some hs /\ low_swing r = Some ls /\
    hs ∈ detect_swings (use_close self) c /\ ls ∈ detect_swings (use_close self) c /\
    is_high hs = true /\ is_low ls = true /\
    r_high r = price hs /\ r_low r = price ls /\
    start_index r = index hs /\
    index hs < index ls /\ index hs + min_range_bars self <= index ls /\
    end_index r = Some e /\ index ls <= e < len c.
Proof.
  intros Hr. apply RangesSpec.detect_ranges_spec in Hr as (hs & ls & Hp & Hc & _).
  apply candidate_pair_facts in Hp as (Hhs & Hls & Hh & Hl & Hlt).
  destruct (SwingsMore.detect_swings_facts (use_close self) c) as (HF & _ & _).
  rewrite Forall_forall in HF. destruct (HF ls Hls) as (Hl1 & Hl2 & _).
  revert Hc. unfold _create_range. case_match eqn:Hmin; [discriminate|]. intros [= <-].
  apply Nat.ltb_ge in Hmin.
  replace (Nat.max (index hs) (index ls)) with (index ls) in * by lia.
  replace (Nat.min (index hs) (index ls)) with (index hs) in * by lia.
  set (rows := take (max_range_bars self) (drop (index ls) (bars c))).
  pose proof (scan_outcome self c hs ls rows (index ls) 0 0) as Hsc. cbn zeta in Hsc.
  destruct Hsc as (H1 & H2 & H3 & H4 & H5 & _ & _ & H8).
  assert (He : exists e, end_index (scan self c hs ls (index ls) rows 0 0) = Some e /\
                         index ls <= e < len c).
  { destruct H8 as [(k & b & Hk & He & _) | (He & _)].
    - exists (index ls + k). split; [exact He|].
      subst rows. apply lookup_take_Some in Hk as [Hk _].
      rewrite lookup_drop in Hk. apply lookup_lt_Some in Hk. unfold len. lia.
    - exists (len c - 1). split; [exact He | lia]. }
  destruct He as (e & He & Hb).
  exists hs, ls, e.
  split; [exact H4|]. split; [exact H5|].
  split; [exact Hhs|]. split; [exact Hls|].
  split; [exact Hh|]. split; [exact Hl|].
  split; [exact H1|]. split; [exact H2|].
  split; [rewrite H3; lia|]. split; [exact Hlt|]. split; [lia|].
  split; [exact He | exact Hb].
Qed.

(** The table of [RangesSpec.high_then_low_12] with one more row, which
    touches the high once more and closes on the 75% level: the range is
    returned, Confirmed. *)
Definition range_13 : Table :=
  {| bars := bars RangesSpec.high_then_low_12 ++ [SwingsSpec.ohlc 100 84 (925 # 10)];
     has_timestamp := false; has_datetime := false |}.

Lemma detected_range_geometry_witness :
  exists r hs ls,
    r ∈ detect_ranges RANGE_DETECTOR_DEFAULT range_13 /\
    high_swing r = Some hs /\ low_swing r = Some ls /\
    index hs + min_range_bars RANGE_DETECTOR_DEFAULT <= index ls.
Proof.
  assert (H : exists r rest, detect_ranges RANGE_DETECTOR_DEFAULT range_13 = r :: rest)
    by (vm_compute; eauto).
  destruct H as (r & rest & H).
  assert (Hr : r ∈ detect_ranges RANGE_DETECTOR_DEFAULT range_13)
    by (rewrite H; apply list_elem_of_here).
  destruct (detected_range_geometry RANGE_DETECTOR_DEFAULT range_13 r Hr)
    as (hs & ls & e & H1 & H2 & _ & _ & _ & _ & _ & _ & _ & _ & H3 & _).
  exists r, hs, ls. auto.
Defined.

(** *** Levels by percentage *)

Lemma quarter_steps :
  (Float64.div 0 100 == 0)%Q /\ (Float64.div 25 100 == 1 # 4)%Q /\
  (Float64.div 50 100 == 1 # 2)%Q /\ (Float64.div 75 100 == 3 # 4)%Q /\
  (Float64.div 100 100 == 1)%Q.
Proof. repeat split; apply Qeq_bool_eq; vm_compute; reflexivity. Qed.

(** X8.  [get_level] on doubles, for a range whose low and high are
    finite doubles with [low <= high] and a difference in the range of the
    doubles.  At 0, 25, 50 and 75 percent it is [fib_0], [fib_25],
    [fib_50], [fib_75]; at 100 percent it is [low + (high - low)], which
    need not be the high.  It is monotone in the percentage: a percentage
    between 0 and 100 gives a level between the low and the level of 100
    percent, and a percentage between 0 and 75 a level that is at most the
    high. *)
Theorem get_level_named_and_monotone (f : FibLevels) :
  Float64Facts.is_double (range_low f) -> Float64Facts.is_double (range_high f) ->
  (range_low f <= range_high f)%Q ->
  (range_high f - range_low f <= Float64.max_double)%Q ->
  (get_level f 0 == fib_0 f)%Q /\ (get_level f 25 == fib_25 f)%Q /\
  (get_level f 50 == fib_50 f)%Q /\ (get_level f 75 == fib_75 f)%Q /\
  (get_level f 100 ==
     Float64.add (range_low f) (Float64.sub (range_high f) (range_low f)))%Q /\
  (forall p q, (p <= q)%Q -> (get_level f p <= get_level f q)%Q) /\
  (forall p, (0 <= p)%Q -> (p <= 100)%Q ->
             (range_low f <= get_level f p)%Q /\ (get_level f p <= get_level f 100)%Q) /\
  (forall p, (0 <= p)%Q -> (p <= 75)%Q -> (get_level f p <= range_high f)%Q).
Proof.
  intros [El _] [Eh _] Hlh _.
  destruct quarter_steps as (Q0 & Q25 & Q50 & Q75 & Q100).
  unfold get_level, fib_0, fib_25, fib_50, fib_75.
  set (l := range_low f) in *. set (h := range_high f) in *.
  set (d := Float64.sub h l).
  assert (Hd : (0 <= d)%Q) by (apply Float64Facts.round64_nonneg; lra).
  assert (Hmono : forall p q, (p <= q)%Q ->
            (Float64.add l (Float64.mul d (Float64.div p 100)) <=
             Float64.add l (Float64.mul d (Float64.div q 100)))%Q).
  { intros p q Hpq. unfold Float64.add, Float64.mul, Float64.div.
    apply Float64Facts.round64_mono.
    assert (H : (Float64.round64 (d * Float64.round64 (p / 100)) <=
                 Float64.round64 (d * Float64.round64 (q / 100)))%Q).
    { apply Float64Facts.round64_mono. rewrite !(Qmult_comm d).
      apply Qmult_le_compat_r; [|exact Hd].
      apply Float64Facts.round64_mono. unfold Qdiv.
      apply Qmult_le_compat_r; [exact Hpq | discriminate]. }
    lra. }
  assert (Hzero : (Float64.add l (Float64.mul d (Float64.div 0 100)) == l)%Q).
  { unfold Float64.add, Float64.mul.
    rewrite (Float64Facts.round64_comp (d * Float64.div 0 100) 0) by (rewrite Q0; ring).
    rewrite Float64Facts.round64_0.
    rewrite (Float64Facts.round64_comp (l + 0) l) by ring. exact El. }
  split; [exact Hzero|].
  split.
  { unfold Float64.add, Float64.mul.
    now rewrite (Float64Facts.round64_comp (d * Float64.div 25 100) (d * (1 # 4)))
      by (now rewrite Q25). }
  split.
  { unfold Float64.add, Float64.mul.
    now rewrite (Float64Facts.round64_comp (d * Float64.div 50 100) (d * (1 # 2)))
      by (now rewrite Q50). }
  split.
  { unfold Float64.add, Float64.mul.
    now rewrite (Float64Facts.round64_comp (d * Float64.div 75 100) (d * (3 # 4)))
      by (now rewrite Q75). }
  split.
  { unfold Float64.add, Float64.mul at 1.
    rewrite (Float64Facts.round64_comp (d * Float64.div 100 100) d) by (rewrite Q100; ring).
    assert (Ed : (Float64.round64 d == d)%Q).
    { unfold d, Float64.sub. set (x := (h - l)%Q).
      unfold Float64.round64 at 1.
      rewrite (Float64Facts.round53_comp _ (inject_Z (Float64.round53 (x * inject_Z Float64.scale))))
        by (unfold Float64.round64; field; apply Float64Facts.scale_neq).
      rewrite Float64Facts.round53_idem. reflexivity. }
    now rewrite Ed. }
  split; [exact Hmono|].
  split.
  { intros p Hp0 Hp1. split.
    - rewrite <- Hzero at 1. now apply Hmono.
    - now apply Hmono. }
  intros p Hp0 Hp1. unfold Float64.add.
  apply Float64Facts.round64_exact_le; [exact Eh|].
  assert (Hk : (Float64.div p 100 <= 3 # 4)%Q).
  { rewrite <- Q75. unfold Float64.div. apply Float64Facts.round64_mono.
    unfold Qdiv. apply Qmult_le_compat_r; [exact Hp1 | discriminate]. }
  assert (Hk0 : (0 <= Float64.div p 100)%Q).
  { apply Float64Facts.round64_nonneg. unfold Qdiv.
    apply Qmult_le_0_compat; [exact Hp0 | discriminate]. }
  pose proof (Float64Facts.round64_part l h (Float64.div p 100) El Eh Hlh Hk0 Hk) as Hp.
  unfold Float64.mul, d, Float64.sub. lra.
Qed.

(** At 8.8 and 42.21 the level of 100 percent is 42.209999999999994,
    below the high; at 0.29 and 0.85 it is 0.8500000000000001, above it. *)
Lemma get_level_named_and_monotone_witness :
  Float64Facts.is_double (range_low (fib FibSpec.range_8_42)) /\
  (get_level (fib FibSpec.range_8_42) 50 == fib_50 (fib FibSpec.range_8_42))%Q /\
  (get_level (fib FibSpec.range_8_42) 100 ==
     Float64.round64 (42209999999999994 # 1000000000000000))%Q /\
  (get_level (fib FibSpec.range_8_42) 100 < fib_100 (fib FibSpec.range_8_42))%Q /\
  (Float64.round64 (85 # 100) <
   get_level {| range_low := Float64.round64 (29 # 100);
                range_high := Float64.round64 (85 # 100) |} 100)%Q.
Proof.
  assert (Hd : forall x, Qeq_bool (Float64.round64 x) x = true ->
                         Qle_bool (Qabs x) Float64.max_double = true ->
                         Float64Facts.is_double x).
  { intros x H1 H2. split; [now apply Qeq_bool_eq | now apply Qle_bool_iff]. }
  assert (H1 : Float64Facts.is_double (range_low (fib FibSpec.range_8_42)))
    by (apply Hd; vm_compute; reflexivity).
  assert (H2 : Float64Facts.is_double (range_high (fib FibSpec.range_8_42)))
    by (apply Hd; vm_compute; reflexivity).
  assert (H3 : (range_low (fib FibSpec.range_8_42) <= range_high (fib FibSpec.range_8_42))%Q)
    by (apply Qle_bool_iff; vm_compute; reflexivity).
  assert (H4 : (range_high (fib FibSpec.range_8_42) - range_low (fib FibSpec.range_8_42)
                <= Float64.max_double)%Q)
    by (apply Qle_bool_iff; vm_compute; reflexivity).
  pose proof (get_level_named_and_monotone (fib FibSpec.range_8_42) H1 H2 H3 H4)
    as (_ & _ & H50 & _).
  split; [exact H1|]. split; [exact H50|].
  split; [apply Qeq_bool_eq; vm_compute; reflexivity|].
  split; apply Qlt_alt; vm_compute; reflexivity.
Defined.

(** *** [is_at_75_level] and [is_at_25_level] *)

Lemma current_range_confirmed self c R :
  detect_current_range self c = Some R ->
  R ∈ detect_ranges self c /\ status R = CONFIRMED /\ 3 <= len c.
Proof.
  intros HR. unfold detect_current_range, last_of in HR.
  apply last_Some_elem_of in HR. apply list_elem_of_filter in HR as [Ha Hin].
  split; [exact Hin|].
  pose proof Hin as Hin'.
  apply RangesSpec.detect_ranges_spec in Hin' as (hs & ls & Hp & Hc & Ht).
  split.
  - unfold is_active in Ha. apply orb_true_iff in Ha as [Ha|Ha];
      apply bool_decide_eq_true in Ha; [|exact Ha].
    pose proof (RangesSpec.create_range_forming self c hs ls R Hc Ha). lia.
  - apply candidate_pair_facts in Hp as (Hhs & _).
    apply (swings_need_three_bars (use_close self)). intros E. rewrite E in Hhs.
    inversion Hhs.
Qed.

(** X9.  [is_at_75_level] and [is_at_25_level] never raise: they read the
    last close only when there is a current range, and then the table has
    rows.  They return the current range together with the flag, and the
    flag is set only if there is a current range, it is Confirmed, and the
    last close is at its level. *)
Theorem level_checks_never_raise self (c : Table) (tol : Q) :
  (exists flag, is_at_75_level self c tol = Ok (flag, detect_current_range self c) /\
     (flag = true ->
      exists R bl, detect_current_range self c = Some R /\ status R = CONFIRMED /\
                   last (bars c) = Some bl /\ at_75_level R (close bl) tol = true)) /\
  (exists flag, is_at_25_level self c tol = Ok (flag, detect_current_range self c) /\
     (flag = true ->
      exists R bl, detect_current_range self c = Some R /\ status R = CONFIRMED /\
                   last (bars c) = Some bl /\ at_25_level R (close bl) tol = true)).
Proof.
  unfold is_at_75_level, is_at_25_level.
  destruct (detect_current_range self c) as [R|] eqn:HR.
  - apply current_range_confirmed in HR as (_ & Hs & Hlen).
    destruct (last (bars c)) as [bl|] eqn:Hl.
    + split; eexists; (split; [reflexivity|]); intros Hf; exists R, bl; auto.
    + apply last_None in Hl. unfold len in Hlen. rewrite Hl in Hlen. simpl in Hlen. lia.
  - split; exists false; (split; [reflexivity | discriminate]).
Qed.

End RangesMore.

(** ** More on sorting *)

Module SortingMore.
Import Sorting SortingFacts.

Section ByKey.
Context {A : Type} (key : A -> nat).

Lemma insert_by_keeps_sorted s l : sorted key l -> sorted key (insert_by key s l).
Proof.
  unfold sorted. induction 1 as [|x l Hl IH Hx]; simpl.
  - repeat constructor.
  - destruct (key s <? key x) eqn:E.
    + apply Nat.ltb_lt in E. constructor; [now constructor|].
      constructor; [lia|]. eapply Forall_impl; [exact Hx|]. simpl. lia.
    + apply Nat.ltb_ge in E. constructor; [exact IH|].
      rewrite (insert_by_perm key s l). constructor; assumption.
Qed.

Lemma fold_insert_keeps_sorted l : forall acc,
  sorted key acc -> sorted key (fold_left (fun acc s => insert_by key s acc) l acc).
Proof.
  induction l as [|s l IH]; intros acc Hacc; simpl; [exact Hacc|].
  apply IH, insert_by_keeps_sorted, Hacc.
Qed.

(** What [list.sort(key=...)] returns is sorted. *)
Lemma sort_by_is_sorted l : sorted key (sort_by key l).
Proof. apply fold_insert_keeps_sorted. constructor. Qed.

(** The last element of a sorted list carries the largest key. *)
Lemma sorted_last_max l x :
  sorted key l -> last l = Some x -> forall y, y ∈ l -> key y <= key x.
Proof.
  unfold sorted. induction 1 as [|a l Hl IH Ha]; [discriminate|].
  intros Hlast y Hy. destruct l as [|b l].
  - injection Hlast as <-. apply list_elem_of_singleton in Hy as ->. lia.
  - rewrite last_cons_cons in Hlast. apply elem_of_cons in Hy as [->|Hy].
    + rewrite Forall_forall in Ha. apply Ha. now apply last_Some_elem_of.
    + now apply IH.
Qed.

(** The sort is stable: sorting commutes with taking a sublist by a
    predicate. *)
Lemma insert_by_first s l :
  Forall (fun y => key s < key y) l -> insert_by key s l = s :: l.
Proof.
  destruct 1 as [|x l Hx _]; simpl; [reflexivity|].
  apply Nat.ltb_lt in Hx. now rewrite Hx.
Qed.

Lemma filter_insert_by (P : A -> Prop) `{!forall x, Decision (P x)} s l :
  sorted key l ->
  filter P (insert_by key s l) =
    if decide (P s) then insert_by key s (filter P l) else filter P l.
Proof.
  unfold sorted. induction 1 as [|x l Hl IH Hx]; simpl.
  - rewrite filter_cons, filter_nil. now destruct (decide (P s)).
  - destruct (key s <? key x) eqn:E.
    + apply Nat.ltb_lt in E. rewrite (filter_cons _ s).
      destruct (decide (P s)); [|reflexivity].
      rewrite insert_by_first; [reflexivity|].
      apply Forall_forall. intros y Hy. apply list_elem_of_filter in Hy as [_ Hy].
      apply elem_of_cons in Hy as [->|Hy]; [exact E|].
      rewrite Forall_forall in Hx. specialize (Hx y Hy). lia.
    + rewrite (filter_cons _ x), IH, (filter_cons _ x).
      destruct (decide (P s)), (decide (P x)); simpl; try reflexivity.
      now rewrite E.
Qed.

Lemma filter_fold_insert (P : A -> Prop) `{!forall x, Decision (P x)} l : forall acc,
  sorted key acc ->
  filter P (fold_left (fun acc s => insert_by key s acc) l acc) =
  fold_left (fun acc s => insert_by key s acc) (filter P l) (filter P acc).
Proof.
  induction l as [|s l IH]; intros acc Hacc; simpl; [reflexivity|].
  rewrite IH by now apply insert_by_keeps_sorted.
  rewrite filter_insert_by by exact Hacc.
  rewrite (filter_cons _ s). now destruct (decide (P s)).
Qed.

Lemma filter_sort_by (P : A -> Prop) `{!forall x, Decision (P x)} l :
  filter P (sort_by key l) = sort_by key (filter P l).
Proof. unfold sort_by. rewrite filter_fold_insert; [reflexivity | constructor]. Qed.
End ByKey.

End SortingMore.

(** ** More on structure breaks *)

Module BreaksMore.
Import Candles Swings Breaks BreakQueries.

Section Detector.
Variable self : Detector.
Variable c : Table.

(** A break returned for a swing is the record built on the first row
    that breaks its level. *)
Definition recorded (r : StructureBreak) (t : BreakType) (swing : SwingPoint)
    (hit : Bar -> bool) : Prop :=
  exists i b, bars c !! i = Some b /\ hit b = true /\ r = mk c t i b swing.

Lemma detect_break_above_record swing all r :
  _detect_break_above self c swing all = Some r ->
  recorded r BOS_BULLISH swing (BreaksSpec.hit_above self swing).
Proof.
  unfold _detect_break_above. intros H.
  apply BreaksSpec.scan_spec in H as (i & b & (_ & (b' & Hb' & Hh) & _) & Hb & Hd).
  unfold last_of in Hd. repeat case_match; try discriminate.
  injection Hd as <-. exists i, b. split; [exact Hb|]. split; [|reflexivity].
  rewrite Hb in Hb'. now injection Hb' as ->.
Qed.

Lemma detect_break_below_record swing all r :
  _detect_break_below self c swing all = Some r ->
  recorded r BOS_BEARISH swing (BreaksSpec.hit_below self swing).
Proof.
  unfold _detect_break_below. intros H.
  apply BreaksSpec.scan_spec in H as (i & b & (_ & (b' & Hb' & Hh) & _) & Hb & Hd).
  unfold last_of in Hd. repeat case_match; try discriminate.
  injection Hd as <-. exists i, b. split; [exact Hb|]. split; [|reflexivity].
  rewrite Hb in Hb'. now injection Hb' as ->.
Qed.

Lemma detect_bullish_msb_record swing all r :
  _detect_bullish_msb self c swing all = Some r ->
  recorded r MSB_BULLISH swing (BreaksSpec.hit_above self swing).
Proof.
  unfold _detect_bullish_msb. intros H.
  apply BreaksSpec.scan_spec in H as (i & b & (_ & (b' & Hb' & Hh) & _) & Hb & Hd).
  repeat case_match; try discriminate.
  injection Hd as <-. exists i, b. split; [exact Hb|]. split; [|reflexivity].
  rewrite Hb in Hb'. now injection Hb' as ->.
Qed.

Lemma detect_bearish_msb_record swing all r :
  _detect_bearish_msb self c swing all = Some r ->
  recorded r MSB_BEARISH swing (BreaksSpec.hit_below self swing).
Proof.
  unfold _detect_bearish_msb. intros H.
  apply BreaksSpec.scan_spec in H as (i & b & (_ & (b' & Hb' & Hh) & _) & Hb & Hd).
  repeat case_match; try discriminate.
  injection Hd as <-. exists i, b. split; [exact Hb|]. split; [|reflexivity].
  rewrite Hb in Hb'. now injection Hb' as ->.
Qed.

(** The four shapes a returned break can have. *)
Lemma detect_bos_record r :
  r ∈ detect_bos self c ->
  exists s, s ∈ detect_swings (swing_use_close self) c /\
    ((is_high s = true /\ recorded r BOS_BULLISH s (BreaksSpec.hit_above self s)) \/
     (is_low s = true /\ recorded r BOS_BEARISH s (BreaksSpec.hit_below self s))).
Proof.
  intros Hr. apply BreaksSpec.detect_with_elem in Hr as [(s & Hin & Hk & Hr) | (s & Hin & Hk & Hr)];
    exists s; (split; [exact Hin|]).
  - left. split; [exact Hk|]. now apply detect_break_above_record in Hr.
  - right. split; [exact Hk|]. now apply detect_break_below_record in Hr.
Qed.

Lemma detect_msb_record r :
  r ∈ detect_msb self c ->
  exists s, s ∈ detect_swings (swing_use_close self) c /\
    ((is_high s = true /\ recorded r MSB_BULLISH s (BreaksSpec.hit_above self s)) \/
     (is_low s = true /\ recorded r MSB_BEARISH s (BreaksSpec.hit_below self s))).
Proof.
  intros Hr. apply BreaksSpec.detect_with_elem in Hr as [(s & Hin & Hk & Hr) | (s & Hin & Hk & Hr)];
    exists s; (split; [exact Hin|]).
  - left. split; [exact Hk|]. now apply detect_bullish_msb_record in Hr.
  - right. split; [exact Hk|]. now apply detect_bearish_msb_record in Hr.
Qed.

Lemma is_high_low s : is_high s = true -> is_low s = false.
Proof.
  intros H. destruct (is_low s) eqn:E; [|reflexivity].
  destruct (BreaksSpec.high_not_low s H E).
Qed.

Lemma is_low_high s : is_low s = true -> is_high s = false.
Proof.
  intros H. destruct (is_high s) eqn:E; [|reflexivity].
  destruct (BreaksSpec.high_not_low s E H).
Qed.

(** X10.  A break returned by [detect_bos] or [detect_msb] records the
    candle that made it: [break_index] is a row of the table,
    [break_candle_close] is the close of that row, the timestamp is that of
    the row when the table has a 'timestamp' column and [None] otherwise,
    and no retest is recorded.  [detect_bos] returns only BOS breaks and
    [detect_msb] only MSB breaks; a break is bullish exactly when the swing
    it broke is a swing high, bearish exactly when it is a swing low.  When
    the detector compares closes, the close of a bullish break lies strictly
    above the broken level, that of a bearish break strictly below. *)
Theorem break_records_its_candle (r : StructureBreak) :
  r ∈ detect_bos self c \/ r ∈ detect_msb self c ->
  (exists b, bars c !! break_index r = Some b /\
             break_candle_close r = close b /\
             b_timestamp r = (if has_timestamp c then Some (to_datetime (timestamp b))
                              else None)) /\
  break_index r < len c /\
  has_retest r = false /\ retest_price r = None /\
  break_price r = price (swing_broken r) /\
  is_bullish r = is_high (swing_broken r) /\
  is_bearish r = is_low (swing_broken r) /\
  (r ∈ detect_bos self c -> is_bos r = true /\ is_msb r = false) /\
  (r ∈ detect_msb self c -> is_msb r = true /\ is_bos r = false) /\
  (use_close self = true ->
   if is_bullish r then (break_price r < break_candle_close r)%Q
   else (break_candle_close r < break_price r)%Q).
Proof.
  intros Hr.
  assert (H : exists s t hit,
             recorded r t s hit /\
             ((is_high s = true /\ hit = BreaksSpec.hit_above self s /\
               (t = BOS_BULLISH \/ t = MSB_BULLISH)) \/
              (is_low s = true /\ hit = BreaksSpec.hit_below self s /\
               (t = BOS_BEARISH \/ t = MSB_BEARISH))) /\
             ((r ∈ detect_bos self c -> t = BOS_BULLISH \/ t = BOS_BEARISH) /\
              (r ∈ detect_msb self c -> t = MSB_BULLISH \/ t = MSB_BEARISH))).
  { assert (Hty : forall t s hit, recorded r t s hit -> break_type r = t)
      by (intros t s hit (i & b & _ & _ & ->); reflexivity).
    assert (Hb : r ∈ detect_bos self c -> break_type r = BOS_BULLISH \/ break_type r = BOS_BEARISH).
    { intros Hb. apply detect_bos_record in Hb as (s & _ & [[_ Hs]|[_ Hs]]);
        apply Hty in Hs; auto. }
    assert (Hm : r ∈ detect_msb self c -> break_type r = MSB_BULLISH \/ break_type r = MSB_BEARISH).
    { intros Hm. apply detect_msb_record in Hm as (s & _ & [[_ Hs]|[_ Hs]]);
        apply Hty in Hs; auto. }
    destruct Hr as [Hr|Hr].
    - apply detect_bos_record in Hr as (s & _ & [[Hk Hs]|[Hk Hs]]);
        pose proof (Hty _ _ _ Hs) as Ht; eexists s, _, _; (split; [exact Hs|]);
        (split; [auto 10|]); split; intros H';
        [specialize (Hb H') | specialize (Hm H') | specialize (Hb H') | specialize (Hm H')];
        rewrite Ht in *; intuition congruence.
    - apply detect_msb_record in Hr as (s & _ & [[Hk Hs]|[Hk Hs]]);
        pose proof (Hty _ _ _ Hs) as Ht; eexists s, _, _; (split; [exact Hs|]);
        (split; [auto 10|]); split; intros H';
        [specialize (Hb H') | specialize (Hm H') | specialize (Hb H') | specialize (Hm H')];
        rewrite Ht in *; intuition congruence. }
  destruct H as (s & t & hit & (i & b & Hb & Hhit & ->) & Hkind & Hbos & Hmsb).
  cbn [mk break_index break_candle_close b_timestamp retest_price break_price swing_broken].
  split; [exists b; auto|].
  split; [apply lookup_lt_Some in Hb; exact Hb|].
  split; [reflexivity|]. split; [reflexivity|]. split; [reflexivity|].
  unfold is_bullish, is_bearish, is_bos, is_msb. cbn [mk break_type].
  destruct Hkind as [(Hk & -> & Ht) | (Hk & -> & Ht)].
  - rewrite Hk, (is_high_low s Hk).
    assert (Hbull : bool_decide (t = BOS_BULLISH) || bool_decide (t = MSB_BULLISH) = true)
      by (destruct Ht as [-> | ->]; reflexivity).
    rewrite Hbull.
    split; [reflexivity|]. split; [destruct Ht as [-> | ->]; reflexivity|].
    split; [intros H; destruct (Hbos H) as [-> | ->]; auto|].
    split; [intros H; destruct (Hmsb H) as [-> | ->]; auto|].
    intros Hu. unfold BreaksSpec.hit_above, check_price_above in Hhit.
    rewrite Hu in Hhit. now apply NumFacts.gtb_gt in Hhit.
  - rewrite Hk, (is_low_high s Hk).
    assert (Hbull : bool_decide (t = BOS_BULLISH) || bool_decide (t = MSB_BULLISH) = false)
      by (destruct Ht as [-> | ->]; reflexivity).
    rewrite Hbull.
    split; [reflexivity|]. split; [destruct Ht as [-> | ->]; reflexivity|].
    split; [intros H; destruct (Hbos H) as [-> | ->]; auto|].
    split; [intros H; destruct (Hmsb H) as [-> | ->]; auto|].
    intros Hu. unfold BreaksSpec.hit_below, check_price_below in Hhit.
    rewrite Hu in Hhit. now apply NumFacts.ltb_lt in Hhit.
Qed.

Lemma detect_with_sorted min_swings above below :
  SortingFacts.sorted break_index (detect_with self c min_swings above below).
Proof.
  unfold detect_with. cbv zeta. case_match; [constructor|].
  apply SortingMore.sort_by_is_sorted.
Qed.

(** X11.  [detect_bos] and [detect_msb] return their breaks in
    non-decreasing order of [break_index]; [detect_latest_bos]
    ([detect_latest_msb]) is [None] exactly when the list is empty, and
    otherwise returns a break of the list that no other break of the list
    follows. *)
Theorem breaks_sorted_and_latest :
  StronglySorted (fun a b => break_index a <= break_index b) (detect_bos self c) /\
  StronglySorted (fun a b => break_index a <= break_index b) (detect_msb self c) /\
  (detect_latest_bos self c = None <-> detect_bos self c = []) /\
  (detect_latest_msb self c = None <-> detect_msb self c = []) /\
  (forall r, detect_latest_bos self c = Some r ->
     r ∈ detect_bos self c /\
     forall r', r' ∈ detect_bos self c -> break_index r' <= break_index r) /\
  (forall r, detect_latest_msb self c = Some r ->
     r ∈ detect_msb self c /\
     forall r', r' ∈ detect_msb self c -> break_index r' <= break_index r).
Proof.
  pose proof (detect_with_sorted 2 (_detect_break_above self c) (_detect_break_below self c))
    as Hb.
  pose proof (detect_with_sorted 3 (_detect_bullish_msb self c) (_detect_bearish_msb self c))
    as Hm.
  fold (detect_bos self c) in Hb. fold (detect_msb self c) in Hm.
  unfold detect_latest_bos, detect_latest_msb, last_of.
  split; [exact Hb|]. split; [exact Hm|].
  split; [apply last_None|]. split; [apply last_None|].
  split; intros r Hr; (split; [now apply last_Some_elem_of|]).
  - now apply (SortingMore.sorted_last_max break_index (detect_bos self c)).
  - now apply (SortingMore.sorted_last_max break_index (detect_msb self c)).
Qed.
End Detector.

Lemma break_records_its_candle_witness :
  exists r,
    (r ∈ detect_bos DETECTOR_DEFAULT BreaksSpec.falling_then_up \/
     r ∈ detect_msb DETECTOR_DEFAULT BreaksSpec.falling_then_up) /\
    break_index r < len BreaksSpec.falling_then_up /\
    is_bullish r = is_high (swing_broken r).
Proof.
  assert (H : exists r rest, detect_msb DETECTOR_DEFAULT BreaksSpec.falling_then_up = r :: rest)
    by (vm_compute; eauto).
  destruct H as (r & rest & H).
  assert (Hr : r ∈ detect_bos DETECTOR_DEFAULT BreaksSpec.falling_then_up \/
               r ∈ detect_msb DETECTOR_DEFAULT BreaksSpec.falling_then_up)
    by (right; rewrite H; apply list_elem_of_here).
  destruct (break_records_its_candle DETECTOR_DEFAULT BreaksSpec.falling_then_up r Hr)
    as (_ & H1 & _ & _ & _ & H2 & _).
  exists r. auto.
Defined.

(** *** All breaks at once *)

Lemma filter_all (P : StructureBreak -> Prop) `{!forall x, Decision (P x)}
    (l : list StructureBreak) :
  (forall x, x ∈ l -> P x) -> filter P l = l.
Proof.
  induction l as [|x l IH]; intros Hall; [reflexivity|].
  rewrite filter_cons_True by (apply Hall; left). f_equal. apply IH.
  intros y Hy. apply Hall. now right.
Qed.

Lemma filter_none (P : StructureBreak -> Prop) `{!forall x, Decision (P x)}
    (l : list StructureBreak) :
  (forall x, x ∈ l -> ~ P x) -> filter P l = [].
Proof.
  induction l as [|x l IH]; intros Hall; [reflexivity|].
  rewrite filter_cons_False by (apply Hall; left). apply IH.
  intros y Hy. apply Hall. now right.
Qed.

Lemma bos_kind self c r : r ∈ detect_bos self c -> is_bos r = true /\ is_msb r = false.
Proof.
  intros Hr. apply detect_bos_record in Hr as (s & _ & [[_ Hs]|[_ Hs]]);
    destruct Hs as (i & b & _ & _ & ->); split; reflexivity.
Qed.

Lemma msb_kind self c r : r ∈ detect_msb self c -> is_msb r = true /\ is_bos r = false.
Proof.
  intros Hr. apply detect_msb_record in Hr as (s & _ & [[_ Hs]|[_ Hs]]);
    destruct Hs as (i & b & _ & _ & ->); split; reflexivity.
Qed.

(** X12.  [detect_all_structure_breaks] returns the breaks of the two
    default detectors, nothing else and none twice over, in
    non-decreasing order of [break_index]; the BOS breaks appear in it in
    the order [detect_bos] gives them, and the MSB breaks in the order
    [detect_msb] gives them. *)
Theorem all_breaks_merge_both_lists (c : Table) :
  Permutation (detect_all_structure_breaks c)
    (detect_bos DETECTOR_DEFAULT c ++ detect_msb DETECTOR_DEFAULT c) /\
  StronglySorted (fun a b => break_index a <= break_index b)
    (detect_all_structure_breaks c) /\
  filter (fun r => is_bos r = true) (detect_all_structure_breaks c)
    = detect_bos DETECTOR_DEFAULT c /\
  filter (fun r => is_msb r = true) (detect_all_structure_breaks c)
    = detect_msb DETECTOR_DEFAULT c.
Proof.
  unfold detect_all_structure_breaks. cbv zeta.
  split; [apply SortingFacts.sort_by_perm|].
  split; [apply SortingMore.sort_by_is_sorted|].
  rewrite !SortingMore.filter_sort_by, !filter_app.
  split.
  - rewrite (filter_all _ (detect_bos _ c)) by (intros x Hx; now apply bos_kind in Hx).
    rewrite (filter_none _ (detect_msb _ c))
      by (intros x Hx; apply msb_kind in Hx as [_ ->]; discriminate).
    rewrite app_nil_r. apply SortingFacts.sort_by_sorted, detect_with_sorted.
  - rewrite (filter_none _ (detect_bos _ c))
      by (intros x Hx; apply bos_kind in Hx as [_ ->]; discriminate).
    rewrite (filter_all _ (detect_msb _ c)) by (intros x Hx; now apply msb_kind in Hx).
    apply SortingFacts.sort_by_sorted, detect_with_sorted.
Qed.

(** *** Retests *)



End BreaksMore.

(** ** More on the backtest driver *)

Module BacktestMore.
Import Candles Py Backtest BacktestMetrics.

Lemma gtb_ngt a b : Num.gtb a b = false <-> (a <= b)%Q.
Proof.
  rewrite <- not_true_iff_false, NumFacts.gtb_gt. split.
  - apply Qnot_lt_le.
  - intros H H'. exact (Qlt_not_le _ _ H' H).
Qed.

(** [sum(t.pnl for t in trades)] *)
Definition sum_pnl (l : list BacktestTrade) : Q := fold_left Qplus (pnl <$> l) 0%Q.

Lemma sum_pnl_snoc l t : sum_pnl (l ++ [t]) = (sum_pnl l + pnl t)%Q.
Proof. unfold sum_pnl. now rewrite fmap_app, fold_left_app. Qed.

(** A trade of the ledger follows the trades before it: it was entered
    on or after the bar on which each of them was closed. *)
Definition chronological (l : list BacktestTrade) : Prop :=
  StronglySorted (fun a b => exists e, exit_bar a = Some e /\ e <= entry_bar b) l.

Lemma chronological_snoc l t :
  chronological l ->
  Forall (fun a => exists e, exit_bar a = Some e /\ e <= entry_bar t) l ->
  chronological (l ++ [t]).
Proof.
  unfold chronological. induction 1 as [|a l Hl IH Ha]; intros Hall; simpl.
  - repeat constructor.
  - inversion Hall; subst. constructor; [now apply IH|].
    apply Forall_app. split; [exact Ha|]. now repeat constructor.
Qed.

Section Run.
Context {System : Type}.
Variable sys_name : System -> string.
Variable sys_timeframe : System -> string.
Variable generate_signals : System -> Table -> string -> Q -> list Signal.
Variable now : nat -> Time.
Variable self : BacktestEngine.
Variable system : System.
Variable candles : Table.
Variable sym : string.

(** A trade closed by the loop before bar [ix]. *)
Definition closed_before (ix : nat) (t : BacktestTrade) : Prop :=
  is_open t = false /\
  exists e, exit_bar t = Some e /\ min_bars <= entry_bar t /\ entry_bar t < e /\ e < ix /\
            (exit_reason t = Some CLOSED_SL \/ exit_reason t = Some CLOSED_TP).

(** The invariant of the loop of [run]: [ie] bounds the bar of entry of
    the open trade, [ix] the bars of exit of the trades of the ledger. *)
Definition RunInv (ie ix : nat) (st : Loop) : Prop :=
  (balance st == e_initial_balance self + sum_pnl (l_trades st))%Q /\
  Forall (closed_before ix) (l_trades st) /\
  chronological (l_trades st) /\
  trade_id <$> l_trades st = seq 1 (length (l_trades st)) /\
  match current_trade st with
  | None => l_trade_id st = length (l_trades st)
  | Some t =>
      l_trade_id st = S (length (l_trades st)) /\ trade_id t = l_trade_id st /\
      min_bars <= entry_bar t /\ entry_bar t < ie /\
      Forall (fun a => exists e, exit_bar a = Some e /\ e <= entry_bar t) (l_trades st)
  end /\
  (e_initial_balance self <= l_peak_balance st)%Q /\
  (balance st <= l_peak_balance st)%Q /\
  (0 <= l_max_drawdown st)%Q /\
  (l_peak_balance st - balance st <= l_max_drawdown st)%Q.

Lemma run_init_inv : RunInv min_bars min_bars (init self).
Proof.
  unfold RunInv, init, sum_pnl. simpl.
  split; [lra|]. split; [constructor|]. split; [constructor|].
  split; [reflexivity|]. split; [reflexivity|].
  split; [lra|]. split; [lra|]. split; lra.
Qed.

Lemma closed_before_mono ix ix' t : ix <= ix' -> closed_before ix t -> closed_before ix' t.
Proof.
  intros Hle (Ho & e & He & H1 & H2 & H3 & H4). split; [exact Ho|].
  exists e. repeat split; auto; lia.
Qed.

Lemma run_exit_step_inv i ts b st st' :
  min_bars <= i ->
  RunInv i i st -> exit_step self i ts b st = Ok st' -> RunInv i (S i) st'.
Proof.
  intros Hi (Hbal & Hcl & Hch & Hid & Hcur & Hp1 & Hp2 & Hd1 & Hd2).
  assert (Hcl' : Forall (closed_before (S i)) (l_trades st)).
  { eapply Forall_impl; [exact Hcl|]. intros t. apply closed_before_mono. lia. }
  unfold exit_step.
  destruct (current_trade st) as [t|] eqn:Ht.
  2:{ intros [= <-]. unfold RunInv. rewrite Ht. auto 10. }
  destruct (_check_exit t (high b) (low b) (close b)) as [[px reason]|] eqn:Hx.
  2:{ intros [= <-]. unfold RunInv. rewrite Ht. auto 10. }
  destruct (r_multiple_of t _) as [r|]; [|discriminate]. cbn [bind].
  destruct (div _ _) as [pp|]; [|discriminate]. cbn [bind].
  intros [= <-]. destruct Hcur as (Hn & Hti & He1 & He2 & Hprev).
  unfold RunInv.
  cbn [l_trades balance l_peak_balance l_max_drawdown l_trade_id current_trade].
  set (pnl1 := (gross_pnl t px - Num.abs (gross_pnl t px) * (commission_pct self / 100))%Q).
  set (t' := mkTrade _ _ _ _ _ _ _ _ _ _ _ _ _ _ _ _ _).
  assert (Hpnl : pnl t' = pnl1) by reflexivity.
  split; [rewrite sum_pnl_snoc, Hpnl; lra|].
  split.
  { apply Forall_app. split; [exact Hcl'|]. constructor; [|constructor].
    split; [reflexivity|]. exists i. cbn. repeat split; auto.
    destruct (BacktestSpec.check_exit_reason _ _ _ _ _ _ Hx) as [-> | ->]; auto. }
  split; [apply chronological_snoc; [exact Hch | exact Hprev]|].
  split.
  { rewrite fmap_app, length_app, Hid. cbn [length fmap list_fmap].
    rewrite Nat.add_1_r, seq_S. f_equal. cbn. f_equal. lia. }
  split; [rewrite length_app; cbn; lia|].
  set (bal' := (balance st + pnl1)%Q).
  destruct (Num.gtb bal' (l_peak_balance st)) eqn:E1.
  - apply NumFacts.gtb_gt in E1.
    destruct (Num.gtb (bal' - bal') (l_max_drawdown st)) eqn:E2.
    + apply NumFacts.gtb_gt in E2. repeat split; lra.
    + apply gtb_ngt in E2. repeat split; lra.
  - apply gtb_ngt in E1.
    destruct (Num.gtb (l_peak_balance st - bal') (l_max_drawdown st)) eqn:E2.
    + apply NumFacts.gtb_gt in E2. repeat split; lra.
    + apply gtb_ngt in E2. repeat split; lra.
Qed.

Lemma run_entry_step_inv i ts b st :
  min_bars <= i ->
  RunInv i (S i) st ->
  RunInv (S i) (S i) (entry_step sys_name generate_signals self system candles sym i ts b st).
Proof.
  intros Hi (Hbal & Hcl & Hch & Hid & Hcur & Hp).
  unfold entry_step.
  destruct (current_trade st) as [t|] eqn:Ht.
  { unfold RunInv. rewrite Ht. destruct Hcur as (H1 & H2 & H3 & H4 & H5).
    do 4 (split; [assumption|]). split; [|exact Hp].
    do 3 (split; [assumption|]). split; [lia | exact H5]. }
  destruct (generate_signals _ _ _ _) as [|signal rest].
  { unfold RunInv. rewrite Ht. auto 10. }
  unfold RunInv.
  cbn [l_trades balance l_peak_balance l_max_drawdown l_trade_id current_trade
       trade_id entry_bar].
  split; [exact Hbal|]. split; [exact Hcl|]. split; [exact Hch|]. split; [exact Hid|].
  split; [|exact Hp].
  split; [now rewrite Hcur|]. split; [reflexivity|]. split; [exact Hi|]. split; [lia|].
  eapply Forall_impl; [exact Hcl|]. intros a (_ & e & He & _ & _ & Hlt & _).
  exists e. split; [exact He | lia].
Qed.

Lemma run_loop_inv bs : forall i k st st',
  min_bars <= i ->
  RunInv i i st ->
  loop sys_name generate_signals now self system candles sym i k bs st = Ok st' ->
  RunInv (i + length bs) (i + length bs) st'.
Proof.
  induction bs as [|b bs IH]; intros i k st st' Hi HI; cbn [loop length].
  - intros [= <-]. now rewrite Nat.add_0_r.
  - unfold step.
    destruct (exit_step self i _ b st) as [st1|] eqn:E1; [|discriminate]. cbn [bind].
    intros Hl. rewrite <- Nat.add_succ_comm.
    eapply (IH (S i) (S k)); [lia| |exact Hl].
    apply run_entry_step_inv; [exact Hi|]. now apply run_exit_step_inv in E1.
Qed.

(** The state in which the loop of a run ends. *)
Lemma after_loop_inv st :
  after_loop sys_name generate_signals now self system candles sym = Ok st ->
  RunInv (Nat.max min_bars (len candles)) (Nat.max min_bars (len candles)) st.
Proof.
  unfold after_loop. intros Hl.
  apply run_loop_inv in Hl; [|lia|apply run_init_inv].
  rewrite length_drop in Hl. fold (len candles) in Hl.
  now replace (min_bars + (len candles - min_bars)) with (Nat.max min_bars (len candles))
    in Hl by lia.
Qed.

(** What [run] is made of. *)
Lemma run_inversion res :
  run sys_name sys_timeframe generate_signals now self system candles sym = Ok res ->
  exists (dates : Time * Time) st st',
    after_loop sys_name generate_signals now self system candles sym = Ok st /\
    close_eod candles (snd dates) st = Ok st' /\
    trades res = l_trades st' /\
    initial_balance res = e_initial_balance self /\
    final_balance res = balance st' /\
    peak_balance res = l_peak_balance st' /\
    max_drawdown res = l_max_drawdown st' /\
    max_drawdown_percent res =
      (if Num.gtb (l_peak_balance st') 0
       then (l_max_drawdown st' / l_peak_balance st' * 100)%Q else 0%Q).
Proof.
  unfold run.
  destruct (date_range now candles) as [dates|]; [|discriminate]. cbn [bind].
  destruct (after_loop _ _ _ _ _ _ _) as [st|]; [|discriminate]. cbn [bind].
  destruct (close_eod candles (snd dates) st) as [st'|] eqn:E; [|discriminate]. cbn [bind].
  intros [= <-]. exists dates, st, st'. cbn. auto 10.
Qed.

(** What the closing of the last open trade adds. *)
Lemma close_eod_inversion end_date st st' :
  close_eod candles end_date st = Ok st' ->
  l_peak_balance st' = l_peak_balance st /\ l_max_drawdown st' = l_max_drawdown st /\
  ((current_trade st = None /\ st' = st) \/
   (exists t t' bl,
      current_trade st = Some t /\ last (bars candles) = Some bl /\
      l_trades st' = l_trades st ++ [t'] /\
      balance st' = (balance st + pnl t')%Q /\
      trade_id t' = trade_id t /\ entry_bar t' = entry_bar t /\
      is_open t' = false /\
      exit_bar t' = Some (len candles - 1) /\ exit_reason t' = Some CLOSED_EOD)).
Proof.
  unfold close_eod. destruct (current_trade st) as [t|] eqn:Ht.
  2:{ intros [= <-]. auto. }
  destruct (last (bars candles)) as [bl|]; [|discriminate].
  destruct (r_multiple_of t _) as [r|]; [|discriminate]. cbn [bind].
  intros [= <-]. cbn. split; [reflexivity|]. split; [reflexivity|].
  right. eexists t, _, bl. repeat split; reflexivity.
Qed.

(** The balance after the trades of [l]: their [pnl] added to the
    initial balance one at a time, in the order of the ledger. *)
Definition balance_after (l : list BacktestTrade) : Q :=
  fold_left Qplus (pnl <$> l) (e_initial_balance self).

Lemma balance_after_snoc l t : balance_after (l ++ [t]) = (balance_after l + pnl t)%Q.
Proof. unfold balance_after. now rewrite fmap_app, fold_left_app. Qed.

Lemma balance_exit_step i ts b st st' :
  balance st = balance_after (l_trades st) ->
  exit_step self i ts b st = Ok st' ->
  balance st' = balance_after (l_trades st').
Proof.
  intros Hbal. unfold exit_step.
  destruct (current_trade st) as [t|]; [|now intros [= <-]].
  destruct (_check_exit t (high b) (low b) (close b)) as [[px reason]|];
    [|now intros [= <-]].
  destruct (r_multiple_of t _) as [r|]; [|discriminate]. cbn [bind].
  destruct (div _ _) as [pp|]; [|discriminate]. cbn [bind].
  intros [= <-]. cbn [l_trades balance].
  rewrite balance_after_snoc, <- Hbal. reflexivity.
Qed.

Lemma balance_entry_step i ts b st :
  balance st = balance_after (l_trades st) ->
  balance (entry_step sys_name generate_signals self system candles sym i ts b st) =
  balance_after (l_trades (entry_step sys_name generate_signals self system candles sym
                             i ts b st)).
Proof.
  intros Hbal. unfold entry_step.
  destruct (current_trade st) as [t|]; [exact Hbal|].
  destruct (generate_signals _ _ _ _) as [|signal rest]; exact Hbal.
Qed.

Lemma balance_loop bs : forall i k st st',
  balance st = balance_after (l_trades st) ->
  loop sys_name generate_signals now self system candles sym i k bs st = Ok st' ->
  balance st' = balance_after (l_trades st').
Proof.
  induction bs as [|b bs IH]; intros i k st st' Hbal; cbn [loop].
  - now intros [= <-].
  - unfold step.
    destruct (exit_step self i _ b st) as [st1|] eqn:E1; [|discriminate]. cbn [bind].
    apply IH. apply balance_entry_step. now apply balance_exit_step in E1.
Qed.

(** X14.  The balance is touched by the closing of trades only, and by
    each closing once: the final balance of a run is the initial balance
    to which the [pnl] of the trades of the ledger were added one at a
    time, in the order of the ledger: [balance += current_trade.pnl] on
    each closing, and nothing else.  The equality is that of the very
    sequence of additions, not of their sum regrouped. *)
Theorem run_balance_adds_pnl_in_order (res : BacktestResults) :
  run sys_name sys_timeframe generate_signals now self system candles sym = Ok res ->
  initial_balance res = e_initial_balance self /\
  final_balance res = fold_left Qplus (pnl <$> trades res) (initial_balance res).
Proof.
  intros Hrun. apply run_inversion in Hrun
    as (dates & st & st' & Hloop & Heod & Ht & Hi & Hf & _).
  split; [exact Hi|].
  rewrite Ht, Hi, Hf. fold (balance_after (l_trades st')).
  assert (Hbal : balance st = balance_after (l_trades st)).
  { unfold after_loop in Hloop. eapply balance_loop; [|exact Hloop]. reflexivity. }
  apply close_eod_inversion in Heod as (_ & _ & [[_ ->] | H]); [exact Hbal|].
  destruct H as (t & t' & bl & _ & _ & -> & -> & _).
  now rewrite balance_after_snoc, Hbal.
Qed.

(** The reasons for which [run] closes a trade. *)
Definition closed_by_run (t : BacktestTrade) : Prop :=
  exit_reason t = Some CLOSED_SL \/ exit_reason t = Some CLOSED_TP \/
  exit_reason t = Some CLOSED_EOD.

(** X15.  The ledger of a run is well formed: the trades are numbered 1,
    2, 3, ... in order; every trade is closed, for reason SL, TP or EOD
    (never OPEN, never SIGNAL), was entered on a bar from [min_bars] = 50 on
    and exited on a later row of the table (on the entry bar or later when
    the reason is EOD); a trade is entered no earlier than the bar on which
    the trade before it was closed, so that no two trades overlap; and only
    the last trade can carry reason EOD. *)
Theorem run_ledger_well_formed (res : BacktestResults) :
  run sys_name sys_timeframe generate_signals now self system candles sym = Ok res ->
  trade_id <$> trades res = seq 1 (length (trades res)) /\
  Forall (fun t =>
            is_open t = false /\ closed_by_run t /\
            exists e, exit_bar t = Some e /\
                      min_bars <= entry_bar t /\ entry_bar t <= e /\ e < len candles /\
                      (exit_reason t <> Some CLOSED_EOD -> entry_bar t < e))
         (trades res) /\
  StronglySorted (fun a b => exists e, exit_bar a = Some e /\ e <= entry_bar b)
    (trades res) /\
  (forall l t, trades res = l ++ [t] ->
     Forall (fun a => exit_reason a <> Some CLOSED_EOD) l).
Proof.
  intros Hrun. apply run_inversion in Hrun
    as (dates & st & st' & Hloop & Heod & Ht & _).
  apply after_loop_inv in Hloop as (_ & Hcl & Hch & Hid & Hcur & _).
  rewrite Ht. clear Ht res.
  set (N := Nat.max min_bars (len candles)) in *.
  assert (Hold : Forall (fun t =>
            is_open t = false /\ closed_by_run t /\
            exists e, exit_bar t = Some e /\
                      min_bars <= entry_bar t /\ entry_bar t <= e /\ e < len candles /\
                      (exit_reason t <> Some CLOSED_EOD -> entry_bar t < e))
            (l_trades st)).
  { eapply Forall_impl; [exact Hcl|]. intros t (Ho & e & He & H1 & H2 & H3 & H4).
    split; [exact Ho|]. split; [unfold closed_by_run; tauto|].
    exists e. repeat split; auto; lia. }
  assert (Hne : Forall (fun a => exit_reason a <> Some CLOSED_EOD) (l_trades st)).
  { eapply Forall_impl; [exact Hcl|]. intros t (_ & e & _ & _ & _ & _ & [H|H]);
      rewrite H; discriminate. }
  apply close_eod_inversion in Heod as (_ & _ & [[Hnone ->] | H]).
  - split; [exact Hid|]. split; [exact Hold|]. split; [exact Hch|].
    intros l t E. rewrite E in Hne. now apply Forall_app in Hne as [Hne _].
  - destruct H as (t & t' & bl & Hc & Hbl & -> & _ & Hid' & Hen & Ho & Hex & Hre).
    rewrite Hc in Hcur. destruct Hcur as (Hn & Hti & He1 & He2 & Hprev).
    split; [|split; [|split]].
    + rewrite fmap_app, length_app, Hid. cbn [length fmap list_fmap].
      rewrite Nat.add_1_r, seq_S. f_equal. cbn. f_equal. lia.
    + apply Forall_app. split; [exact Hold|]. constructor; [|constructor].
      split; [exact Ho|]. split; [unfold closed_by_run; tauto|].
      exists (len candles - 1). rewrite Hen. repeat split; auto; try lia.
      intros Hx. congruence.
    + apply chronological_snoc; [exact Hch|].
      eapply Forall_impl; [exact Hprev|]. intros a (e & He & Hle). exists e.
      rewrite Hen. auto.
    + intros l x E. apply app_inj_tail in E as [<- _]. exact Hne.
Qed.

(** X16.  The account tracking of a run: the peak balance is never below
    the initial balance, the maximal drawdown and its percentage are never
    negative; and unless the last trade was closed at the end of the data,
    the final balance is at most the peak balance and the drawdown from the
    peak to the final balance is at most the maximal drawdown. *)
Theorem run_drawdown_bounds (res : BacktestResults) :
  run sys_name sys_timeframe generate_signals now self system candles sym = Ok res ->
  (initial_balance res <= peak_balance res)%Q /\
  (0 <= max_drawdown res)%Q /\
  (0 <= max_drawdown_percent res)%Q /\
  ((forall t, last (trades res) = Some t -> exit_reason t <> Some CLOSED_EOD) ->
   (final_balance res <= peak_balance res)%Q /\
   (peak_balance res - final_balance res <= max_drawdown res)%Q).
Proof.
  intros Hrun. apply run_inversion in Hrun
    as (dates & st & st' & Hloop & Heod & Ht & Hi & Hf & Hp & Hd & Hdp).
  apply after_loop_inv in Hloop as (_ & _ & _ & _ & _ & Hp1 & Hp2 & Hd1 & Hd2).
  apply close_eod_inversion in Heod as (Hpk & Hdd & Hcase).
  rewrite Hi, Hf, Hp, Hd, Hdp, Hpk, Hdd, Ht.
  split; [exact Hp1|]. split; [exact Hd1|]. split.
  - destruct (Num.gtb (l_peak_balance st) 0) eqn:E; [|lra].
    apply NumFacts.gtb_gt in E.
    apply Qmult_le_0_compat; [|lra].
    apply Qle_shift_div_l; [exact E | lra].
  - intros Hlast. destruct Hcase as [[_ ->] | H]; [auto|].
    destruct H as (t & t' & bl & _ & _ & E & _ & _ & _ & _ & _ & Hre).
    exfalso. apply (Hlast t'); [|exact Hre]. rewrite E. apply last_snoc.
Qed.

(** Every trade of the ledger is closed, on its entry bar or later. *)
Lemma run_trades_closed (res : BacktestResults) :
  run sys_name sys_timeframe generate_signals now self system candles sym = Ok res ->
  Forall (fun t => is_open t = false /\ (0 <= duration_bars t)%Z) (trades res).
Proof.
  intros Hrun. apply run_inversion in Hrun
    as (dates & st & st' & Hloop & Heod & Ht & _).
  apply after_loop_inv in Hloop as (_ & Hcl & _ & _ & Hcur & _).
  rewrite Ht.
  assert (Hold : Forall (fun t => is_open t = false /\ (0 <= duration_bars t)%Z) (l_trades st)).
  { eapply Forall_impl; [exact Hcl|]. intros t (Ho & e & He & _ & Hlt & _).
    split; [exact Ho|]. unfold duration_bars. rewrite He. lia. }
  apply close_eod_inversion in Heod as (_ & _ & [[_ ->] | H]); [exact Hold|].
  destruct H as (t & t' & bl & Hc & _ & -> & _ & _ & Hen & Ho & Hex & _).
  rewrite Hc in Hcur. destruct Hcur as (_ & _ & He1 & He2 & _).
  apply Forall_app. split; [exact Hold|]. constructor; [|constructor].
  split; [exact Ho|]. unfold duration_bars. rewrite Hex, Hen. unfold min_bars in *. lia.
Qed.

Lemma length_filter_split {A} (P : A -> Prop) `{!forall x, Decision (P x)} (l : list A) :
  length (filter P l) + length (filter (fun x => ~ P x) l) = length l.
Proof.
  induction l as [|x l IH]; [reflexivity|].
  rewrite !filter_cons. destruct (decide (P x)), (decide (~ P x)); simpl; try lia; tauto.
Qed.

Lemma filter_Forall_id {A} (P : A -> Prop) `{!forall x, Decision (P x)} (l : list A) :
  Forall P l -> filter P l = l.
Proof.
  induction 1 as [|x l Hx _ IH]; [reflexivity|].
  rewrite filter_cons_True by exact Hx. now rewrite IH.
Qed.

Lemma filter_ext_Forall {A} (P R : A -> Prop) `{!forall x, Decision (P x)}
    `{!forall x, Decision (R x)} (l : list A) :
  Forall (fun x => P x <-> R x) l -> filter P l = filter R l.
Proof.
  induction 1 as [|x l Hx _ IH]; [reflexivity|].
  rewrite !filter_cons, IH. destruct (decide (P x)), (decide (R x)); tauto.
Qed.

(** X17.  In the results of a run every trade counts as a winner or as a
    loser: [winning_trades + losing_trades = total_trades]; the win rate is
    the share of winners among all trades, in percent, and lies between 0
    and 100; and no trade has a negative duration. *)
Theorem run_counts_add_up (res : BacktestResults) :
  run sys_name sys_timeframe generate_signals now self system candles sym = Ok res ->
  winning_trades res + losing_trades res = total_trades res /\
  (0 <= win_rate res <= 100)%Q /\
  (0 < total_trades res ->
   win_rate res = (inject_Z (Z.of_nat (winning_trades res)) /
                   inject_Z (Z.of_nat (total_trades res)) * 100)%Q) /\
  Forall (fun t => (0 <= duration_bars t)%Z) (trades res).
Proof.
  intros Hrun.
  pose proof (run_trades_closed res Hrun) as Hfacts.
  assert (Hclosed : Forall (fun t => is_open t = false) (trades res))
    by (eapply Forall_impl; [exact Hfacts|]; intros t H; apply H).
  assert (Hdur : Forall (fun t => (0 <= duration_bars t)%Z) (trades res))
    by (eapply Forall_impl; [exact Hfacts|]; intros t H; apply H).
  assert (Hall : filter (fun t => is_open t = false) (trades res) = trades res)
    by (apply filter_Forall_id, Hclosed).
  assert (Hlose : losing_trades res =
                  length (filter (fun t => ~ is_winner t = true) (trades res))).
  { unfold losing_trades. f_equal. apply filter_ext_Forall.
    eapply Forall_impl; [exact Hclosed|]. intros t Ho. simpl.
    destruct (is_winner t); split; intros H; try tauto; try (destruct H; congruence). }
  assert (Hsum : winning_trades res + losing_trades res = total_trades res).
  { rewrite Hlose. unfold winning_trades, total_trades. apply length_filter_split. }
  assert (Hrate : 0 < total_trades res ->
            win_rate res = (inject_Z (Z.of_nat (winning_trades res)) /
                            inject_Z (Z.of_nat (total_trades res)) * 100)%Q).
  { unfold win_rate, total_trades. cbv zeta. rewrite Hall.
    destruct (trades res); [simpl; lia | reflexivity]. }
  split; [exact Hsum|]. split; [|split; [exact Hrate | exact Hdur]].
  destruct (Nat.eq_dec (total_trades res) 0) as [E|E].
  - unfold win_rate, total_trades in *. cbv zeta. rewrite Hall.
    destruct (trades res); [split; lra | discriminate].
  - rewrite Hrate by lia.
    assert (Hw : (0 <= inject_Z (Z.of_nat (winning_trades res)))%Q)
      by (rewrite <- (Zle_Qle 0); lia).
    assert (Ht : (0 < inject_Z (Z.of_nat (total_trades res)))%Q)
      by (rewrite <- (Zlt_Qlt 0); lia).
    assert (Hwt : (inject_Z (Z.of_nat (winning_trades res)) <=
                   inject_Z (Z.of_nat (total_trades res)))%Q)
      by (rewrite <- Zle_Qle; lia).
    split.
    + apply Qmult_le_0_compat; [|lra]. apply Qle_shift_div_l; [exact Ht | lra].
    + apply Qle_trans with (1 * 100)%Q; [|lra].
      apply Qmult_le_compat_r; [|lra]. apply Qle_shift_div_r; [exact Ht | lra].
Qed.

(** *** When a run returns *)

(** The first signal of every call has a usable risk: if [risk_amount] is
    positive, [risk_amount * position_size] is not zero. *)
Definition signals_divisible : Prop :=
  forall bar_data sym' bal s rest,
    generate_signals system bar_data sym' bal = s :: rest ->
    (0 < s_risk_amount s)%Q -> ~ (s_risk_amount s * s_position_size s == 0)%Q.

Definition trade_divisible (st : Loop) : Prop :=
  forall t, current_trade st = Some t ->
    (0 < risk_amount t)%Q -> ~ (risk_amount t * position_size t == 0)%Q.

Lemma exit_step_returns i ts b st :
  ~ (e_initial_balance self == 0)%Q -> trade_divisible st ->
  exists st', exit_step self i ts b st = Ok st' /\ trade_divisible st'.
Proof.
  intros Hb Hd. destruct (current_trade st) as [t|] eqn:Ht.
  - destruct (_check_exit t (high b) (low b) (close b)) as [[px reason]|] eqn:Hx.
    + destruct (BacktestSpec.exit_step_closes self i ts b st t px reason Ht Hx Hb (Hd t Ht))
        as (st' & t' & E & _ & _ & _ & _ & _ & _ & Hnone & _).
      exists st'. split; [exact E|]. intros t0 Ht0. congruence.
    + exists st. split; [now apply BacktestSpec.exit_step_no_exit with t | exact Hd].
  - exists st. split; [|exact Hd]. unfold exit_step. now rewrite Ht.
Qed.

Lemma entry_step_divisible i ts b st :
  signals_divisible -> trade_divisible st ->
  trade_divisible (entry_step sys_name generate_signals self system candles sym i ts b st).
Proof.
  intros Hs Hd. unfold entry_step.
  destruct (current_trade st) as [t|] eqn:Ht; [exact Hd|].
  destruct (generate_signals _ _ _ _) as [|signal rest] eqn:Eg; [exact Hd|].
  intros t [= <-]. cbn. exact (Hs _ _ _ _ _ Eg).
Qed.

Lemma loop_returns bs : forall i k st,
  ~ (e_initial_balance self == 0)%Q -> signals_divisible -> trade_divisible st ->
  exists st', loop sys_name generate_signals now self system candles sym i k bs st = Ok st' /\
              trade_divisible st'.
Proof.
  induction bs as [|b bs IH]; intros i k st Hb Hs Hd; cbn [loop].
  - eauto.
  - unfold step.
    destruct (exit_step_returns i (bar_timestamp_of now candles k b) b st Hb Hd)
      as (st1 & E1 & Hd1).
    rewrite E1. cbn [bind]. apply IH; auto. now apply entry_step_divisible.
Qed.

Lemma date_range_returns :
  ~ (has_timestamp candles = true /\ bars candles = []) ->
  exists dates, date_range now candles = Ok dates.
Proof.
  intros H. unfold date_range. destruct (has_timestamp candles); [|eauto].
  destruct (bars candles) as [|b0 l] eqn:Hb; [tauto|].
  destruct (last (b0 :: l)) eqn:Hl; [simpl; eauto|].
  apply last_None in Hl. discriminate.
Qed.

(** X18.  [run] raises IndexError on an empty table that has a
    'timestamp' column.  On any other table it returns a result, provided
    that the initial balance is not zero and that no signal taken has a
    positive [risk_amount] with [risk_amount * position_size] zero (the two
    divisors of the closing arithmetic).  On a table of at most [min_bars]
    = 50 rows it returns a result with an empty ledger, the initial balance
    as final and peak balance, and no drawdown, whatever the engine and the
    signal generator are. *)
Theorem run_returns :
  (has_timestamp candles = true /\ bars candles = [] ->
   run sys_name sys_timeframe generate_signals now self system candles sym = Raise IndexError) /\
  (~ (has_timestamp candles = true /\ bars candles = []) ->
   ~ (e_initial_balance self == 0)%Q -> signals_divisible ->
   exists res,
     run sys_name sys_timeframe generate_signals now self system candles sym = Ok res) /\
  (~ (has_timestamp candles = true /\ bars candles = []) ->
   len candles <= min_bars ->
   exists res,
     run sys_name sys_timeframe generate_signals now self system candles sym = Ok res /\
     trades res = [] /\ final_balance res = e_initial_balance self /\
     peak_balance res = e_initial_balance self /\ max_drawdown res = 0%Q).
Proof.
  split; [|split].
  - intros [Hts Hb]. unfold run, date_range. now rewrite Hts, Hb.
  - intros Hne Hb Hs. unfold run.
    destruct (date_range_returns Hne) as (dates & ->). cbn [bind].
    assert (Hd0 : trade_divisible (init self)) by (intros t; discriminate).
    destruct (loop_returns (drop min_bars (bars candles)) min_bars 2 (init self) Hb Hs Hd0)
      as (st & Hloop & Hd).
    pose proof Hloop as Hinv. apply after_loop_inv in Hinv as (_ & _ & _ & _ & Hcur & _).
    unfold after_loop. rewrite Hloop. cbn [bind].
    unfold close_eod. destruct (current_trade st) as [t|] eqn:Ht; [|cbn; eauto].
    destruct Hcur as (_ & _ & H1 & H2 & _).
    destruct (last (bars candles)) as [bl|] eqn:Hl.
    + destruct (BacktestSpec.r_multiple_of_ok t (gross_pnl t (close bl)) (Hd t Ht)) as [r ->].
      cbn. eauto.
    + apply last_None in Hl. unfold len, min_bars in *. rewrite Hl in H2.
      cbn [length] in H2. lia.
  - intros Hne Hlen. unfold run.
    destruct (date_range_returns Hne) as (dates & ->). cbn [bind].
    unfold after_loop. rewrite drop_ge by exact Hlen. cbn. eauto 10.
Qed.

(** *** The times of the ledger *)

(** The stamp of a row as the loop reads it, through [candles.iloc[i]]. *)
Definition row_stamp (b : Bar) : Time :=
  to_datetime (Float64.float64_of_int (timestamp b)).

(** The entry time of [t] is the stamp of its entry row as the loop reads
    it; so is its exit time, unless the trade was closed at the end of the
    data, where it is the stamp of the last row as the column holds it. *)
Definition stamped (t : BacktestTrade) : Prop :=
  exists be bx e,
    bars candles !! entry_bar t = Some be /\
    entry_time t = row_stamp be /\
    exit_bar t = Some e /\ bars candles !! e = Some bx /\
    ((exit_reason t = Some CLOSED_EOD /\
      exit_time t = Some (to_datetime (timestamp bx))) \/
     (exit_reason t <> Some CLOSED_EOD /\ exit_time t = Some (row_stamp bx))).

Definition TimeInv (st : Loop) : Prop :=
  Forall stamped (l_trades st) /\
  forall t, current_trade st = Some t ->
    exists be, bars candles !! entry_bar t = Some be /\ entry_time t = row_stamp be.

Lemma time_exit_step_inv i b st st' :
  bars candles !! i = Some b ->
  TimeInv st -> exit_step self i (row_stamp b) b st = Ok st' -> TimeInv st'.
Proof.
  intros Hb [HF Hc]. unfold exit_step.
  destruct (current_trade st) as [t|] eqn:Ht in |- *; [|intros [= <-]; split; auto].
  destruct (_check_exit t (high b) (low b) (close b)) as [[px reason]|] eqn:Hx;
    [|intros [= <-]; split; auto].
  destruct (r_multiple_of t _) as [r|]; [|discriminate]. cbn [bind].
  destruct (div _ _) as [pp|]; [|discriminate]. cbn [bind].
  intros [= <-]. split; cbn; [|discriminate].
  apply Forall_app. split; [exact HF|]. constructor; [|constructor].
  destruct (Hc t Ht) as (be & Hbe & Het).
  exists be, b, i. cbn. do 4 (split; [assumption || reflexivity|]).
  right. split; [|reflexivity].
  destruct (BacktestSpec.check_exit_reason _ _ _ _ _ _ Hx) as [-> | ->]; discriminate.
Qed.

Lemma time_entry_step_inv i b st :
  bars candles !! i = Some b ->
  TimeInv st ->
  TimeInv (entry_step sys_name generate_signals self system candles sym i
             (row_stamp b) b st).
Proof.
  intros Hb [HF Hc]. unfold entry_step.
  destruct (current_trade st) as [t|] eqn:Ht in |- *; [split; auto|].
  destruct (generate_signals _ _ _ _) as [|signal rest]; [split; auto|].
  split; cbn; [exact HF|]. intros t [= <-]. exists b. cbn. auto.
Qed.

Lemma time_loop_inv bs : forall i k st st',
  has_timestamp candles = true ->
  drop i (bars candles) = bs ->
  TimeInv st ->
  loop sys_name generate_signals now self system candles sym i k bs st = Ok st' ->
  TimeInv st'.
Proof.
  induction bs as [|b bs IH]; intros i k st st' Hts Hd HI; cbn [loop].
  - now intros [= <-].
  - assert (Hb : bars candles !! i = Some b)
      by (rewrite <- (Nat.add_0_r i), <- lookup_drop; now rewrite Hd).
    unfold step, bar_timestamp_of. rewrite Hts. fold (row_stamp b).
    destruct (exit_step self i _ b st) as [st1|] eqn:E1; [|discriminate]. cbn [bind].
    apply IH; [exact Hts| |].
    + replace (S i) with (i + 1) by lia. now rewrite <- drop_drop, Hd.
    + apply time_entry_step_inv; [exact Hb|]. now apply time_exit_step_inv in E1.
Qed.

(** X19.  On a table with a 'timestamp' column of integers beside the
    price columns, and no 'datetime' column, the clock plays no part.  The
    start and end dates of the result are the stamps of the first and
    last rows.  The entry time of every trade of the ledger is the stamp of
    its entry row, and the exit time of a trade closed by its stop or
    target the stamp of its exit row, both read through the row of the bar:
    the stamp converted to a double, which is the stamp itself when it is
    below 2^53 in absolute value.  The exit time of a trade closed at the
    end of the data is the end date, the stamp of the last row as the
    column holds it. *)
Theorem run_times_are_row_stamps (res : BacktestResults) :
  has_timestamp candles = true ->
  has_datetime candles = false ->
  run sys_name sys_timeframe generate_signals now self system candles sym = Ok res ->
  (exists b0 bl, head (bars candles) = Some b0 /\ last (bars candles) = Some bl /\
                 start_date res = to_datetime (timestamp b0) /\
                 end_date res = to_datetime (timestamp bl)) /\
  Forall (fun t =>
            exists be bx e,
              bars candles !! entry_bar t = Some be /\
              entry_time t = to_datetime (Float64.float64_of_int (timestamp be)) /\
              exit_bar t = Some e /\ bars candles !! e = Some bx /\
              ((exit_reason t = Some CLOSED_EOD /\
                exit_time t = Some (to_datetime (timestamp bx)) /\
                exit_time t = Some (end_date res)) \/
               (exit_reason t <> Some CLOSED_EOD /\
                exit_time t =
                  Some (to_datetime (Float64.float64_of_int (timestamp bx))))))
         (trades res) /\
  (forall stamp, (Z.abs stamp < 2 ^ 53)%Z -> Float64.float64_of_int stamp = stamp).
Proof.
  intros Hts _ Hrun. split; [|split; [|exact Float64Facts.round53_small]].
  all: revert Hrun; unfold run, date_range; rewrite Hts.
  all: destruct (head (bars candles)) as [b0|] eqn:Hh; [|discriminate].
  all: destruct (last (bars candles)) as [bl|] eqn:Hl; [|discriminate]; cbn [bind fst snd].
  all: destruct (after_loop _ _ _ _ _ _ _) as [st|] eqn:Hloop; [|discriminate]; cbn [bind].
  all: destruct (close_eod candles (to_datetime (timestamp bl)) st) as [st'|] eqn:Heod;
    [|discriminate].
  all: cbn [bind]; intros [= <-]; cbn.
  - eauto 10.
  - assert (HI : TimeInv st).
    { unfold after_loop in Hloop. eapply time_loop_inv; [exact Hts|reflexivity| |exact Hloop].
      split; [constructor | discriminate]. }
    destruct HI as [HF Hc].
    assert (Hold : Forall (fun t =>
              exists be bx e,
                bars candles !! entry_bar t = Some be /\
                entry_time t = to_datetime (Float64.float64_of_int (timestamp be)) /\
                exit_bar t = Some e /\ bars candles !! e = Some bx /\
                ((exit_reason t = Some CLOSED_EOD /\
                  exit_time t = Some (to_datetime (timestamp bx)) /\
                  exit_time t = Some (to_datetime (timestamp bl))) \/
                 (exit_reason t <> Some CLOSED_EOD /\
                  exit_time t =
                    Some (to_datetime (Float64.float64_of_int (timestamp bx))))))
              (l_trades st)).
    { assert (Hclosed : Forall (closed_before (Nat.max min_bars (len candles))) (l_trades st)).
      { apply after_loop_inv in Hloop. apply Hloop. }
      rewrite Forall_forall in HF, Hclosed. apply Forall_forall. intros t Ht.
      destruct (HF t Ht) as (be & bx & e & H1 & H2 & H3 & H4 & H5).
      exists be, bx, e. do 4 (split; [assumption|]). right.
      destruct (Hclosed t Ht) as (_ & e' & _ & _ & _ & _ & Hreason).
      destruct H5 as [[Heod' _] | H5]; [|exact H5].
      destruct Hreason as [Hr | Hr]; rewrite Hr in Heod'; discriminate. }
    revert Heod. unfold close_eod.
    destruct (current_trade st) as [t|] eqn:Ht in |- *; [|now intros [= <-]].
    rewrite Hl. destruct (r_multiple_of t _) as [r|]; [|discriminate]. cbn [bind].
    intros [= <-]. cbn. apply Forall_app. split; [exact Hold|]. constructor; [|constructor].
    destruct (Hc t Ht) as (be & Hbe & Het).
    exists be, bl, (len candles - 1). cbn. split; [exact Hbe|]. split; [exact Het|].
    split; [reflexivity|].
    split; [rewrite last_lookup in Hl; unfold len; now rewrite Nat.sub_1_r|].
    left. auto.
Qed.
End Run.

(** A stamp in nanoseconds that is not a double: the loop reads the
    double next to it. *)
Definition ns_bar (t : Time) (b : Bar) : Bar :=
  {| timestamp := t; datetime := datetime b; open := open b; high := high b;
     low := low b; close := close b; volume := volume b |}.

Definition table_52_ns : Table :=
  {| bars := (fun b => ns_bar 1700003000000000001%Z b) <$> bars (BacktestSpec.table_52 true);
     has_timestamp := true; has_datetime := false |}.

Lemma run_times_are_row_stamps_witness :
  exists res t,
    has_timestamp table_52_ns = true /\
    has_datetime table_52_ns = false /\
    run (fun _ => "s") (fun _ => "15m") BacktestSpec.signal_at_51 BacktestSpec.clock_a
        BacktestSpec.engine_with_commission tt table_52_ns "X" = Ok res /\
    trades res = [t] /\
    start_date res = 1700003000000000001%Z /\
    entry_time t = 1700003000000000000%Z /\
    exists be, bars table_52_ns !! entry_bar t = Some be /\
               entry_time t = to_datetime (Float64.float64_of_int (timestamp be)).
Proof.
  assert (H : exists res t,
             run (fun _ => "s") (fun _ => "15m") BacktestSpec.signal_at_51 BacktestSpec.clock_a
               BacktestSpec.engine_with_commission tt table_52_ns "X" = Ok res /\
             trades res = [t] /\
             start_date res = 1700003000000000001%Z /\
             entry_time t = 1700003000000000000%Z)
    by (vm_compute; eauto 10).
  destruct H as (res & t & Hrun & Ht & Hs & He). exists res, t.
  split; [reflexivity|]. split; [reflexivity|]. split; [exact Hrun|]. split; [exact Ht|].
  split; [exact Hs|]. split; [exact He|].
  destruct (run_times_are_row_stamps (fun _ => "s") (fun _ => "15m") BacktestSpec.signal_at_51
              BacktestSpec.clock_a BacktestSpec.engine_with_commission tt
              table_52_ns "X" res eq_refl eq_refl Hrun) as (_ & HF & _).
  rewrite Ht in HF. inversion HF as [|? ? (be & bx & e & H1 & H2 & _) _]. eauto.
Defined.

(** The run of [BacktestSpec.eod_close_frame_witness]: one Long trade,
    entered on bar 50 and closed at the end of the data. *)
Lemma run_balance_adds_pnl_in_order_witness :
  exists res,
    run (fun _ => "s") (fun _ => "15m") BacktestSpec.signal_at_51 BacktestSpec.clock_a
        BacktestSpec.engine_with_commission tt (BacktestSpec.table_52 true) "X" = Ok res /\
    final_balance res = fold_left Qplus (pnl <$> trades res) (initial_balance res).
Proof.
  assert (H : exists res,
             run (fun _ => "s") (fun _ => "15m") BacktestSpec.signal_at_51 BacktestSpec.clock_a
               BacktestSpec.engine_with_commission tt (BacktestSpec.table_52 true) "X" = Ok res)
    by (vm_compute; eauto).
  destruct H as (res & Hrun). exists res. split; [exact Hrun|].
  exact (proj2 (run_balance_adds_pnl_in_order _ _ _ _ _ _ _ _ res Hrun)).
Defined.

(** A table on which the trade entered on bar 50 reaches its target on
    bar 52 and a second trade is entered on bar 53. *)
Definition target_bar : Bar :=
  {| timestamp := 8%Z; datetime := 0%Z; open := 104; high := 111; low := 104;
     close := 110; volume := 1 |}.

Definition table_55 : Table :=
  {| bars := repeat BacktestSpec.flat_bar 52 ++ [target_bar] ++ repeat BacktestSpec.flat_bar 2;
     has_timestamp := true; has_datetime := false |}.

Definition signal_at_51_and_54 (_ : unit) (bar_data : Table) (_ : string) (_ : Q)
  : list Signal :=
  if (len bar_data =? 51) || (len bar_data =? 54) then [BacktestSpec.long_signal] else [].

Lemma run_ledger_well_formed_witness :
  exists res,
    run (fun _ => "s") (fun _ => "15m") signal_at_51_and_54 BacktestSpec.clock_a
        BacktestSpec.engine_with_commission tt table_55 "X" = Ok res /\
    length (trades res) = 2 /\
    trade_id <$> trades res = seq 1 (length (trades res)).
Proof.
  assert (H : exists res,
             run (fun _ => "s") (fun _ => "15m") signal_at_51_and_54 BacktestSpec.clock_a
               BacktestSpec.engine_with_commission tt table_55 "X" = Ok res /\
             length (trades res) = 2)
    by (vm_compute; eauto).
  destruct H as (res & Hrun & Hlen). exists res. split; [exact Hrun|]. split; [exact Hlen|].
  exact (proj1 (run_ledger_well_formed _ _ _ _ _ _ _ _ res Hrun)).
Defined.

Lemma run_drawdown_bounds_witness :
  exists res,
    run (fun _ => "s") (fun _ => "15m") signal_at_51_and_54 BacktestSpec.clock_a
        BacktestSpec.engine_with_commission tt table_55 "X" = Ok res /\
    (initial_balance res <= peak_balance res)%Q /\ (0 <= max_drawdown res)%Q.
Proof.
  assert (H : exists res,
             run (fun _ => "s") (fun _ => "15m") signal_at_51_and_54 BacktestSpec.clock_a
               BacktestSpec.engine_with_commission tt table_55 "X" = Ok res)
    by (vm_compute; eauto).
  destruct H as (res & Hrun). exists res. split; [exact Hrun|].
  destruct (run_drawdown_bounds _ _ _ _ _ _ _ _ res Hrun) as (H1 & H2 & _). auto.
Defined.

Lemma run_counts_add_up_witness :
  exists res,
    run (fun _ => "s") (fun _ => "15m") signal_at_51_and_54 BacktestSpec.clock_a
        BacktestSpec.engine_with_commission tt table_55 "X" = Ok res /\
    winning_trades res + losing_trades res = total_trades res.
Proof.
  assert (H : exists res,
             run (fun _ => "s") (fun _ => "15m") signal_at_51_and_54 BacktestSpec.clock_a
               BacktestSpec.engine_with_commission tt table_55 "X" = Ok res)
    by (vm_compute; eauto).
  destruct H as (res & Hrun). exists res. split; [exact Hrun|].
  exact (proj1 (run_counts_add_up _ _ _ _ _ _ _ _ res Hrun)).
Defined.

End BacktestMore.

(** ** Groups and sequences of conditions *)

Module GroupsSpec.
Import Candles Py Conditions Groups.

Section Groups.
Context {Ctx : Type}.
Implicit Types (c : Condition Ctx) (cs : list (Condition Ctx)) (candles : Table)
  (context : Ctx).

Lemma find_is_false_spec (rs : list EvaluationResult) :
  match List.find is_false rs with
  | Some _ => Exists (fun r => result r = FALSE) rs
  | None => Forall (fun r => result r <> FALSE) rs
  end.
Proof.
  induction rs as [|r rs IH]; simpl; [constructor|].
  unfold is_false at 1. destruct (bool_decide (result r = FALSE)) eqn:E.
  - apply bool_decide_eq_true in E. now left.
  - apply bool_decide_eq_false in E. destruct (List.find is_false rs).
    + now right.
    + now constructor.
Qed.

Lemma find_is_true_spec (rs : list EvaluationResult) :
  match List.find is_true rs with
  | Some _ => Exists (fun r => result r = TRUE) rs
  | None => Forall (fun r => result r <> TRUE) rs
  end.
Proof.
  induction rs as [|r rs IH]; simpl; [constructor|].
  unfold is_true at 1. destruct (bool_decide (result r = TRUE)) eqn:E.
  - apply bool_decide_eq_true in E. now left.
  - apply bool_decide_eq_false in E. destruct (List.find is_true rs).
    + now right.
    + now constructor.
Qed.

Lemma forallb_is_true_spec (rs : list EvaluationResult) :
  forallb is_true rs = true <-> Forall (fun r => result r = TRUE) rs.
Proof.
  rewrite forallb_forall, Forall_forall. unfold is_true.
  split; intros H r Hr.
  - apply list_elem_of_In in Hr. apply H in Hr. now apply bool_decide_eq_true in Hr.
  - apply list_elem_of_In in Hr. apply bool_decide_eq_true. now apply H.
Qed.

Lemma forallb_is_false_spec (rs : list EvaluationResult) :
  forallb is_false rs = true <-> Forall (fun r => result r = FALSE) rs.
Proof.
  rewrite forallb_forall, Forall_forall. unfold is_false.
  split; intros H r Hr.
  - apply list_elem_of_In in Hr. apply H in Hr. now apply bool_decide_eq_true in Hr.
  - apply list_elem_of_In in Hr. apply bool_decide_eq_true. now apply H.
Qed.

(** The verdict of a group in mode 'all', and in any other mode. *)
Lemma group_all_result cs candles context :
  let rs := (fun c => result (evaluate c candles context)) <$> cs in
  result (group_evaluate cs "all" candles context) =
    if bool_decide (Forall (fun r => r = TRUE) rs) then TRUE
    else if bool_decide (Exists (fun r => r = FALSE) rs) then FALSE
    else NEUTRAL.
Proof.
  cbv zeta. unfold group_evaluate. cbv zeta.
  rewrite bool_decide_eq_true_2 by reflexivity.
  set (results := (fun c => evaluate c candles context) <$> cs).
  assert (Hrs : (fun c => result (evaluate c candles context)) <$> cs = result <$> results)
    by (subst results; now rewrite <- list_fmap_compose).
  rewrite Hrs.
  destruct (forallb is_true results) eqn:Ea.
  - apply forallb_is_true_spec in Ea. rewrite bool_decide_eq_true_2; [reflexivity|].
    now apply Forall_fmap.
  - rewrite bool_decide_eq_false_2.
    2:{ intros H. apply Forall_fmap in H. apply forallb_is_true_spec in H. congruence. }
    pose proof (find_is_false_spec results) as Hf.
    destruct (List.find is_false results).
    + rewrite bool_decide_eq_true_2; [reflexivity|]. now apply Exists_fmap.
    + rewrite bool_decide_eq_false_2; [reflexivity|].
      intros H. apply Exists_fmap in H. apply Exists_exists in H as (r & Hr & Hx).
      rewrite Forall_forall in Hf. now apply (Hf r Hr).
Qed.

Lemma group_any_result cs mode candles context :
  mode <> "all" ->
  let rs := (fun c => result (evaluate c candles context)) <$> cs in
  result (group_evaluate cs mode candles context) =
    if bool_decide (Exists (fun r => r = TRUE) rs) then TRUE
    else if bool_decide (Forall (fun r => r = FALSE) rs) then FALSE
    else NEUTRAL.
Proof.
  intros Hm. cbv zeta. unfold group_evaluate. cbv zeta.
  rewrite bool_decide_eq_false_2 by exact Hm.
  set (results := (fun c => evaluate c candles context) <$> cs).
  assert (Hrs : (fun c => result (evaluate c candles context)) <$> cs = result <$> results)
    by (subst results; now rewrite <- list_fmap_compose).
  rewrite Hrs.
  pose proof (find_is_true_spec results) as Hf.
  destruct (List.find is_true results).
  - rewrite bool_decide_eq_true_2; [reflexivity|]. now apply Exists_fmap.
  - rewrite bool_decide_eq_false_2.
    2:{ intros H. apply Exists_fmap in H. apply Exists_exists in H as (r & Hr & Hx).
        rewrite Forall_forall in Hf. now apply (Hf r Hr). }
    destruct (forallb is_false results) eqn:Ea.
    + apply forallb_is_false_spec in Ea. rewrite bool_decide_eq_true_2; [reflexivity|].
      now apply Forall_fmap.
    + rewrite bool_decide_eq_false_2; [reflexivity|].
      intros H. apply Forall_fmap in H. apply forallb_is_false_spec in H. congruence.
Qed.

(** X20.  A [ConditionGroup] is the iterated binary combinator: in mode
    'all' the verdict of a group of [c] followed by [cs] is the verdict of
    [AndCondition] of [c] and the group of [cs], and the empty group is
    True; in any other mode (the code treats every mode but 'all' as
    'any') it is the verdict of [OrCondition] of [c] and the group of [cs],
    and the empty group is False.  Negating a group in mode 'all' gives the
    verdict of the group of the negated conditions in mode 'any', and the
    other way round. *)
Theorem group_is_iterated_combinator c cs mode candles context :
  mode <> "all" ->
  result (evaluate (ConditionGroup [] "all") candles context) = TRUE /\
  result (evaluate (ConditionGroup [] mode) candles context) = FALSE /\
  result (evaluate (ConditionGroup (c :: cs) "all") candles context) =
    result (evaluate (AndCondition c (ConditionGroup cs "all")) candles context) /\
  result (evaluate (ConditionGroup (c :: cs) mode) candles context) =
    result (evaluate (OrCondition c (ConditionGroup cs mode)) candles context) /\
  result (evaluate (NotCondition (ConditionGroup cs "all")) candles context) =
    result (evaluate (ConditionGroup (NotCondition <$> cs) mode) candles context) /\
  result (evaluate (NotCondition (ConditionGroup cs mode)) candles context) =
    result (evaluate (ConditionGroup (NotCondition <$> cs) "all") candles context).
Proof.
  intros Hm.
  assert (Hnot : forall c0, result (evaluate (NotCondition c0) candles context) =
                   match result (evaluate c0 candles context) with
                   | TRUE => FALSE | FALSE => TRUE | NEUTRAL => NEUTRAL end).
  { intros c0. cbn [evaluate]. unfold is_true, is_false.
    destruct (result (evaluate c0 candles context)); reflexivity. }
  assert (Hand : forall c1 c2, result (evaluate (AndCondition c1 c2) candles context) =
                   match result (evaluate c1 candles context),
                         result (evaluate c2 candles context) with
                   | FALSE, _ | _, FALSE => FALSE
                   | TRUE, TRUE => TRUE
                   | _, _ => NEUTRAL end).
  { intros c1 c2. cbn [evaluate]. unfold is_true, is_false.
    destruct (result (evaluate c1 candles context)),
             (result (evaluate c2 candles context)); reflexivity. }
  assert (Hor : forall c1 c2, result (evaluate (OrCondition c1 c2) candles context) =
                   match result (evaluate c1 candles context),
                         result (evaluate c2 candles context) with
                   | TRUE, _ | _, TRUE => TRUE
                   | FALSE, FALSE => FALSE
                   | _, _ => NEUTRAL end).
  { intros c1 c2. cbn [evaluate]. unfold is_true, is_false.
    destruct (result (evaluate c1 candles context)),
             (result (evaluate c2 candles context)); reflexivity. }
  rewrite Hand, Hor, !Hnot. unfold ConditionGroup. cbn [evaluate].
  rewrite !group_all_result, !(group_any_result _ mode _ _ Hm). cbv zeta.
  rewrite !fmap_cons, !fmap_nil.
  set (r := result (evaluate c candles context)).
  set (rs := (fun c0 => result (evaluate c0 candles context)) <$> cs).
  assert (Hneg : (fun c0 => result (evaluate c0 candles context)) <$> (NotCondition <$> cs)
                 = (fun x => match x with TRUE => FALSE | FALSE => TRUE | NEUTRAL => NEUTRAL end)
                     <$> rs).
  { subst rs. rewrite <- !list_fmap_compose. apply list_fmap_ext. intros i x _. apply Hnot. }
  rewrite Hneg. clearbody r rs. clear Hneg Hnot Hand Hor.
  assert (Hcons_all : bool_decide (Forall (fun x => x = TRUE) (r :: rs)) =
                      bool_decide (r = TRUE) && bool_decide (Forall (fun x => x = TRUE) rs)).
  { rewrite (bool_decide_ext _ _ (Forall_cons (fun x => x = TRUE) r rs)).
    apply bool_decide_and. }
  assert (Hcons_ex : forall v, bool_decide (Exists (fun x => x = v) (r :: rs)) =
                      bool_decide (r = v) || bool_decide (Exists (fun x => x = v) rs)).
  { intros v. rewrite (bool_decide_ext _ _ (Exists_cons (fun x => x = v) r rs)).
    apply bool_decide_or. }
  assert (Hcons_allf : bool_decide (Forall (fun x => x = FALSE) (r :: rs)) =
                      bool_decide (r = FALSE) && bool_decide (Forall (fun x => x = FALSE) rs)).
  { rewrite (bool_decide_ext _ _ (Forall_cons (fun x => x = FALSE) r rs)).
    apply bool_decide_and. }
  assert (Hex_all : forall v, Forall (fun x => x = v) rs -> Exists (fun x => x <> v) rs -> False).
  { intros v Ha He. apply Exists_exists in He as (x & Hx & Hne).
    rewrite Forall_forall in Ha. now apply Hne, Ha. }
  split; [now rewrite bool_decide_eq_true_2 by constructor|].
  split.
  { rewrite bool_decide_eq_false_2 by (intros H; inversion H).
    now rewrite bool_decide_eq_true_2 by constructor. }
  split.
  { rewrite Hcons_all, Hcons_ex.
    destruct (bool_decide (Forall (fun x => x = TRUE) rs)) eqn:E1,
             (bool_decide (Exists (fun x => x = FALSE) rs)) eqn:E2;
      destruct r; try reflexivity;
      exfalso; apply bool_decide_eq_true in E1, E2; apply (Hex_all TRUE E1);
      (eapply Exists_impl; [exact E2|]); simpl; congruence. }
  split.
  { rewrite Hcons_ex, Hcons_allf.
    destruct (bool_decide (Exists (fun x => x = TRUE) rs)) eqn:E1,
             (bool_decide (Forall (fun x => x = FALSE) rs)) eqn:E2;
      destruct r; try reflexivity;
      exfalso; apply bool_decide_eq_true in E1, E2; apply (Hex_all FALSE E2);
      (eapply Exists_impl; [exact E1|]); simpl; congruence. }
  assert (Hswap_ex : forall v w, (v = TRUE /\ w = FALSE) \/ (v = FALSE /\ w = TRUE) ->
            (Exists (fun x => x = v)
               ((fun x => match x with TRUE => FALSE | FALSE => TRUE | NEUTRAL => NEUTRAL end)
                  <$> rs) <-> Exists (fun x => x = w) rs)).
  { intros v w Hvw. rewrite Exists_fmap.
    split; intros He; (eapply Exists_impl; [exact He|]); intros x;
      destruct Hvw as [[-> ->] | [-> ->]]; destruct x; simpl; congruence. }
  assert (Hswap_all : forall v w, (v = TRUE /\ w = FALSE) \/ (v = FALSE /\ w = TRUE) ->
            (Forall (fun x => x = v)
               ((fun x => match x with TRUE => FALSE | FALSE => TRUE | NEUTRAL => NEUTRAL end)
                  <$> rs) <-> Forall (fun x => x = w) rs)).
  { intros v w Hvw. rewrite Forall_fmap. apply Forall_iff. intros x.
    destruct Hvw as [[-> ->] | [-> ->]]; destruct x; simpl; split; congruence. }
  split.
  - rewrite (bool_decide_ext _ _ (Hswap_ex TRUE FALSE (or_introl (conj eq_refl eq_refl)))).
    rewrite (bool_decide_ext _ _ (Hswap_all FALSE TRUE (or_intror (conj eq_refl eq_refl)))).
    destruct (bool_decide (Forall (fun x => x = TRUE) rs)) eqn:E1.
    + apply bool_decide_eq_true in E1. rewrite bool_decide_eq_false_2; [reflexivity|].
      intros He. apply (Hex_all TRUE E1). eapply Exists_impl; [exact He|].
      simpl. congruence.
    + destruct (bool_decide (Exists (fun x => x = FALSE) rs)); reflexivity.
  - rewrite (bool_decide_ext _ _ (Hswap_all TRUE FALSE (or_introl (conj eq_refl eq_refl)))).
    rewrite (bool_decide_ext _ _ (Hswap_ex FALSE TRUE (or_intror (conj eq_refl eq_refl)))).
    destruct (bool_decide (Exists (fun x => x = TRUE) rs)) eqn:E1.
    + apply bool_decide_eq_true in E1. rewrite bool_decide_eq_false_2; [reflexivity|].
      intros Ha. apply (Hex_all FALSE Ha). eapply Exists_impl; [exact E1|].
      simpl. congruence.
    + destruct (bool_decide (Forall (fun x => x = FALSE) rs)); reflexivity.
Qed.

(** *** Sequences *)

Section Sequence.
Variable self : SequenceCondition (Ctx := Ctx).

(** [current_bar] of an evaluation. *)
Definition bar_of (x : Table * Ctx) : Z := (Z.of_nat (len x.1) - 1)%Z.

(** The [j]-th condition of the sequence was true on the [j]-th of the
    evaluations [ks]. *)
Definition hits (all : list (Table * Ctx)) (ks : list nat) : Prop :=
  forall j kj c, ks !! j = Some kj -> seq_conditions self !! j = Some c ->
    exists x, all !! kj = Some x /\ result (evaluate c x.1 x.2) = TRUE.

(** Two successive evaluations of [ks] are at most [max_bars_between]
    bars apart (or the first saw an empty table). *)
Definition gaps (all : list (Table * Ctx)) (ks : list nat) : Prop :=
  forall j kj kj', ks !! j = Some kj -> ks !! S j = Some kj' ->
    exists x x', all !! kj = Some x /\ all !! kj' = Some x' /\
      ((bar_of x < 0)%Z \/ (bar_of x' - bar_of x <= max_bars_between self)%Z).

(** The state after the evaluations [pre]: the steps completed so far. *)
Definition StepInv (pre : list (Table * Ctx)) (st : SeqState) : Prop :=
  exists ks, length ks = current_step st /\
    StronglySorted lt ks /\ Forall (fun k => k < length pre) ks /\
    hits pre ks /\ gaps pre ks /\
    match last ks with
    | None => True
    | Some kl => exists x, pre !! kl = Some x /\ last_step_bar st = bar_of x
    end.

Lemma step_inv_reset pre : StepInv pre seq_reset.
Proof.
  exists []. repeat split; try constructor.
  - intros j kj c Hj. destruct j; discriminate.
  - intros j kj kj' Hj. destruct j; discriminate.
Qed.

Lemma step_inv_mono pre x st : StepInv pre st -> StepInv (pre ++ [x]) st.
Proof.
  intros (ks & Hlen & Hs & Hlt & Hh & Hg & Hl). exists ks.
  split; [exact Hlen|]. split; [exact Hs|]. split; [|split; [|split]].
  - eapply Forall_impl; [exact Hlt|]. intros k Hk. rewrite length_app. simpl in *. lia.
  - intros j kj c Hj Hc. destruct (Hh j kj c Hj Hc) as (y & Hy & Ht).
    exists y. split; [|exact Ht]. now apply lookup_app_l_Some.
  - intros j kj kj' Hj Hj'. destruct (Hg j kj kj' Hj Hj') as (y & y' & Hy & Hy' & Hgap).
    exists y, y'. split; [now apply lookup_app_l_Some|].
    split; [now apply lookup_app_l_Some | exact Hgap].
  - destruct (last ks) as [kl|]; [|exact I]. destruct Hl as (y & Hy & Hb).
    exists y. split; [now apply lookup_app_l_Some | exact Hb].
Qed.

Lemma sorted_lt_snoc (ks : list nat) (n : nat) :
  StronglySorted lt ks -> Forall (fun k => k < n) ks -> StronglySorted lt (ks ++ [n]).
Proof.
  induction 1 as [|k ks Hs IH Hk]; intros Hlt; simpl.
  - repeat constructor.
  - inversion Hlt; subst. constructor; [now apply IH|].
    apply Forall_app. split; [exact Hk|]. now repeat constructor.
Qed.

(** One more step completed, on the evaluation [x] that follows [pre]. *)
Lemma step_inv_advance pre x st c :
  StepInv pre st ->
  seq_conditions self !! current_step st = Some c ->
  result (evaluate c x.1 x.2) = TRUE ->
  ((last_step_bar st < 0)%Z \/ (bar_of x - last_step_bar st <= max_bars_between self)%Z
   \/ current_step st = 0) ->
  exists ks, length ks = current_step st + 1 /\
    StronglySorted lt ks /\ last ks = Some (length pre) /\
    Forall (fun k => k < length (pre ++ [x])) ks /\
    hits (pre ++ [x]) ks /\ gaps (pre ++ [x]) ks.
Proof.
  intros (ks & Hlen & Hs & Hlt & Hh & Hg & Hl) Hc Ht Hgap.
  exists (ks ++ [length pre]).
  split; [rewrite length_app; simpl; lia|].
  split; [now apply sorted_lt_snoc|].
  split; [apply last_snoc|].
  split; [|split].
  - apply Forall_app. split.
    + eapply Forall_impl; [exact Hlt|]. intros k Hk. rewrite length_app. simpl in *. lia.
    + repeat constructor. rewrite length_app. simpl. lia.
  - intros j kj c' Hj Hc'.
    destruct (decide (j < length ks)) as [Hjl|Hjl].
    + rewrite lookup_app_l in Hj by exact Hjl.
      destruct (Hh j kj c' Hj Hc') as (y & Hy & Hty).
      exists y. split; [now apply lookup_app_l_Some | exact Hty].
    + rewrite lookup_app_r in Hj by lia.
      destruct (j - length ks) as [|n] eqn:En; [|destruct n; discriminate].
      injection Hj as <-. assert (j = current_step st) as -> by lia.
      rewrite Hc in Hc'. injection Hc' as <-.
      exists x. split; [|exact Ht].
      rewrite lookup_app_r by lia. now rewrite Nat.sub_diag.
  - intros j kj kj' Hj Hj'.
    destruct (decide (S j < length ks)) as [Hjl|Hjl].
    + rewrite lookup_app_l in Hj by lia. rewrite lookup_app_l in Hj' by lia.
      destruct (Hg j kj kj' Hj Hj') as (y & y' & Hy & Hy' & Hgap').
      exists y, y'. split; [now apply lookup_app_l_Some|].
      split; [now apply lookup_app_l_Some | exact Hgap'].
    + assert (Hj'len : S j < length (ks ++ [length pre]))
        by (apply lookup_lt_Some in Hj'; exact Hj').
      rewrite length_app in Hj'len. simpl in Hj'len.
      assert (HSj : S j = length ks) by lia.
      rewrite lookup_app_l in Hj by lia.
      rewrite lookup_app_r in Hj' by lia. rewrite HSj, Nat.sub_diag in Hj'.
      injection Hj' as <-.
      assert (Hlast : last ks = Some kj).
      { rewrite last_lookup. rewrite <- HSj. exact Hj. }
      rewrite Hlast in Hl. destruct Hl as (y & Hy & Hb).
      exists y, x. split; [now apply lookup_app_l_Some|].
      split; [rewrite lookup_app_r by lia; now rewrite Nat.sub_diag|].
      rewrite <- Hb. destruct Hgap as [H|[H|H]]; [now left | now right | lia].
Qed.

(** The state in which [evaluate] looks at its condition. *)
Definition after_timeout (st : SeqState) (x : Table * Ctx) : SeqState :=
  if (0 <=? last_step_bar st)%Z && (max_bars_between self <? bar_of x - last_step_bar st)%Z
  then seq_reset else st.

Lemma after_timeout_inv pre st x :
  StepInv pre st ->
  StepInv pre (after_timeout st x) /\
  ((last_step_bar (after_timeout st x) < 0)%Z \/
   (bar_of x - last_step_bar (after_timeout st x) <= max_bars_between self)%Z \/
   current_step (after_timeout st x) = 0).
Proof.
  intros HI. unfold after_timeout.
  destruct ((0 <=? last_step_bar st)%Z && _) eqn:E.
  - split; [apply step_inv_reset | simpl; lia].
  - split; [exact HI|]. apply andb_false_iff in E as [E|E].
    + apply Z.leb_gt in E. now left.
    + apply Z.ltb_ge in E. right. now left.
Qed.

Lemma seq_evaluate_cases st candles context :
  let x := (candles, context) in
  let st1 := after_timeout st x in
  match seq_conditions self !! current_step st1 with
  | None => seq_evaluate self st candles context = (st1, Raise IndexError)
  | Some c =>
      if is_true (evaluate c candles context) then
        if length (seq_conditions self) <=? current_step st1 + 1 then
          exists r, seq_evaluate self st candles context = (seq_reset, Ok r) /\
                    result r = TRUE
        else
          exists r, seq_evaluate self st candles context =
                      ({| current_step := current_step st1 + 1;
                          last_step_bar := bar_of x |}, Ok r) /\
                    result r = NEUTRAL
      else
        exists r, seq_evaluate self st candles context = (st1, Ok r) /\
                  result r = NEUTRAL
  end.
Proof.
  cbv zeta. unfold seq_evaluate, after_timeout, bar_of. cbn [fst snd].
  destruct (seq_conditions self !! _) as [c|]; [|reflexivity].
  destruct (is_true (evaluate c candles context)); [|eauto].
  cbn [current_step]. destruct (length (seq_conditions self) <=? _); eauto.
Qed.

Lemma seq_run_sound inputs : forall pre st,
  StepInv pre st ->
  forall k r, seq_run self st inputs !! k = Some (Ok r) -> result r = TRUE ->
  exists ks, length ks = length (seq_conditions self) /\
    StronglySorted lt ks /\ last ks = Some (length pre + k) /\
    hits (pre ++ inputs) ks /\ gaps (pre ++ inputs) ks.
Proof.
  induction inputs as [|[candles context] rest IH]; intros pre st HI k r Hk Hr;
    [destruct k; discriminate|].
  cbn [seq_run] in Hk.
  pose proof (seq_evaluate_cases st candles context) as Hcases. cbv zeta in Hcases.
  destruct (after_timeout_inv pre st (candles, context) HI) as [HI1 Hgap].
  set (st1 := after_timeout st (candles, context)) in *.
  assert (Htail : forall st', StepInv (pre ++ [(candles, context)]) st' ->
            forall k', seq_run self st' rest !! k' = Some (Ok r) ->
            exists ks, length ks = length (seq_conditions self) /\
              StronglySorted lt ks /\ last ks = Some (length pre + S k') /\
              hits (pre ++ (candles, context) :: rest) ks /\
              gaps (pre ++ (candles, context) :: rest) ks).
  { intros st' HI' k' Hk'.
    destruct (IH (pre ++ [(candles, context)]) st' HI' k' r Hk' Hr)
      as (ks & H1 & H2 & H3 & H4 & H5).
    exists ks. rewrite length_app in H3. simpl in H3.
    rewrite <- app_assoc in H4, H5. simpl in H4, H5.
    split; [exact H1|]. split; [exact H2|].
    split; [rewrite H3; f_equal; lia|]. split; assumption. }
  destruct (seq_conditions self !! current_step st1) as [c|] eqn:Hc.
  - destruct (is_true (evaluate c candles context)) eqn:Et.
    + assert (Htrue : result (evaluate c (candles, context).1 (candles, context).2) = TRUE)
        by (unfold is_true in Et; now apply bool_decide_eq_true in Et).
      destruct (step_inv_advance pre (candles, context) st1 c HI1 Hc Htrue Hgap)
        as (ks & H1 & H2 & H3 & H4 & H5 & H6).
      destruct (length (seq_conditions self) <=? current_step st1 + 1) eqn:El.
      * destruct Hcases as (r0 & Hev & Hr0). rewrite Hev in Hk. cbv beta iota in Hk.
        destruct k as [|k'].
        -- exists ks. apply Nat.leb_le in El. apply lookup_lt_Some in Hc.
           split; [lia|]. split; [exact H2|].
           split; [now rewrite Nat.add_0_r|].
           split.
           ++ intros j kj c' Hj Hc'. destruct (H5 j kj c' Hj Hc') as (y & Hy & Hty).
              exists y. split; [|exact Hty].
              change ((candles, context) :: rest) with ([(candles, context)] ++ rest).
              rewrite app_assoc. now apply lookup_app_l_Some.
           ++ intros j kj kj' Hj Hj'. destruct (H6 j kj kj' Hj Hj') as (y & y' & Hy & Hy' & Hg).
              exists y, y'.
              change ((candles, context) :: rest) with ([(candles, context)] ++ rest).
              rewrite app_assoc. split; [now apply lookup_app_l_Some|].
              split; [now apply lookup_app_l_Some | exact Hg].
        -- apply (Htail seq_reset); [apply step_inv_reset | exact Hk].
      * destruct Hcases as (r0 & Hev & Hr0). rewrite Hev in Hk. cbv beta iota in Hk.
        destruct k as [|k'].
        -- injection Hk as ->. congruence.
        -- eapply Htail; [|exact Hk]. exists ks. cbn [current_step last_step_bar].
           split; [exact H1|]. split; [exact H2|]. split; [exact H4|].
           split; [exact H5|]. split; [exact H6|]. rewrite H3.
           exists (candles, context). split; [|reflexivity].
           rewrite lookup_app_r by lia. now rewrite Nat.sub_diag.
    + destruct Hcases as (r0 & Hev & Hr0). rewrite Hev in Hk. cbv beta iota in Hk.
        destruct k as [|k'].
      * injection Hk as ->. congruence.
      * apply (Htail st1); [now apply step_inv_mono | exact Hk].
  - rewrite Hcases in Hk. cbv beta iota in Hk. destruct k as [|k']; [discriminate|].
    apply (Htail st1); [now apply step_inv_mono | exact Hk].
Qed.

Lemma seq_run_length inputs : forall st, length (seq_run self st inputs) = length inputs.
Proof.
  induction inputs as [|[candles context] rest IH]; intros st; [reflexivity|].
  cbn [seq_run]. destruct (seq_evaluate self st candles context) as [st' o].
  simpl. now rewrite IH.
Qed.

Lemma seq_run_empty inputs : forall st,
  seq_conditions self = [] ->
  Forall (fun o => o = Raise IndexError) (seq_run self st inputs).
Proof.
  induction inputs as [|[candles context] rest IH]; intros st He; [constructor|].
  cbn [seq_run]. pose proof (seq_evaluate_cases st candles context) as Hc. cbv zeta in Hc.
  rewrite He in Hc. rewrite lookup_nil in Hc. rewrite Hc.
  constructor; [reflexivity | now apply IH].
Qed.

Lemma after_timeout_step st x n :
  current_step st < n -> 0 < n -> current_step (after_timeout st x) < n.
Proof. intros H Hn. unfold after_timeout. destruct (_ && _); simpl; lia. Qed.

Lemma seq_run_in_range inputs : forall st,
  current_step st < length (seq_conditions self) ->
  Forall (fun o => exists r, o = Ok r /\ (result r = TRUE \/ result r = NEUTRAL))
    (seq_run self st inputs).
Proof.
  induction inputs as [|[candles context] rest IH]; intros st Hst; [constructor|].
  cbn [seq_run]. pose proof (seq_evaluate_cases st candles context) as Hc. cbv zeta in Hc.
  assert (Hn : 0 < length (seq_conditions self)) by lia.
  pose proof (after_timeout_step st (candles, context) _ Hst Hn) as Hst1.
  destruct (seq_conditions self !! _) as [c|] eqn:El.
  - destruct (is_true (evaluate c candles context)).
    + destruct (length (seq_conditions self) <=? _) eqn:E.
      * destruct Hc as (r & -> & Hr). constructor; [eauto|]. apply IH. simpl. lia.
      * destruct Hc as (r & -> & Hr). apply Nat.leb_gt in E.
        constructor; [eauto|]. apply IH. simpl. lia.
    + destruct Hc as (r & -> & Hr). constructor; [eauto|]. now apply IH.
  - apply lookup_ge_None in El. lia.
Qed.

Lemma seq_run_single inputs c : forall st,
  seq_conditions self = [c] -> current_step st = 0 ->
  forall k candles context, inputs !! k = Some (candles, context) ->
    exists r, seq_run self st inputs !! k = Some (Ok r) /\
              (result r = TRUE <-> result (evaluate c candles context) = TRUE).
Proof.
  induction inputs as [|[candles0 context0] rest IH]; intros st Hs Hst k candles context Hk;
    [destruct k; discriminate|].
  cbn [seq_run]. pose proof (seq_evaluate_cases st candles0 context0) as Hc. cbv zeta in Hc.
  assert (Hst1 : current_step (after_timeout st (candles0, context0)) = 0)
    by (unfold after_timeout; destruct (_ && _); [reflexivity | exact Hst]).
  rewrite Hst1, Hs in Hc. cbn [lookup list_lookup length Nat.add Nat.leb] in Hc.
  destruct (is_true (evaluate c candles0 context0)) eqn:Et.
  - destruct Hc as (r & -> & Hr). destruct k as [|k'].
    + injection Hk as -> ->. exists r. split; [reflexivity|].
      unfold is_true in Et. apply bool_decide_eq_true in Et. tauto.
    + now apply (IH seq_reset Hs eq_refl k').
  - destruct Hc as (r & -> & Hr). destruct k as [|k'].
    + injection Hk as -> ->. exists r. split; [reflexivity|].
      unfold is_true in Et. apply bool_decide_eq_false in Et.
      split; [congruence | tauto].
    + now apply (IH _ Hs Hst1 k').
Qed.

(** X21.  Successive evaluations of one [SequenceCondition], from its
    initial state: there is one outcome per evaluation; with an empty list
    of conditions every evaluation raises IndexError; a verdict that is
    returned is True or Neutral, never False; and a verdict returned by a
    sequence of one condition is True exactly when that condition is True
    on the same evaluation. *)
Theorem sequence_outcomes (inputs : list (Table * Ctx)) :
  let outcomes := seq_run self seq_reset inputs in
  length outcomes = length inputs /\
  (seq_conditions self = [] -> Forall (fun o => o = Raise IndexError) outcomes) /\
  Forall (fun o => forall r, o = Ok r -> result r = TRUE \/ result r = NEUTRAL) outcomes /\
  (forall c, seq_conditions self = [c] ->
   forall k candles context r,
     inputs !! k = Some (candles, context) -> outcomes !! k = Some (Ok r) ->
     (result r = TRUE <-> result (evaluate c candles context) = TRUE)).
Proof.
  cbv zeta. split; [apply seq_run_length|]. split; [apply seq_run_empty|].
  split.
  - destruct (seq_conditions self) as [|c0 cs] eqn:Hcs.
    + pose proof (seq_run_empty inputs seq_reset Hcs) as He.
      eapply Forall_impl; [exact He|]. intros o -> r. discriminate.
    + assert (Hne : seq_conditions self <> []) by (rewrite Hcs; discriminate).
      assert (Hr : current_step seq_reset < length (seq_conditions self))
        by (rewrite Hcs; simpl; lia).
      pose proof (seq_run_in_range inputs seq_reset Hr) as Hin.
      eapply Forall_impl; [exact Hin|]. intros o (r & -> & Hres) r' [= <-]. exact Hres.
  - intros c Hc k candles context r Hk Hout.
    destruct (seq_run_single inputs c seq_reset Hc eq_refl k candles context Hk)
      as (r' & Hr' & Hiff).
    rewrite Hout in Hr'. injection Hr' as <-. exact Hiff.
Qed.

(** X22.  A sequence completes only when its conditions were met in
    order: if the k-th evaluation returns True, there are evaluations
    [k_1 < k_2 < ... < k_n = k], one per condition, such that the j-th
    condition was True on evaluation [k_j], and any two successive ones are
    at most [max_bars_between] bars apart ([current_bar] of the later one
    minus that of the earlier one), unless the earlier one saw an empty
    table. *)
Theorem sequence_complete_sound (inputs : list (Table * Ctx)) (k : nat)
    (r : EvaluationResult) :
  seq_run self seq_reset inputs !! k = Some (Ok r) -> result r = TRUE ->
  exists ks : list nat,
    length ks = length (seq_conditions self) /\
    StronglySorted lt ks /\ last ks = Some k /\
    (forall j kj c, ks !! j = Some kj -> seq_conditions self !! j = Some c ->
       exists x, inputs !! kj = Some x /\ result (evaluate c x.1 x.2) = TRUE) /\
    (forall j kj kj', ks !! j = Some kj -> ks !! S j = Some kj' ->
       exists x x', inputs !! kj = Some x /\ inputs !! kj' = Some x' /\
         ((bar_of x < 0)%Z \/ (bar_of x' - bar_of x <= max_bars_between self)%Z)).
Proof.
  intros Hk Hr.
  destruct (seq_run_sound inputs [] seq_reset (step_inv_reset []) k r Hk Hr)
    as (ks & H1 & H2 & H3 & H4 & H5).
  exists ks. auto.
Qed.
End Sequence.
End Groups.

(** Two conditions on the close of the last row, for the witnesses. *)
Definition always (v : ConditionResult) : Condition unit :=
  Concrete "always" (fun _ _ => {| result := v; condition_name := "always";
                                   details := ""; values := [] |}).

Definition empty_table : Table :=
  {| bars := []; has_timestamp := false; has_datetime := false |}.

Lemma group_is_iterated_combinator_witness :
  "any" <> "all" /\
  result (evaluate (ConditionGroup [always NEUTRAL; always TRUE] "any") empty_table tt) =
  result (evaluate (OrCondition (always NEUTRAL) (ConditionGroup [always TRUE] "any"))
            empty_table tt).
Proof.
  assert (H : "any" <> "all") by discriminate.
  split; [exact H|].
  apply (group_is_iterated_combinator (always NEUTRAL) [always TRUE] "any" empty_table tt H).
Defined.

Definition two_steps : SequenceCondition (Ctx := unit) :=
  {| seq_conditions := [always TRUE; always TRUE]; max_bars_between := 10 |}.

Lemma sequence_complete_sound_witness :
  exists r ks,
    seq_run two_steps seq_reset [(empty_table, tt); (empty_table, tt)] !! 1 = Some (Ok r) /\
    result r = TRUE /\ length ks = 2 /\ last ks = Some 1.
Proof.
  assert (H : exists r,
             seq_run two_steps seq_reset [(empty_table, tt); (empty_table, tt)] !! 1
               = Some (Ok r) /\ result r = TRUE)
    by (vm_compute; eauto).
  destruct H as (r & Hk & Hr).
  destruct (sequence_complete_sound two_steps [(empty_table, tt); (empty_table, tt)] 1 r Hk Hr)
    as (ks & H1 & _ & H3 & _).
  exists r, ks. auto.
Defined.

End GroupsSpec.

(** ** More on the strategy loader *)

Module ParserMore.
Import Py Parser.

(** The keyword arguments built from an entry: its items but 'type'. *)
Definition kwargs_of (d : list (string * Yaml)) : list (string * Yaml) :=
  filter (fun '(key, _) => key ≠ "type") d.

(** The class accepts the keyword arguments: every keyword is one of its
    parameters and every parameter without a default is given. *)
Definition accepted (k : CondClass) (kw : list (string * Yaml)) : Prop :=
  (forall key v, (key, v) ∈ kw -> key ∈ params k) /\
  (forall r, r ∈ required k -> is_Some (lookup_item r kw)).

Lemma accepted_spec k kw :
  accepted k kw <->
  forallb (fun '(key, _) => bool_decide (key ∈ params k)) kw = true /\
  forallb (fun r => bool_decide (is_Some (lookup_item r kw))) (required k) = true.
Proof.
  unfold accepted. rewrite !forallb_forall. split.
  - intros [H1 H2]. split.
    + intros [key v] Hin. apply bool_decide_eq_true. apply (H1 key v).
      now apply list_elem_of_In.
    + intros r Hin. apply bool_decide_eq_true. apply H2. now apply list_elem_of_In.
  - intros [H1 H2]. split.
    + intros key v Hin. apply list_elem_of_In in Hin. apply H1 in Hin.
      now apply bool_decide_eq_true in Hin.
    + intros r Hin. apply list_elem_of_In in Hin. apply H2 in Hin.
      now apply bool_decide_eq_true in Hin.
Qed.

Lemma construct_not_accepted k kw : ~ accepted k kw -> construct k kw = Raise TypeError.
Proof.
  intros H. unfold construct.
  destruct (forallb (fun '(key, _) => bool_decide (key ∈ params k)) kw) eqn:E1;
    [|reflexivity].
  destruct (forallb (fun r => bool_decide (is_Some (lookup_item r kw))) (required k)) eqn:E2;
    [|reflexivity].
  exfalso. apply H. now apply accepted_spec.
Qed.

Lemma construct_ok k kw cnd :
  construct k kw = Ok cnd ->
  cnd = {| cls := k; kwargs := kw |} /\ accepted k kw /\
  (forall p v, lowered k = Some p -> lookup_item p kw = Some v -> is_str v = true).
Proof.
  unfold construct.
  destruct (forallb (fun '(key, _) => bool_decide (key ∈ params k)) kw) eqn:E1;
    [|discriminate].
  destruct (forallb (fun r => bool_decide (is_Some (lookup_item r kw))) (required k)) eqn:E2;
    [|discriminate].
  cbn [negb]. cbv iota.
  intros H. split; [|split; [now apply accepted_spec|]].
  - unfold bind in H. repeat case_match; simplify_eq; reflexivity.
  - intros p v Hp Hv. rewrite Hp, Hv in H.
    destruct (is_str v); [reflexivity | discriminate].
Qed.

Lemma construct_bad_string k kw p v :
  accepted k kw -> lowered k = Some p -> lookup_item p kw = Some v -> is_str v = false ->
  construct k kw = Raise AttributeError.
Proof.
  intros Ha Hp Hv Hs. apply accepted_spec in Ha as [E1 E2].
  unfold construct. rewrite E1, E2, Hp, Hv, Hs. reflexivity.
Qed.

Lemma registry_has_no_empty_name : CONDITION_TYPES !! "" = None.
Proof. vm_compute. reflexivity. Qed.

(** What [_parse_condition] does with an entry whose type is registered. *)
Lemma parse_registered d s k :
  lookup_item "type" d = Some (YStr s) -> CONDITION_TYPES !! s = Some k ->
  _parse_condition (YDict d) =
    match construct k (kwargs_of d) with
    | Ok cnd => ([], Ok (Some cnd))
    | Raise TypeError => ([ErrorCreatingCondition (YStr s)], Ok None)
    | Raise e => ([], Raise e)
    end.
Proof.
  intros Hl Hk.
  assert (Hs : s <> "") by (intros ->; rewrite registry_has_no_empty_name in Hk; discriminate).
  unfold _parse_condition, get_opt, get. rewrite Hl.
  cbv beta iota. unfold truthy. rewrite bool_decide_eq_false_2 by exact Hs.
  cbv beta iota delta [negb]. rewrite Hk. reflexivity.
Qed.

(** A condition returned by [_parse_condition] comes from a registered
    entry. *)
Lemma parse_condition_some data w cnd :
  _parse_condition data = (w, Ok (Some cnd)) ->
  w = [] /\
  exists d s, data = YDict d /\ lookup_item "type" d = Some (YStr s) /\
              CONDITION_TYPES !! s = Some (cls cnd) /\
              construct (cls cnd) (kwargs_of d) = Ok cnd.
Proof.
  unfold _parse_condition, get_opt, get.
  destruct data as [| | | |l|d]; try discriminate.
  destruct (lookup_item "type" d) as [ty|] eqn:Hl; [|discriminate].
  destruct (negb (truthy ty)); [discriminate|].
  destruct ty as [|b|q|s|l|d'];
    [discriminate | discriminate | discriminate | | discriminate | discriminate].
  destruct (CONDITION_TYPES !! s) as [k|] eqn:Hk; [|discriminate].
  fold (kwargs_of d).
  destruct (construct k (kwargs_of d)) as [c|e] eqn:Hc; [|destruct e; discriminate].
  intros [= <- <-]. split; [reflexivity|].
  apply construct_ok in Hc as Hc'. destruct Hc' as (-> & _). cbn [cls].
  exists d, s. auto.
Qed.

Lemma parse_condition_counts data w c :
  _parse_condition data = (w, Ok c) ->
  length w + length (option_list c) <= 1.
Proof.
  unfold _parse_condition, get_opt, get.
  destruct data as [| | | |l|d]; try discriminate.
  destruct (lookup_item "type" d) as [ty|]; [|intros [= <- <-]; simpl; lia].
  destruct (negb (truthy ty)); [intros [= <- <-]; simpl; lia|].
  destruct ty as [|b|q|s|l|d'];
    [intros [= <- <-]; simpl; lia | intros [= <- <-]; simpl; lia |
     intros [= <- <-]; simpl; lia | | discriminate | discriminate].
  destruct (CONDITION_TYPES !! s) as [k|]; [|intros [= <- <-]; simpl; lia].
  destruct (construct k _) as [cnd|e]; [intros [= <- <-]; simpl; lia|].
  destruct e; try discriminate. intros [= <- <-]. simpl. lia.
Qed.

(** X23.  Whatever [_parse_conditions] returns for a list of entries was
    built from those entries: every condition object comes from an entry
    that is a dictionary whose 'type' is a registered name, is an object of
    the class registered under that name, carries the other items of the
    entry as its keyword arguments (never 'type'), all of them parameters
    of the class and every required parameter among them, with a string for
    the parameter the constructor lowercases.  Each entry gives at most one
    condition or one printed line, never both. *)
Theorem parsed_conditions_come_from_entries (items : list Yaml) w cs :
  _parse_conditions (YList items) = (w, Ok cs) ->
  length w + length cs <= length items /\
  Forall (fun cnd =>
            exists d s,
              YDict d ∈ items /\
              lookup_item "type" d = Some (YStr s) /\
              CONDITION_TYPES !! s = Some (cls cnd) /\
              kwargs cnd = filter (fun '(key, _) => key ≠ "type") d /\
              (forall key v, (key, v) ∈ kwargs cnd -> key ∈ params (cls cnd) /\ key <> "type") /\
              (forall r, r ∈ required (cls cnd) -> is_Some (lookup_item r (kwargs cnd))) /\
              (forall p v, lowered (cls cnd) = Some p ->
                           lookup_item p (kwargs cnd) = Some v -> is_str v = true))
         cs.
Proof.
  cbn [_parse_conditions]. revert w cs.
  induction items as [|x rest IH]; intros w cs.
  - intros [= <- <-]. split; [simpl; lia | constructor].
  - rewrite ParserSpec.parse_items_cons.
    destruct (_parse_condition x) as [w1 [c|e]] eqn:Hx; [|discriminate].
    destruct (parse_items rest) as [w2 [cs2|e2]] eqn:Hrest; [|discriminate].
    intros [= <- <-]. destruct (IH w2 cs2 eq_refl) as [Hlen HF].
    pose proof (parse_condition_counts x w1 c Hx) as Hcnt.
    assert (HF' : Forall (fun cnd =>
            exists d s,
              YDict d ∈ x :: rest /\
              lookup_item "type" d = Some (YStr s) /\
              CONDITION_TYPES !! s = Some (cls cnd) /\
              kwargs cnd = filter (fun '(key, _) => key ≠ "type") d /\
              (forall key v, (key, v) ∈ kwargs cnd -> key ∈ params (cls cnd) /\ key <> "type") /\
              (forall r, r ∈ required (cls cnd) -> is_Some (lookup_item r (kwargs cnd))) /\
              (forall p v, lowered (cls cnd) = Some p ->
                           lookup_item p (kwargs cnd) = Some v -> is_str v = true)) cs2).
    { eapply Forall_impl; [exact HF|]. intros cnd (d & s & Hin & H).
      exists d, s. split; [now right | exact H]. }
    destruct c as [cnd|].
    + split; [rewrite length_app; simpl in *; lia|].
      constructor; [|exact HF'].
      apply parse_condition_some in Hx as (_ & d & s & -> & Hl & Hk & Hc).
      apply construct_ok in Hc as (Hcnd & [Ha1 Ha2] & Hlow).
      exists d, s. split; [now left|]. split; [exact Hl|]. split; [exact Hk|].
      assert (Hkw : kwargs cnd = kwargs_of d) by (rewrite Hcnd; reflexivity).
      rewrite Hkw. split; [reflexivity|]. split; [|split; auto].
      intros key v Hin. split; [now apply (Ha1 key v)|].
      unfold kwargs_of in Hin. apply list_elem_of_filter in Hin as [Hne _]. exact Hne.
    + split; [rewrite length_app; simpl in *; lia | exact HF'].
Qed.

(** X24.  An entry whose type is registered but whose other items the
    class does not accept (an unexpected keyword, or a required parameter
    missing) is skipped with the line "Error creating condition", and the
    rest of the list is parsed as if the entry were absent.  An entry that
    the class accepts but that gives a value that is not a string for the
    parameter the constructor lowercases ('direction', 'zone') raises
    AttributeError, which is not caught: the list is not parsed any further
    and the load fails. *)
Theorem bad_arguments_skip_or_fail d s k :
  lookup_item "type" d = Some (YStr s) -> CONDITION_TYPES !! s = Some k ->
  let kw := filter (fun '(key, _) => key ≠ "type") d in
  (~ accepted k kw ->
   _parse_condition (YDict d) = ([ErrorCreatingCondition (YStr s)], Ok None) /\
   forall l1 l2, snd (parse_items (l1 ++ YDict d :: l2)) = snd (parse_items (l1 ++ l2))) /\
  (accepted k kw ->
   forall p v, lowered k = Some p -> lookup_item p kw = Some v -> is_str v = false ->
     _parse_condition (YDict d) = ([], Raise AttributeError) /\
     forall l1 l2 w1 cs1, parse_items l1 = (w1, Ok cs1) ->
       parse_items (l1 ++ YDict d :: l2) = (w1, Raise AttributeError)).
Proof.
  intros Hl Hk kw. pose proof (parse_registered d s k Hl Hk) as Hp.
  subst kw. fold (kwargs_of d). split.
  - intros Hna. rewrite (construct_not_accepted k _ Hna) in Hp.
    split; [exact Hp|]. intros l1 l2.
    now apply ParserSpec.parse_items_skip_outcome with [ErrorCreatingCondition (YStr s)].
  - intros Ha p v Hlow Hv Hstr.
    rewrite (construct_bad_string k _ p v Ha Hlow Hv Hstr) in Hp.
    split; [exact Hp|]. intros l1. induction l1 as [|x l1 IH]; intros l2 w1 cs1.
    + intros [= <- <-]. rewrite app_nil_l, ParserSpec.parse_items_cons, Hp. reflexivity.
    + rewrite <- app_comm_cons, !ParserSpec.parse_items_cons.
      destruct (_parse_condition x) as [w [c|e]]; [|discriminate].
      destruct (parse_items l1) as [w' [cs'|e']]; [|discriminate].
      intros [= <- <-]. now rewrite (IH l2 w' cs' eq_refl).
Qed.

(** An entry with an unexpected keyword, and one with a number for
    'direction'. *)
Definition misspelt_entry : list (string * Yaml) :=
  [("type", YStr "bos_occurred"); ("lookbak", YNum 5)].

Definition numeric_direction_entry : list (string * Yaml) :=
  [("type", YStr "candle_direction"); ("direction", YNum 1)].

Lemma parsed_conditions_come_from_entries_witness :
  exists w cs,
    _parse_conditions
      (YList [YDict misspelt_entry;
              YDict [("type", YStr "in_uptrend")]]) = (w, Ok cs) /\
    length w = 1 /\ length cs = 1 /\ length w + length cs <= 2.
Proof.
  assert (H : exists w cs,
             _parse_conditions
               (YList [YDict misspelt_entry;
                       YDict [("type", YStr "in_uptrend")]]) = (w, Ok cs) /\
             length w = 1 /\ length cs = 1)
    by (vm_compute; eauto 10).
  destruct H as (w & cs & Hp & Hw & Hc). exists w, cs.
  split; [exact Hp|]. split; [exact Hw|]. split; [exact Hc|].
  exact (proj1 (parsed_conditions_come_from_entries _ w cs Hp)).
Defined.

Lemma bad_arguments_skip_or_fail_witness :
  lookup_item "type" numeric_direction_entry = Some (YStr "candle_direction") /\
  CONDITION_TYPES !! "candle_direction" = Some CandleDirection /\
  _parse_condition (YDict numeric_direction_entry) = ([], Raise AttributeError).
Proof.
  assert (Hl : lookup_item "type" numeric_direction_entry = Some (YStr "candle_direction"))
    by reflexivity.
  assert (Hk : CONDITION_TYPES !! "candle_direction" = Some CandleDirection)
    by (vm_compute; reflexivity).
  split; [exact Hl|]. split; [exact Hk|].
  destruct (bad_arguments_skip_or_fail numeric_direction_entry "candle_direction"
              CandleDirection Hl Hk) as [_ Hfail].
  assert (Ha : accepted CandleDirection
                 (filter (fun '(key, _) => key ≠ "type") numeric_direction_entry)).
  { apply accepted_spec. split; vm_compute; reflexivity. }
  exact (proj1 (Hfail Ha "direction" (YNum 1) eq_refl eq_refl eq_refl)).
Defined.

End ParserMore.

(** ** The conditions on breaks *)

Module PatternConditionsSpec.
Import Candles Swings Breaks BreakQueries Conditions PatternConditions.

(** The break is within [lookback] bars of the last row. *)
Definition recent (self : Occurred) (candles : Table) (b : StructureBreak) : Prop :=
  (Z.of_nat (len candles) - 1 - Z.of_nat (break_index b) <= oc_lookback self)%Z.

(** The break has the direction the condition asks for, if it asks for
    one: 'bullish', or anything else, which stands for bearish. *)
Definition wanted (bullish bearish : BreakType) (self : Occurred) (b : StructureBreak)
  : Prop :=
  if direction_set (oc_direction self) then
    if bool_decide (oc_direction self = Some "bullish") then break_type b = bullish
    else break_type b = bearish
  else True.

Lemma sorted_filter {A} (R : A -> A -> Prop) (P : A -> Prop) `{!forall x, Decision (P x)}
    (l : list A) :
  StronglySorted R l -> StronglySorted R (filter P l).
Proof.
  induction 1 as [|x l Hl IH Hx]; [constructor|].
  rewrite filter_cons. destruct (decide (P x)); [|exact IH].
  constructor; [exact IH|].
  apply Forall_forall. intros y Hy. apply list_elem_of_filter in Hy as [_ Hy].
  rewrite Forall_forall in Hx. now apply Hx.
Qed.

(** The breaks among which [evaluate] takes the last one. *)
Definition chosen_breaks (bullish bearish : BreakType) (breaks : list StructureBreak)
    (self : Occurred) (candles : Table) : list StructureBreak :=
  let recent_breaks :=
    filter (fun b => (Z.of_nat (len candles) - 1 - Z.of_nat (break_index b)
                      <= oc_lookback self)%Z) breaks in
  if direction_set (oc_direction self) then
    if bool_decide (oc_direction self = Some "bullish")
    then filter (fun b => break_type b = bullish) recent_breaks
    else filter (fun b => break_type b = bearish) recent_breaks
  else recent_breaks.

Lemma occurred_evaluate_last label bullish bearish breaks self candles :
  match last (chosen_breaks bullish bearish breaks self candles) with
  | Some latest =>
      occurred_evaluate label bullish bearish breaks self candles =
      {| result := TRUE; condition_name := oc_name self;
         details := break_type_value (break_type latest) +:+ " at bar " +:+
                    pretty (break_index latest);
         values := [("break_type", VStr (break_type_value (break_type latest)));
                    ("break_price", VNum (break_price latest))] |}
  | None =>
      result (occurred_evaluate label bullish bearish breaks self candles) = FALSE
  end.
Proof.
  unfold occurred_evaluate, chosen_breaks. cbv zeta.
  destruct breaks as [|b0 bs].
  { rewrite filter_nil.
    destruct (direction_set _); [destruct (bool_decide _)|]; rewrite ?filter_nil;
      reflexivity. }
  cbv iota. generalize (b0 :: bs). intros l.
  destruct (filter _ l) as [|r0 rest].
  { destruct (direction_set _); [destruct (bool_decide _)|]; rewrite ?filter_nil;
      reflexivity. }
  cbv iota. generalize (r0 :: rest). intros rb.
  destruct (last _); reflexivity.
Qed.

Lemma occurred_evaluate_spec label bullish bearish breaks self candles :
  StronglySorted (fun a b => break_index a <= break_index b) breaks ->
  let r := occurred_evaluate label bullish bearish breaks self candles in
  (result r = TRUE \/ result r = FALSE) /\
  (result r = TRUE <->
   exists b, b ∈ breaks /\ recent self candles b /\ wanted bullish bearish self b) /\
  (result r = TRUE ->
   exists latest,
     latest ∈ breaks /\ recent self candles latest /\ wanted bullish bearish self latest /\
     values r = [("break_type", VStr (break_type_value (break_type latest)));
                 ("break_price", VNum (break_price latest))] /\
     forall b, b ∈ breaks -> recent self candles b -> wanted bullish bearish self b ->
               break_index b <= break_index latest).
Proof.
  intros Hs. cbv zeta.
  set (chosen := chosen_breaks bullish bearish breaks self candles).
  assert (Hin : forall b, b ∈ chosen <->
                          b ∈ breaks /\ recent self candles b /\ wanted bullish bearish self b).
  { intros b. subst chosen. unfold chosen_breaks, wanted, recent. cbv zeta.
    destruct (direction_set (oc_direction self));
      [destruct (bool_decide (oc_direction self = Some "bullish"))|];
      rewrite ?list_elem_of_filter; tauto. }
  assert (Hsorted : StronglySorted (fun a b => break_index a <= break_index b) chosen).
  { subst chosen. unfold chosen_breaks. cbv zeta.
    destruct (direction_set (oc_direction self));
      [destruct (bool_decide (oc_direction self = Some "bullish"))|];
      repeat apply sorted_filter; exact Hs. }
  pose proof (occurred_evaluate_last label bullish bearish breaks self candles) as Hev.
  fold chosen in Hev.
  destruct (last chosen) as [latest|] eqn:Hl.
  - rewrite Hev. cbn [result values].
    pose proof (last_Some_elem_of _ _ Hl) as Hlatest. apply Hin in Hlatest.
    split; [now left|]. split.
    + split; [|reflexivity]. intros _. exists latest. exact Hlatest.
    + intros _. exists latest. destruct Hlatest as (H1 & H2 & H3).
      split; [exact H1|]. split; [exact H2|]. split; [exact H3|]. split; [reflexivity|].
      intros b Hb1 Hb2 Hb3.
      apply (SortingMore.sorted_last_max break_index chosen latest Hsorted Hl).
      apply Hin. auto.
  - rewrite Hev. split; [now right|]. split; [|discriminate].
    split; [discriminate|]. intros (b & Hb). apply Hin in Hb.
    apply last_None in Hl. rewrite Hl in Hb. inversion Hb.
Qed.

(** X25.  [BOSOccurred] is True exactly when [detect_bos] returns a break
    within [lookback] bars of the last row that has the direction asked for
    ('bullish' asks for a bullish BOS, any other non-empty direction for a
    bearish one, no direction for either); otherwise it is False, never
    Neutral.  When it is True its [values] are those of such a break with
    the largest [break_index].  Hence a condition that is True stays True
    under a larger lookback.  [MSBOccurred] does the same on [detect_msb]. *)
Theorem break_conditions_sound_and_complete (self : Occurred) (candles : Table) :
  let bos := BOSOccurred_evaluate self candles in
  let msb := MSBOccurred_evaluate self candles in
  ((result bos = TRUE \/ result bos = FALSE) /\
   (result bos = TRUE <->
    exists b, b ∈ detect_bos DETECTOR_DEFAULT candles /\ recent self candles b /\
              wanted BOS_BULLISH BOS_BEARISH self b) /\
   (result bos = TRUE ->
    exists latest,
      latest ∈ detect_bos DETECTOR_DEFAULT candles /\ recent self candles latest /\
      wanted BOS_BULLISH BOS_BEARISH self latest /\
      values bos = [("break_type", VStr (break_type_value (break_type latest)));
                    ("break_price", VNum (break_price latest))] /\
      forall b, b ∈ detect_bos DETECTOR_DEFAULT candles -> recent self candles b ->
                wanted BOS_BULLISH BOS_BEARISH self b ->
                break_index b <= break_index latest)) /\
  ((result msb = TRUE \/ result msb = FALSE) /\
   (result msb = TRUE <->
    exists b, b ∈ detect_msb DETECTOR_DEFAULT candles /\ recent self candles b /\
              wanted MSB_BULLISH MSB_BEARISH self b) /\
   (result msb = TRUE ->
    exists latest,
      latest ∈ detect_msb DETECTOR_DEFAULT candles /\ recent self candles latest /\
      wanted MSB_BULLISH MSB_BEARISH self latest /\
      values msb = [("break_type", VStr (break_type_value (break_type latest)));
                    ("break_price", VNum (break_price latest))] /\
      forall b, b ∈ detect_msb DETECTOR_DEFAULT candles -> recent self candles b ->
                wanted MSB_BULLISH MSB_BEARISH self b ->
                break_index b <= break_index latest)) /\
  (forall lookback',
     (oc_lookback self <= lookback')%Z ->
     let wider := {| oc_direction := oc_direction self; oc_lookback := lookback';
                     oc_name := oc_name self |} in
     (result bos = TRUE -> result (BOSOccurred_evaluate wider candles) = TRUE) /\
     (result msb = TRUE -> result (MSBOccurred_evaluate wider candles) = TRUE)).
Proof.
  cbv zeta.
  pose proof (BreaksMore.detect_with_sorted DETECTOR_DEFAULT candles 2
                (_detect_break_above DETECTOR_DEFAULT candles)
                (_detect_break_below DETECTOR_DEFAULT candles)) as Hb.
  pose proof (BreaksMore.detect_with_sorted DETECTOR_DEFAULT candles 3
                (_detect_bullish_msb DETECTOR_DEFAULT candles)
                (_detect_bearish_msb DETECTOR_DEFAULT candles)) as Hm.
  fold (detect_bos DETECTOR_DEFAULT candles) in Hb.
  fold (detect_msb DETECTOR_DEFAULT candles) in Hm.
  unfold BOSOccurred_evaluate, MSBOccurred_evaluate.
  split; [exact (occurred_evaluate_spec "BOS" _ _ _ self candles Hb)|].
  split; [exact (occurred_evaluate_spec "MSB" _ _ _ self candles Hm)|].
  intros lookback' Hle.
  set (wider := {| oc_direction := oc_direction self; oc_lookback := lookback';
                   oc_name := oc_name self |}).
  assert (Hmono : forall bull bear b,
            recent self candles b /\ wanted bull bear self b ->
            recent wider candles b /\ wanted bull bear wider b).
  { intros bull bear b [H1 H2]. unfold recent, wanted in *. subst wider. cbn.
    split; [lia | exact H2]. }
  split; intros Ht.
  - apply (occurred_evaluate_spec "BOS" _ _ _ wider candles Hb).
    apply (occurred_evaluate_spec "BOS" _ _ _ self candles Hb) in Ht as (b & H1 & H2 & H3).
    exists b. split; [exact H1|]. now apply Hmono.
  - apply (occurred_evaluate_spec "MSB" _ _ _ wider candles Hm).
    apply (occurred_evaluate_spec "MSB" _ _ _ self candles Hm) in Ht as (b & H1 & H2 & H3).
    exists b. split; [exact H1|]. now apply Hmono.
Qed.

End PatternConditionsSpec.

(** ** The conditions on prices and candles *)

Module PriceConditionsSpec.
Import Candles Py Conditions PriceConditions.

(** The last row but one of a table is the last row of the table without
    its last row. *)
Lemma last_of_prefix (c : Table) :
  2 <= len c ->
  last (bars (iloc_prefix c (len c - 1))) = bars c !! (len c - 2).
Proof.
  intros Hlen. unfold iloc_prefix, len in *. cbn [bars].
  rewrite last_lookup, length_take.
  replace (Nat.pred (Nat.min (length (bars c) - 1) (length (bars c))))
    with (length (bars c) - 2) by lia.
  apply lookup_take_lt. lia.
Qed.

Section Formatting.
Variable fmt4 : Q -> string.

(** X26.  [PriceAbove] and [PriceBelow] on the same level, source, table
    and context raise the same exception or are both Neutral (the level
    names an indicator that the context lacks) or are both decided, and then
    they are never both True.  For a static level, [PriceCrossedAbove] is
    Neutral on a table of fewer than two rows (even on the empty table, on
    which [PriceAbove] raises IndexError); on a longer table it is True
    exactly when [PriceAbove] is True on the table and False on the table
    without its last row, and False otherwise; likewise [PriceCrossedBelow]
    with [PriceBelow]. *)
Theorem price_level_conditions (self : OnLevel) (candles : Table) (context : Context) :
  match PriceAbove_evaluate fmt4 self candles context,
        PriceBelow_evaluate fmt4 self candles context with
  | Ok ra, Ok rb =>
      (result ra = NEUTRAL <-> result rb = NEUTRAL) /\
      ~ (result ra = TRUE /\ result rb = TRUE)
  | Raise e, Raise e' => e = e'
  | _, _ => False
  end /\
  (forall q, ol_level self = LNum q ->
     (len candles < 2 ->
      exists ra rb,
        PriceCrossedAbove_evaluate fmt4 self candles context = Ok ra /\
        PriceCrossedBelow_evaluate fmt4 self candles context = Ok rb /\
        result ra = NEUTRAL /\ result rb = NEUTRAL) /\
     (len candles = 0 ->
      PriceAbove_evaluate fmt4 self candles context = Raise IndexError) /\
     (2 <= len candles ->
      let before := iloc_prefix candles (len candles - 1) in
      exists ra rb above above' below below',
        PriceCrossedAbove_evaluate fmt4 self candles context = Ok ra /\
        PriceCrossedBelow_evaluate fmt4 self candles context = Ok rb /\
        PriceAbove_evaluate fmt4 self candles context = Ok above /\
        PriceAbove_evaluate fmt4 self before context = Ok above' /\
        PriceBelow_evaluate fmt4 self candles context = Ok below /\
        PriceBelow_evaluate fmt4 self before context = Ok below' /\
        (result ra = TRUE <-> result above = TRUE /\ result above' = FALSE) /\
        (result ra = TRUE \/ result ra = FALSE) /\
        (result rb = TRUE <-> result below = TRUE /\ result below' = FALSE) /\
        (result rb = TRUE \/ result rb = FALSE))).
Proof.
  split.
  - unfold PriceAbove_evaluate, PriceBelow_evaluate.
    destruct (iloc_last (ol_source self) candles) as [price|e]; [|reflexivity].
    cbn [bind].
    destruct (resolve (ol_level self) candles context) as [[k|target]|e]; [| |reflexivity].
    + cbn. split; [tauto | intros [H _]; discriminate].
    + cbn [bind].
      destruct (Num.gtb price target) eqn:E1, (Num.ltb price target) eqn:E2; cbn;
        (split; [split; discriminate|]); intros [H1 H2]; try discriminate.
      apply NumFacts.gtb_gt in E1. apply NumFacts.ltb_lt in E2.
      exact (Qlt_irrefl _ (Qlt_trans _ _ _ E1 E2)).
  - intros q Hq. split; [|split].
    + intros Hlen. unfold PriceCrossedAbove_evaluate, PriceCrossedBelow_evaluate.
      apply Nat.ltb_lt in Hlen. rewrite Hlen. eauto 10.
    + intros Hlen. unfold PriceAbove_evaluate, iloc_last.
      unfold len in Hlen. apply length_zero_iff_nil in Hlen. now rewrite Hlen.
    + intros Hlen. cbv zeta.
      unfold PriceCrossedAbove_evaluate, PriceCrossedBelow_evaluate,
        PriceAbove_evaluate, PriceBelow_evaluate, iloc_last, iloc_last_but_one.
      rewrite Hq, (last_of_prefix candles Hlen).
      assert (Hl2 : (len candles <? 2) = false) by (apply Nat.ltb_ge; exact Hlen).
      rewrite Hl2.
      destruct (last (bars candles)) as [bl|] eqn:Hl.
      2:{ apply last_None in Hl. unfold len in Hlen. rewrite Hl in Hlen. simpl in Hlen. lia. }
      destruct (bars candles !! (len candles - 2)) as [bp|] eqn:Hp.
      2:{ apply lookup_ge_None in Hp. unfold len in *. lia. }
      cbn [bind resolve].
      set (cur := column (ol_source self) bl). set (prev := column (ol_source self) bp).
      unfold Num.geb, Num.gtb, Num.ltb, Num.leb.
      destruct (Qle_bool cur q) eqn:E1, (Qle_bool prev q) eqn:E2,
               (Qle_bool q cur) eqn:E3, (Qle_bool q prev) eqn:E4;
        cbn [negb andb];
        eexists _, _, _, _, _, _;
        (split; [reflexivity|]); (split; [reflexivity|]);
        (split; [reflexivity|]); (split; [reflexivity|]);
        (split; [reflexivity|]); (split; [reflexivity|]);
        cbn [result]; intuition (auto; discriminate).
Qed.

Definition bullish_row (b : Bar) : Prop := (open b < close b)%Q.
Definition bearish_row (b : Bar) : Prop := (close b < open b)%Q.

(** The rows [ConsecutiveCandles] asks of: bullish ones for the
    direction 'bullish', bearish ones for any other direction. *)
Definition matching_row (direction : string) (b : Bar) : Prop :=
  if bool_decide (direction = "bullish") then bullish_row b else bearish_row b.

Lemma consecutive_result self candles :
  len candles < cd_count self /\
    result (ConsecutiveCandles_evaluate self candles) = NEUTRAL \/
  cd_count self <= len candles /\
    (result (ConsecutiveCandles_evaluate self candles) = TRUE /\
       Forall (matching_row (cd_direction self)) (iloc_tail (cd_count self) candles) \/
     result (ConsecutiveCandles_evaluate self candles) = FALSE /\
       ~ Forall (matching_row (cd_direction self)) (iloc_tail (cd_count self) candles)).
Proof.
  unfold ConsecutiveCandles_evaluate. cbv zeta.
  destruct (len candles <? cd_count self) eqn:E.
  - apply Nat.ltb_lt in E. left. auto.
  - apply Nat.ltb_ge in E. right. split; [exact E|].
    assert (Hm : forall l,
              (if bool_decide (cd_direction self = "bullish")
               then forallb (fun b => Num.gtb (close b) (open b)) l
               else forallb (fun b => Num.ltb (close b) (open b)) l) = true <->
              Forall (matching_row (cd_direction self)) l).
    { intros l. unfold matching_row, bullish_row, bearish_row.
      destruct (bool_decide (cd_direction self = "bullish"));
        rewrite forallb_forall, Forall_forall;
        split; intros H b Hb.
      - apply list_elem_of_In in Hb. apply H in Hb. now apply NumFacts.gtb_gt in Hb.
      - apply NumFacts.gtb_gt. apply H. now apply list_elem_of_In.
      - apply list_elem_of_In in Hb. apply H in Hb. now apply NumFacts.ltb_lt in Hb.
      - apply NumFacts.ltb_lt. apply H. now apply list_elem_of_In. }
    destruct (if bool_decide (cd_direction self = "bullish") then _ else _) eqn:Ea.
    + left. split; [reflexivity|]. now apply Hm.
    + right. split; [reflexivity|]. intros H. apply Hm in H. congruence.
Qed.

(** X27.  [ConsecutiveCandles] is Neutral exactly when the table has
    fewer than [count] rows; otherwise it is True when the last [count] rows
    all close above their open (for the direction 'bullish') or below it
    (for any other direction), False if one of them does not.  With
    [count] 0 the slice [iloc[-0:]] is the whole table, so all rows of the
    table are asked of.  A condition True for a count [m] is True for every
    count from 1 to [m].  On a table with rows and for the directions
    'bullish' and 'bearish', [CandleDirection] gives the verdict of
    [ConsecutiveCandles] with count 1; for any other direction it is
    always False; on the empty table it raises IndexError, where
    [ConsecutiveCandles] with count 1 is Neutral. *)
Theorem candle_conditions (direction name : string) (candles : Table) :
  let consecutive n :=
    result (ConsecutiveCandles_evaluate
              {| cd_direction := direction; cd_count := n; cd_name := name |} candles) in
  let single :=
    CandleDirection_evaluate fmt4
      {| cd_direction := direction; cd_count := 0; cd_name := name |} candles in
  (forall n, consecutive n = NEUTRAL <-> len candles < n) /\
  (forall n, 1 <= n <= len candles ->
     (consecutive n = TRUE \/ consecutive n = FALSE) /\
     (consecutive n = TRUE <->
      Forall (matching_row direction) (drop (len candles - n) (bars candles)))) /\
  (consecutive 0 = TRUE <-> Forall (matching_row direction) (bars candles)) /\
  (forall n m, 1 <= n <= m -> consecutive m = TRUE -> consecutive n = TRUE) /\
  (len candles = 0 -> single = Raise IndexError /\ consecutive 1 = NEUTRAL) /\
  (0 < len candles ->
   exists r, single = Ok r /\
     (direction = "bullish" \/ direction = "bearish" -> result r = consecutive 1) /\
     (direction <> "bullish" -> direction <> "bearish" -> result r = FALSE)).
Proof.
  cbv zeta.
  assert (Hc : forall n,
    let self := {| cd_direction := direction; cd_count := n; cd_name := name |} in
    len candles < n /\ result (ConsecutiveCandles_evaluate self candles) = NEUTRAL \/
    n <= len candles /\
      (result (ConsecutiveCandles_evaluate self candles) = TRUE /\
         Forall (matching_row direction) (iloc_tail n candles) \/
       result (ConsecutiveCandles_evaluate self candles) = FALSE /\
         ~ Forall (matching_row direction) (iloc_tail n candles))).
  { intros n. exact (consecutive_result
                       {| cd_direction := direction; cd_count := n; cd_name := name |}
                       candles). }
  cbv zeta in Hc.
  assert (Htail : forall n, 1 <= n -> iloc_tail n candles = drop (len candles - n) (bars candles)).
  { intros n Hn. unfold iloc_tail. destruct n; [lia | reflexivity]. }
  split; [|split; [|split; [|split; [|split]]]].
  - intros n. destruct (Hc n) as [[H1 H2] | [H1 [[H2 _] | [H2 _]]]]; rewrite H2;
      split; intros H; try discriminate; try reflexivity; lia.
  - intros n Hn. rewrite <- (Htail n) by lia.
    destruct (Hc n) as [[H1 H2] | [H1 [[H2 H3] | [H2 H3]]]]; [lia| |]; rewrite H2.
    + split; [now left|]. tauto.
    + split; [now right|]. split; [discriminate | tauto].
  - destruct (Hc 0) as [[H1 H2] | [H1 [[H2 H3] | [H2 H3]]]]; [lia| |]; rewrite H2;
      unfold iloc_tail in H3; cbn [Nat.eqb] in H3.
    + tauto.
    + split; [discriminate | tauto].
  - intros n m Hnm Hm.
    destruct (Hc m) as [[H1 H2] | [H1 [[H2 H3] | [H2 H3]]]]; try congruence.
    destruct (Hc n) as [[H4 H5] | [H4 [[H5 H6] | [H5 H6]]]]; [lia | exact H5 |].
    exfalso. apply H6. rewrite Htail in * by lia.
    replace (len candles - n) with ((len candles - m) + (m - n)) by lia.
    rewrite <- drop_drop. now apply Forall_drop.
  - intros Hlen. split.
    + unfold CandleDirection_evaluate, iloc_last.
      unfold len in Hlen. apply length_zero_iff_nil in Hlen. now rewrite Hlen.
    + destruct (Hc 1) as [[H1 H2] | [H1 _]]; [exact H2 | lia].
  - intros Hlen. unfold CandleDirection_evaluate, iloc_last.
    destruct (last (bars candles)) as [bl|] eqn:Hl.
    2:{ apply last_None in Hl. unfold len in Hlen. rewrite Hl in Hlen. simpl in Hlen. lia. }
    cbn [bind column cd_direction cd_name].
    assert (Hrows : iloc_tail 1 candles = [bl]).
    { rewrite Htail by lia. unfold len. rewrite last_lookup in Hl.
      apply drop_S in Hl as Hd.
      replace (length (bars candles) - 1) with (Nat.pred (length (bars candles))) by lia.
      rewrite Hd, drop_ge; [reflexivity|]. lia. }
    assert (Hone : forall d, Forall (matching_row d) [bl] <-> matching_row d bl).
    { intros d. split; [intros H; now inversion H | intros H; now repeat constructor]. }
    destruct (Hc 1) as [[H1 H2] | [H1 Hcase]]; [lia|].
    rewrite Hrows, Hone in Hcase. unfold matching_row, bullish_row, bearish_row in Hcase.
    destruct (bool_decide (direction = "bullish")) eqn:Eb.
    + apply bool_decide_eq_true in Eb. cbn [andb].
      destruct (Num.gtb (close bl) (open bl)) eqn:Eg.
      * eexists. split; [reflexivity|]. cbn [result]. split; [|congruence].
        intros _. destruct Hcase as [[H _] | [_ H]]; [now rewrite H|].
        exfalso. apply H. now apply NumFacts.gtb_gt.
      * assert (Hbear : bool_decide (direction = "bearish") = false)
          by (apply bool_decide_eq_false; subst; discriminate).
        rewrite Hbear. cbn [andb]. eexists. split; [reflexivity|]. cbn [result].
        split; [|congruence]. intros _.
        destruct Hcase as [[_ H] | [H _]]; [|now rewrite H].
        apply NumFacts.gtb_gt in H. congruence.
    + apply bool_decide_eq_false in Eb. cbn [andb].
      destruct (bool_decide (direction = "bearish")) eqn:Ebe.
      * apply bool_decide_eq_true in Ebe. cbn [andb].
        destruct (Num.ltb (close bl) (open bl)) eqn:El'.
        -- eexists. split; [reflexivity|]. cbn [result]. split; [|congruence].
           intros _. destruct Hcase as [[H _] | [_ H]]; [now rewrite H|].
           exfalso. apply H. now apply NumFacts.ltb_lt.
        -- eexists. split; [reflexivity|]. cbn [result]. split; [|congruence].
           intros _. destruct Hcase as [[_ H] | [H _]]; [|now rewrite H].
           apply NumFacts.ltb_lt in H. congruence.
      * apply bool_decide_eq_false in Ebe. cbn [andb].
        eexists. split; [reflexivity|]. cbn [result]. split; [tauto | reflexivity].
Qed.
End Formatting.

End PriceConditionsSpec.

(** ** False breakouts *)

Module FalseBreakoutsSpec.
Import Candles Swings Py Sorting SortingFacts FalseBreakouts.






(** *** The average true range *)






Section Detector.
Variable self : FalseBreakoutDetector.
Variable c : Table.






















End Detector.

(** A break above 100 that takes two bars to reverse: the second row
    breaks and closes above, the third closes back below. *)
Definition slow_reversal : Table :=
  {| bars := [SwingsSpec.ohlc 99 97 98; SwingsSpec.ohlc 105 98 103;
              SwingsSpec.ohlc 107 98 99; SwingsSpec.ohlc 100 97 98];
     has_timestamp := false; has_datetime := false |}.

Example slow_reversal_found :
  exists fb atr,
    _calculate_atr slow_reversal 14 = Ok atr /\
    _detect_fb_above FB_DETECTOR_DEFAULT slow_reversal 100 0 atr = Ok (Some fb) /\
    break_index fb = 1 /\ reversal_index fb = Some 2 /\
    break_high fb = Some 107%Q /\ volume_spike fb = false.
Proof. eexists _, _. vm_compute. repeat split. Qed.

End FalseBreakoutsSpec.
